(** * The caching fetch library (cachingFetch.ts)

    A shallow embedding of [src/caching-fetch-library/cachingFetch.ts]:
    the cache manager returned by [createCache] (a JavaScript [Map] with
    [serialize]/[initialize] going through [JSON.stringify]/[JSON.parse]),
    the hook [useCachingFetch], [preloadCachingFetch], [serializeCache],
    [initializeCache] and [wipeCache].

    - JavaScript strings are sequences of UTF-16 code units; a code unit
      is an [N].  JavaScript numbers are the IEEE 754 doubles ([number]):
      [NaN], the two infinities, the two zeros and the values
      [m * 2^e] with at most 53 bits in [m].  A number literal is read as
      the double nearest to its exact value, ties to the even
      significand, and a number is written with the fewest digits that
      read back as the number (Number::toString).
    - [JSON.stringify], [JSON.parse], [Map] and [new Map(iterable)] follow
      ECMAScript on these values.
    - The module is single-threaded: its state ([World]) is the [Map] of
      the cache manager, the calls of [fetch] made so far, the components
      using the hook and the promises of the preloader, and it changes by
      events ([Event]), each one running to completion.  React runs the
      effect of a component after the render that made it due, and the
      cleanup function of an effect before its next run and at unmount.
      The callbacks chained on [fetch(url)] touch the module in their
      last step only, so that the settlement of a fetch is one event. *)

From Stdlib Require Import String Ascii NArith ZArith Bool Arith Lia List.
From Stdlib Require Import DecimalN DecimalFacts.
Import ListNotations.

Set Warnings "-register-all".

Local Open Scope N_scope.

(** * The program *)

(* ================================================================== *)
(** ** Strings *)
(* ================================================================== *)

Definition jsstring := list N.

(** Code units of a literal written in the development. *)
Definition js (s : string) : jsstring :=
  map N_of_ascii (list_ascii_of_string s).

(** The same, with every apostrophe standing for a double quote: used to
    write down JSON texts. *)
Definition jsq (s : string) : jsstring :=
  map (fun c => if c =? 39 then 34 else c) (js s).

Fixpoint jsstring_eqb (a b : jsstring) : bool :=
  match a, b with
  | [], [] => true
  | x :: a', y :: b' => (x =? y) && jsstring_eqb a' b'
  | _, _ => false
  end.

(** [strip_prefix p s]: the rest of [s] after the prefix [p]. *)
Fixpoint strip_prefix (p s : jsstring) : option jsstring :=
  match p, s with
  | [], _ => Some s
  | x :: p', y :: s' => if x =? y then strip_prefix p' s' else None
  | _ :: _, [] => None
  end.

(* ================================================================== *)
(** ** Numbers: Number::toString and the JSON number literal *)
(* ================================================================== *)

Fixpoint digits_of_uint (d : Decimal.uint) : jsstring :=
  match d with
  | Decimal.Nil => []
  | Decimal.D0 d => 48 :: digits_of_uint d
  | Decimal.D1 d => 49 :: digits_of_uint d
  | Decimal.D2 d => 50 :: digits_of_uint d
  | Decimal.D3 d => 51 :: digits_of_uint d
  | Decimal.D4 d => 52 :: digits_of_uint d
  | Decimal.D5 d => 53 :: digits_of_uint d
  | Decimal.D6 d => 54 :: digits_of_uint d
  | Decimal.D7 d => 55 :: digits_of_uint d
  | Decimal.D8 d => 56 :: digits_of_uint d
  | Decimal.D9 d => 57 :: digits_of_uint d
  end.

Definition is_digit (c : N) : bool := (48 <=? c) && (c <=? 57).

Definition digit_cons (c : N) (d : Decimal.uint) : Decimal.uint :=
  if c =? 48 then Decimal.D0 d else if c =? 49 then Decimal.D1 d
  else if c =? 50 then Decimal.D2 d else if c =? 51 then Decimal.D3 d
  else if c =? 52 then Decimal.D4 d else if c =? 53 then Decimal.D5 d
  else if c =? 54 then Decimal.D6 d else if c =? 55 then Decimal.D7 d
  else if c =? 56 then Decimal.D8 d else Decimal.D9 d.

(** The longest run of decimal digits at the head of [s], and the rest. *)
Fixpoint read_digits (s : jsstring) : Decimal.uint * jsstring :=
  match s with
  | c :: t =>
      if is_digit c
      then let (d, r) := read_digits t in (digit_cons c d, r)
      else (Decimal.Nil, s)
  | [] => (Decimal.Nil, [])
  end.

(** String of a natural number, as [`${n}`] gives it. *)
Definition N_to_string (n : N) : jsstring := digits_of_uint (N.to_uint n).

(** The text after the digits does not go on with a digit. *)
Definition no_digit_head (s : jsstring) : Prop :=
  match s with
  | c :: _ => is_digit c = false
  | [] => True
  end.

(** The text after a number literal does not go on with one of its
    characters. *)
Definition number_end (r : jsstring) : bool :=
  match r with
  | c :: _ => negb (is_digit c || (c =? 46) || (c =? 101) || (c =? 69)
                    || (c =? 43) || (c =? 45))
  | [] => true
  end.

(** JSON [int]: [0], or a non-empty run of digits without a leading zero. *)
Definition parse_nat (s : jsstring) : option (N * jsstring) :=
  let (d, r) := read_digits s in
  match d with
  | Decimal.Nil => None
  | _ => if Decimal.uint_beq (Decimal.unorm d) d then Some (N.of_uint d, r) else None
  end.

Definition hex_char (d : N) : N := if d <? 10 then 48 + d else 87 + d.

Definition hex_val (c : N) : option N :=
  if (48 <=? c) && (c <=? 57) then Some (c - 48)
  else if (97 <=? c) && (c <=? 102) then Some (c - 87)
  else if (65 <=? c) && (c <=? 70) then Some (c - 55)
  else None.

(** UnicodeEscape: a backslash, [u] and four lowercase hexadecimal digits. *)
Definition unicode_escape (c : N) : jsstring :=
  [92; 117; hex_char (c / 4096 mod 16); hex_char (c / 256 mod 16);
   hex_char (c / 16 mod 16); hex_char (c mod 16)].

Definition hex4 (h1 h2 h3 h4 : N) : option N :=
  match hex_val h1, hex_val h2, hex_val h3, hex_val h4 with
  | Some a, Some b, Some c, Some d => Some (((a * 16 + b) * 16 + c) * 16 + d)
  | _, _, _, _ => None
  end.

Definition is_high_surrogate (c : N) : bool := (55296 <=? c) && (c <=? 56319).
Definition is_low_surrogate (c : N) : bool := (56320 <=? c) && (c <=? 57343).

(** The characters of QuoteJSONString between the two quotes. *)
Fixpoint quote_chars (s : jsstring) : jsstring :=
  match s with
  | [] => []
  | c :: t =>
      if c =? 8 then 92 :: 98 :: quote_chars t
      else if c =? 9 then 92 :: 116 :: quote_chars t
      else if c =? 10 then 92 :: 110 :: quote_chars t
      else if c =? 12 then 92 :: 102 :: quote_chars t
      else if c =? 13 then 92 :: 114 :: quote_chars t
      else if c =? 34 then 92 :: 34 :: quote_chars t
      else if c =? 92 then 92 :: 92 :: quote_chars t
      else if c <? 32 then unicode_escape c ++ quote_chars t
      else if is_high_surrogate c then
        match t with
        | d :: t' =>
            if is_low_surrogate d then c :: d :: quote_chars t'
            else unicode_escape c ++ quote_chars t
        | [] => unicode_escape c
        end
      else if is_low_surrogate c then unicode_escape c ++ quote_chars t
      else c :: quote_chars t
  end.

Definition QuoteJSONString (s : jsstring) : jsstring :=
  34 :: quote_chars s ++ [34].

(** The character a single-character escape stands for. *)
Definition simple_escape (e : N) : option N :=
  if e =? 34 then Some 34 else if e =? 92 then Some 92
  else if e =? 47 then Some 47 else if e =? 98 then Some 8
  else if e =? 102 then Some 12 else if e =? 110 then Some 10
  else if e =? 114 then Some 13 else if e =? 116 then Some 9
  else None.

Definition cons_chars (c : N) (r : option (jsstring * jsstring)) :=
  match r with
  | Some (s, rest) => Some (c :: s, rest)
  | None => None
  end.

(** JSON string after its opening quote: the decoded characters up to the
    closing quote, and the text after it. *)
Fixpoint parse_chars (s : jsstring) : option (jsstring * jsstring) :=
  match s with
  | [] => None
  | c :: t =>
      if c =? 34 then Some ([], t)
      else if c =? 92 then
        match t with
        | e :: t1 =>
            if e =? 117 then
              match t1 with
              | h1 :: h2 :: h3 :: h4 :: t2 =>
                  match hex4 h1 h2 h3 h4 with
                  | Some u => cons_chars u (parse_chars t2)
                  | None => None
                  end
              | _ => None
              end
            else
              match simple_escape e with
              | Some u => cons_chars u (parse_chars t1)
              | None => None
              end
        | [] => None
        end
      else if c <? 32 then None
      else cons_chars c (parse_chars t)
  end.

(* ================================================================== *)
(** ** Numbers: IEEE 754 binary64 *)
(* ================================================================== *)

(** A Number value.  [Finite s m e] is [(-1)^s * m * 2^e]; the two zeros
    are [Finite s 0 0], and for the other values [m] is odd, so that
    every value is written in one way. *)
Inductive number : Type :=
| NaN
| Infinity (negative : bool)
| Finite (negative : bool) (m : Z) (e : Z).

Local Open Scope Z_scope.

(** The values of the type: 53 significant bits at most, no bit below
    [2^-1074], and a magnitude below [2^1024]. *)
Definition is_double (x : number) : bool :=
  match x with
  | NaN | Infinity _ => true
  | Finite _ m e =>
      if m =? 0 then e =? 0
      else (0 <? m) && Z.odd m && (Z.log2 m + 1 <=? 53) && (-1074 <=? e)
           && (Z.log2 m + 1 + e <=? 1024)
  end.

Definition is_finite (x : number) : bool :=
  match x with Finite _ _ _ => true | _ => false end.

Definition is_negative_zero (x : number) : bool :=
  match x with Finite true 0 _ => true | _ => false end.

Definition number_eqb (x y : number) : bool :=
  match x, y with
  | NaN, NaN => true
  | Infinity s, Infinity s' => Bool.eqb s s'
  | Finite s m e, Finite s' m' e' => Bool.eqb s s' && (m =? m') && (e =? e')
  | _, _ => false
  end.

(** The odd part of a positive integer, and the number of times two
    divides it. *)
Fixpoint pos_odd_part (p : positive) : positive :=
  match p with xO p' => pos_odd_part p' | _ => p end.

Fixpoint pos_twos (p : positive) : Z :=
  match p with xO p' => 1 + pos_twos p' | _ => 0 end.

(** [M * 2^E] with the powers of two taken out of [M]. *)
Definition odd_times_power (M E : Z) : Z * Z :=
  match M with
  | Zpos p => (Zpos (pos_odd_part p), E + pos_twos p)
  | _ => (0, 0)
  end.

(** The integer nearest to [A / B], the even one of two equally near. *)
Definition round_half_even (A B : Z) : Z :=
  let q := A / B in
  match 2 * (A mod B) ?= B with
  | Lt => q
  | Gt => q + 1
  | Eq => if Z.even q then q else q + 1
  end.

(** The exponent of the last bit of the doubles around the positive
    rational [a / b]: the [E] with [2^(E+52) <= a / b < 2^(E+53)], and
    [-1074] below [2^-1022] (the subnormal numbers).  Exponents are
    counted from [-1074], so that all powers are integers. *)
Definition binade (a b : Z) : Z :=
  let E0 := Z.max (-1074) (Z.log2 a - Z.log2 b - 52) in
  if b * 2 ^ (E0 + 1126) <=? a * 2 ^ 1074 then E0 else Z.max (-1074) (E0 - 1).

(** The Number value of the positive rational [a / b]: the nearest
    double, the one with an even significand of two equally near, and
    infinity from [2^1024 - 2^970] on (roundTiesToEven). *)
Definition round_fraction (negative : bool) (a b : Z) : number :=
  let E := binade a b in
  let M := round_half_even (a * 2 ^ 1074) (b * 2 ^ (E + 1074)) in
  if 1024 <? Z.log2 M + 1 + E then Infinity negative
  else let (m, e) := odd_times_power M E in Finite negative m e.

(** The Number value of the decimal [s * 10^q], with its sign: the
    rounding of the exact value of the literal. *)
Definition number_of_decimal (negative : bool) (s q : Z) : number :=
  if s <=? 0 then Finite negative 0 0
  else if 0 <=? q then round_fraction negative (s * 10 ^ q) 1
       else round_fraction negative s (10 ^ (- q)).

Local Close Scope Z_scope.

(* ------------------------------------------------------------------ *)
(** *** The JSON number literal *)

Definition digit_count (d : Decimal.uint) : Z := Z.of_nat (Decimal.nb_digits d).

(** [frac]: a point and one digit at least. *)
Definition parse_frac (r : jsstring) : Decimal.uint * jsstring :=
  match r with
  | c :: t =>
      if c =? 46 then
        match read_digits t with
        | (Decimal.Nil, _) => (Decimal.Nil, r)
        | (d, r') => (d, r')
        end
      else (Decimal.Nil, r)
  | [] => (Decimal.Nil, r)
  end.

(** [exp]: [e] or [E], an optional sign and one digit at least. *)
Definition parse_exp (r : jsstring) : Z * jsstring :=
  match r with
  | c :: t =>
      if (c =? 101) || (c =? 69) then
        let '(minus, t') :=
          match t with
          | sg :: t1 =>
              if sg =? 45 then (true, t1)
              else if sg =? 43 then (false, t1) else (false, t)
          | [] => (false, t)
          end in
        match read_digits t' with
        | (Decimal.Nil, _) => (0%Z, r)
        | (d, r') =>
            ((if minus then Z.opp (Z.of_N (N.of_uint d))
              else Z.of_N (N.of_uint d)), r')
        end
      else (0%Z, r)
  | [] => (0%Z, r)
  end.

(** A literal without sign: [int], then [frac] and [exp] when they are
    there.  The result is the decimal [s * 10^q] and the rest. *)
Definition parse_unsigned (s : jsstring) : option (Z * Z * jsstring) :=
  match parse_nat s with
  | Some (i, r1) =>
      let (df, r2) := parse_frac r1 in
      let (ex, r3) := parse_exp r2 in
      Some ((Z.of_N i * 10 ^ digit_count df + Z.of_N (N.of_uint df))%Z,
            (ex - digit_count df)%Z, r3)
  | None => None
  end.

(** JSON [number]: an optional minus and a literal. *)
Definition parse_number (s : jsstring) : option (number * jsstring) :=
  match s with
  | c :: t =>
      if c =? 45
      then match parse_unsigned t with
           | Some (m, q, r) => Some (number_of_decimal true m q, r)
           | None => None
           end
      else match parse_unsigned s with
           | Some (m, q, r) => Some (number_of_decimal false m q, r)
           | None => None
           end
  | [] => None
  end.

(* ------------------------------------------------------------------ *)
(** *** Number::toString *)

Fixpoint zeros (n : nat) : jsstring :=
  match n with O => [] | S n' => 48 :: zeros n' end.

(** The exponent part: [e], the sign and the digits of [n]. *)
Definition exponent_text (n : Z) : jsstring :=
  101 :: (if (0 <=? n)%Z then 43 else 45) :: N_to_string (Z.to_N (Z.abs n)).

(** The text of the value [s * 10^(n-k)], where [ds] are the [k] digits
    of [s]. *)
Definition number_text (ds : jsstring) (n : Z) : jsstring :=
  let k := Z.of_nat (length ds) in
  if ((k <=? n) && (n <=? 21))%Z then ds ++ zeros (Z.to_nat (n - k))
  else if ((0 <? n) && (n <=? 21))%Z then
    firstn (Z.to_nat n) ds ++ 46 :: skipn (Z.to_nat n) ds
  else if ((-6 <? n) && (n <=? 0))%Z then
    48 :: 46 :: zeros (Z.to_nat (- n)) ++ ds
  else
    match ds with
    | [d] => d :: exponent_text (n - 1)
    | d :: rest => d :: 46 :: rest ++ exponent_text (n - 1)
    | [] => []
    end.

(** Without its final zeros, and how many there were. *)
Fixpoint strip_zeros (fuel : nat) (s : Z) : Z * Z :=
  match fuel with
  | O => (s, 0%Z)
  | S f =>
      if ((0 <? s) && (s mod 10 =? 0))%Z
      then let (s', j) := strip_zeros f (s / 10)%Z in (s', (j + 1)%Z)
      else (s, 0%Z)
  end.

(** The text of the decimal [s * 10^q], [s] positive. *)
Definition decimal_text (s q : Z) : jsstring :=
  let (s', j) := strip_zeros 400 s in
  let ds := N_to_string (Z.to_N s') in
  number_text ds (q + j + Z.of_nat (length ds)).

(** The [n] with [10^(n-1) <= a / b < 10^n], for [a] and [b] positive. *)
Definition decimal_exponent (a b : Z) : Z :=
  let d := (Z.of_nat (length (N_to_string (Z.to_N a)))
            - Z.of_nat (length (N_to_string (Z.to_N b))))%Z in
  if (if (0 <=? d)%Z then (b * 10 ^ d <=? a)%Z else (b <=? a * 10 ^ (- d))%Z)
  then (d + 1)%Z else d.

(** The two decimals of [k] digits around [a / b], the nearer first (the
    even one first when they are as near). *)
Definition candidates (a b n k : Z) : list (Z * Z) :=
  let q := (n - k)%Z in
  let A := if (0 <=? q)%Z then a else (a * 10 ^ (- q))%Z in
  let B := if (0 <=? q)%Z then (b * 10 ^ q)%Z else b in
  let lo := (A / B)%Z in
  let hi := (lo + 1)%Z in
  match (2 * (A mod B) ?= B)%Z with
  | Lt => [(lo, q); (hi, q)]
  | Gt => [(hi, q); (lo, q)]
  | Eq => if Z.even lo then [(lo, q); (hi, q)] else [(hi, q); (lo, q)]
  end.

(** Whether the text reads as the magnitude [Finite false m e]. *)
Definition reads_as (t : jsstring) (m e : Z) : bool :=
  match parse_unsigned t with
  | Some (s, q, []) => number_eqb (number_of_decimal false s q) (Finite false m e)
  | _ => false
  end.

Fixpoint first_reading (m e : Z) (cs : list (Z * Z)) : option jsstring :=
  match cs with
  | [] => None
  | (s, q) :: cs' =>
      if ((0 <? s)%Z && reads_as (decimal_text s q) m e)
      then Some (decimal_text s q)
      else first_reading m e cs'
  end.

(** The shortest decimal that reads as [m * 2^e]: for [k] from [k0] on. *)
Fixpoint shortest_text (fuel : nat) (k : Z) (m e a b n : Z) : option jsstring :=
  match fuel with
  | O => None
  | S f =>
      match first_reading m e (candidates a b n k) with
      | Some t => Some t
      | None => shortest_text f (k + 1)%Z m e a b n
      end
  end.

(** The exact decimal of [m * 2^e]. *)
Definition exact_text (m e : Z) : jsstring :=
  if (0 <=? e)%Z then N_to_string (Z.to_N (m * 2 ^ e))
  else N_to_string (Z.to_N (m * 5 ^ (- e)))
       ++ 101 :: 45 :: N_to_string (Z.to_N (- e)).

(** Number::toString of a positive finite value: the digits of the
    shortest decimal that reads as the value, the nearest to the value
    among those of that length, laid out by [number_text].  Seventeen
    digits are enough for every double, so that the search succeeds; the
    exact decimal is written if it did not, which makes the text read
    back as the value without relying on that fact. *)
Definition magnitude_to_string (m e : Z) : jsstring :=
  let a := if (0 <=? e)%Z then (m * 2 ^ e)%Z else m in
  let b := if (0 <=? e)%Z then 1%Z else (2 ^ (- e))%Z in
  match shortest_text 17 1 m e a b (decimal_exponent a b) with
  | Some t => t
  | None => exact_text m e
  end.

Definition lit_NaN : jsstring := Eval cbv in js "NaN".
Definition lit_Infinity : jsstring := Eval cbv in js "Infinity".

(** Number::toString, radix 10. *)
Definition number_to_string (x : number) : jsstring :=
  match x with
  | NaN => lit_NaN
  | Infinity false => lit_Infinity
  | Infinity true => 45 :: lit_Infinity
  | Finite s m e =>
      if (m <=? 0)%Z then [48]
      else if s then 45 :: magnitude_to_string m e
           else magnitude_to_string m e
  end.

(** The value without the sign of a zero: what [JSON.stringify] keeps of
    a number, and what a [Map] keeps of a key. *)
Definition positive_zero (x : number) : number :=
  if is_negative_zero x then Finite false 0 0 else x.

(* ================================================================== *)
(** ** JavaScript values *)
(* ================================================================== *)

(** The values the cache can hold: what [JSON.parse] builds, and
    [undefined].  The properties of an object are listed in the order of
    its own property keys. *)
Inductive value : Type :=
| VUndefined
| VNull
| VBool (b : bool)
| VNum (x : number)
| VStr (s : jsstring)
| VArr (items : list value)
| VObj (props : list (jsstring * value)).

Definition is_undefined (v : value) : bool :=
  match v with VUndefined => true | _ => false end.

(** An array index: a canonical numeric string below [2^32 - 1]. *)
Definition array_index (k : jsstring) : option N :=
  match parse_nat k with
  | Some (n, []) => if n <? 4294967295 then Some n else None
  | _ => None
  end.

Fixpoint obj_has (k : jsstring) (o : list (jsstring * value)) : bool :=
  match o with
  | [] => false
  | (k', _) :: o' => jsstring_eqb k' k || obj_has k o'
  end.

(** [o[k]] on an object without inherited properties of that name. *)
Fixpoint obj_get (k : jsstring) (o : list (jsstring * value)) : value :=
  match o with
  | [] => VUndefined
  | (k', v) :: o' => if jsstring_eqb k' k then v else obj_get k o'
  end.

Fixpoint obj_replace (k : jsstring) (v : value) (o : list (jsstring * value))
  : list (jsstring * value) :=
  match o with
  | [] => []
  | (k', v') :: o' =>
      if jsstring_eqb k' k then (k', v) :: o' else (k', v') :: obj_replace k v o'
  end.

(** A new array-index key takes its place among the array-index keys,
    which come first, in ascending order. *)
Fixpoint obj_insert_index (n : N) (k : jsstring) (v : value)
  (o : list (jsstring * value)) : list (jsstring * value) :=
  match o with
  | [] => [(k, v)]
  | (k', v') :: o' =>
      match array_index k' with
      | Some n' =>
          if n' <? n then (k', v') :: obj_insert_index n k v o'
          else (k, v) :: o
      | None => (k, v) :: o
      end
  end.

(** CreateDataProperty on an ordinary object. *)
Definition CreateDataProperty (o : list (jsstring * value)) (k : jsstring)
  (v : value) : list (jsstring * value) :=
  if obj_has k o then obj_replace k v o
  else match array_index k with
       | Some n => obj_insert_index n k v o
       | None => o ++ [(k, v)]
       end.

(** The object [JSON.parse] builds from the members of an object literal. *)
Definition build_object (members : list (jsstring * value))
  : list (jsstring * value) :=
  fold_left (fun o m => CreateDataProperty o (fst m) (snd m)) members [].

(** [a] may come before [b] among the own property keys of one object. *)
Definition key_before (a b : jsstring) : bool :=
  negb (jsstring_eqb a b) &&
  match array_index a, array_index b with
  | Some x, Some y => x <? y
  | Some _, None => true
  | None, Some _ => false
  | None, None => true
  end.

Fixpoint keys_ordered (ks : list jsstring) : bool :=
  match ks with
  | [] => true
  | k :: r => forallb (key_before k) r && keys_ordered r
  end.

(** The values [JSON.parse] can build, and what is made of them: no
    [undefined] anywhere, numbers that are doubles, and objects whose
    property keys are distinct and in own-property order. *)
Fixpoint is_data (v : value) : bool :=
  match v with
  | VUndefined => false
  | VNull | VBool _ | VStr _ => true
  | VNum x => is_double x
  | VArr items => forallb is_data items
  | VObj props =>
      keys_ordered (map fst props)
      && forallb (fun p => is_data (snd p)) props
  end.

(** JSON-representable values: those whose numbers are all finite. *)
Fixpoint is_json (v : value) : bool :=
  match v with
  | VUndefined => false
  | VNull | VBool _ | VStr _ => true
  | VNum x => is_double x && is_finite x
  | VArr items => forallb is_json items
  | VObj props =>
      keys_ordered (map fst props)
      && forallb (fun p => is_json (snd p)) props
  end.

(** Whether a negative zero occurs in the value. *)
Fixpoint has_negative_zero (v : value) : bool :=
  match v with
  | VNum x => is_negative_zero x
  | VArr items => existsb has_negative_zero items
  | VObj props => existsb (fun p => has_negative_zero (snd p)) props
  | _ => false
  end.

(** What [JSON.parse] reads in the text [JSON.stringify] writes for a
    value: the value, with [null] for the numbers that are not finite and
    [0] for a negative zero. *)
Fixpoint through_json (v : value) : value :=
  match v with
  | VNum x => if is_finite x then VNum (positive_zero x) else VNull
  | VArr items => VArr (map through_json items)
  | VObj props => VObj (map (fun p => (fst p, through_json (snd p))) props)
  | _ => v
  end.

(* ================================================================== *)
(** ** JSON.stringify *)
(* ================================================================== *)

Definition lit_null : jsstring := Eval cbv in js "null".
Definition lit_true : jsstring := Eval cbv in js "true".
Definition lit_false : jsstring := Eval cbv in js "false".

Definition join_comma (ts : list jsstring) : jsstring :=
  match ts with
  | [] => []
  | t :: r => t ++ flat_map (fun x => 44 :: x) r
  end.

(** SerializeJSONProperty without replacer or indentation.  The result
    [undefined] only arises for the value [undefined], which the callers
    test: an [undefined] array element is written [null], a property
    whose value is [undefined] is left out. *)
Fixpoint SerializeJSONProperty (v : value) : jsstring :=
  match v with
  | VUndefined => []
  | VNull => lit_null
  | VBool true => lit_true
  | VBool false => lit_false
  | VNum x => if is_finite x then number_to_string x else lit_null
  | VStr s => QuoteJSONString s
  | VArr items =>
      91 :: join_comma
              (map (fun e => if is_undefined e then lit_null
                             else SerializeJSONProperty e) items)
         ++ [93]
  | VObj props =>
      123 :: join_comma
               (flat_map (fun p => if is_undefined (snd p) then []
                                   else [QuoteJSONString (fst p)
                                         ++ 58 :: SerializeJSONProperty (snd p)])
                         props)
          ++ [125]
  end.

Definition JSON_stringify (v : value) : option jsstring :=
  if is_undefined v then None else Some (SerializeJSONProperty v).

(* ================================================================== *)
(** ** JSON.parse *)
(* ================================================================== *)

Definition is_ws (c : N) : bool :=
  (c =? 32) || (c =? 9) || (c =? 10) || (c =? 13).

Fixpoint skip_ws (s : jsstring) : jsstring :=
  match s with
  | c :: t => if is_ws c then skip_ws t else s
  | [] => []
  end.

(** One member of an object literal: a string, a colon and a value read
    by [pv]. *)
Definition parse_member (pv : jsstring -> option (value * jsstring))
  (s : jsstring) : option (jsstring * value * jsstring) :=
  match skip_ws s with
  | c :: t =>
      if c =? 34 then
        match parse_chars t with
        | Some (k, r) =>
            match skip_ws r with
            | c2 :: r2 =>
                if c2 =? 58 then
                  match pv r2 with
                  | Some (v, r3) => Some (k, v, r3)
                  | None => None
                  end
                else None
            | [] => None
            end
        | None => None
        end
      else None
  | [] => None
  end.

(** [parse_value fuel s] reads one JSON value at the head of [s], after
    optional white space, and returns it with the rest of the text;
    [parse_elements] and [parse_members] read what follows an element of an
    array or a member of an object, up to the closing bracket.  Every
    recursive call is on a shorter text, so that any [fuel] above the length
    of [s] is enough. *)
Fixpoint parse_value (fuel : nat) (s : jsstring) : option (value * jsstring) :=
  match fuel with
  | O => None
  | S f =>
      match skip_ws s with
      | [] => None
      | c :: t =>
          if c =? 91 then
            match skip_ws t with
            | [] => None
            | c' :: r =>
                if c' =? 93 then Some (VArr [], r)
                else
                  match parse_value f t with
                  | Some (v, r1) =>
                      match parse_elements f r1 with
                      | Some (vs, r2) => Some (VArr (v :: vs), r2)
                      | None => None
                      end
                  | None => None
                  end
            end
          else if c =? 123 then
            match skip_ws t with
            | [] => None
            | c' :: r =>
                if c' =? 125 then Some (VObj [], r)
                else
                  match parse_member (parse_value f) t with
                  | Some (k, v, r1) =>
                      match parse_members f r1 with
                      | Some (ms, r2) => Some (VObj (build_object ((k, v) :: ms)), r2)
                      | None => None
                      end
                  | None => None
                  end
            end
          else if c =? 34 then
            match parse_chars t with
            | Some (str, r) => Some (VStr str, r)
            | None => None
            end
          else if c =? 110 then
            match strip_prefix [117; 108; 108] t with
            | Some r => Some (VNull, r)
            | None => None
            end
          else if c =? 116 then
            match strip_prefix [114; 117; 101] t with
            | Some r => Some (VBool true, r)
            | None => None
            end
          else if c =? 102 then
            match strip_prefix [97; 108; 115; 101] t with
            | Some r => Some (VBool false, r)
            | None => None
            end
          else
            match parse_number (c :: t) with
            | Some (n, r) => Some (VNum n, r)
            | None => None
            end
      end
  end

with parse_elements (fuel : nat) (s : jsstring)
  : option (list value * jsstring) :=
  match fuel with
  | O => None
  | S f =>
      match skip_ws s with
      | [] => None
      | c :: t =>
          if c =? 93 then Some ([], t)
          else if c =? 44 then
            match parse_value f t with
            | Some (v, r1) =>
                match parse_elements f r1 with
                | Some (vs, r2) => Some (v :: vs, r2)
                | None => None
                end
            | None => None
            end
          else None
      end
  end

with parse_members (fuel : nat) (s : jsstring)
  : option (list (jsstring * value) * jsstring) :=
  match fuel with
  | O => None
  | S f =>
      match skip_ws s with
      | [] => None
      | c :: t =>
          if c =? 125 then Some ([], t)
          else if c =? 44 then
            match parse_member (parse_value f) t with
            | Some (k, v, r1) =>
                match parse_members f r1 with
                | Some (ms, r2) => Some ((k, v) :: ms, r2)
                | None => None
                end
            | None => None
            end
          else None
      end
  end.

(** [JSON.parse]: one value, then nothing but white space.  [None] is the
    SyntaxError. *)
Definition JSON_parse (s : jsstring) : option value :=
  match parse_value (S (length s)) s with
  | Some (v, r) =>
      match skip_ws r with
      | [] => Some v
      | _ :: _ => None
      end
  | None => None
  end.

(* ================================================================== *)
(** ** Induction on values *)
(* ================================================================== *)

Section value_induction.
Variable P : value -> Prop.
Hypothesis Hundef : P VUndefined.
Hypothesis Hnull : P VNull.
Hypothesis Hbool : forall b, P (VBool b).
Hypothesis Hnum : forall n, P (VNum n).
Hypothesis Hstr : forall s, P (VStr s).
Hypothesis Harr : forall items, Forall P items -> P (VArr items).
Hypothesis Hobj :
  forall props, Forall (fun p => P (snd p)) props -> P (VObj props).

Fixpoint value_nested_ind (v : value) : P v :=
  match v with
  | VUndefined => Hundef
  | VNull => Hnull
  | VBool b => Hbool b
  | VNum n => Hnum n
  | VStr s => Hstr s
  | VArr items =>
      Harr items ((fix all (l : list value) : Forall P l :=
               match l with
               | [] => Forall_nil P
               | x :: r => Forall_cons x (value_nested_ind x) (all r)
               end) items)
  | VObj props =>
      Hobj props ((fix all (l : list (jsstring * value))
               : Forall (fun p => P (snd p)) l :=
               match l with
               | [] => Forall_nil _
               | p :: r =>
                   Forall_cons (P := fun p => P (snd p)) p
                     (value_nested_ind (snd p)) (all r)
               end) props)
  end.
End value_induction.

(* ================================================================== *)
(** ** The shape of printed texts *)
(* ================================================================== *)

(** The characters a printed value can start with. *)
Definition value_head (c : N) : bool :=
  (c =? 91) || (c =? 123) || (c =? 34) || (c =? 110) || (c =? 116)
  || (c =? 102) || (c =? 45) || is_digit c.

(** The texts that follow the first element of an array and the first
    member of an object, up to the closing bracket. *)
Definition elems_tail (es : list value) : jsstring :=
  flat_map (fun e => 44 :: SerializeJSONProperty e) es.

Definition member_text (p : jsstring * value) : jsstring :=
  QuoteJSONString (fst p) ++ 58 :: SerializeJSONProperty (snd p).

Definition members_tail (ps : list (jsstring * value)) : jsstring :=
  flat_map (fun p => 44 :: member_text p) ps.

(** What the round trip says of one value. *)
Definition reads_back (v : value) : Prop :=
  is_data v = true ->
  forall f r, number_end r = true ->
    lt (length (SerializeJSONProperty v ++ r)) f ->
    parse_value f (SerializeJSONProperty v ++ r) = Some (through_json v, r).

Ltac len_solve :=
  repeat rewrite ?length_app, ?length_cons in *; simpl in *; lia.

(* ================================================================== *)
(** ** Errors *)
(* ================================================================== *)

(** What can be thrown: [new Error(message)] of this file, the SyntaxError
    of [JSON.parse] and [response.json()], the TypeError of [new Map] and
    of a failed [fetch]. *)
Inductive Error : Type :=
| NewError (message : jsstring)
| SyntaxError
| TypeError.

Inductive completion (A : Type) : Type :=
| Normal (a : A)
| Throw (e : Error).

Arguments Normal {A} a.
Arguments Throw {A} e.

(* ================================================================== *)
(** ** Map *)
(* ================================================================== *)

(** The entries of a [Map], in insertion order. *)
Definition Map := list (value * value).

(** Key equality of [Map]: [NaN] is equal to itself and the two zeros are
    equal.  Arrays and objects are equal to themselves
    only; the array and object keys a cache can hold are the distinct
    objects one [JSON.parse] has built, and they are looked up with
    strings, so that a comparison with an array or an object is false. *)
Definition SameValueZero (a b : value) : bool :=
  match a, b with
  | VUndefined, VUndefined => true
  | VNull, VNull => true
  | VBool x, VBool y => Bool.eqb x y
  | VNum x, VNum y =>
      number_eqb (positive_zero x) (positive_zero y)
  | VStr x, VStr y => jsstring_eqb x y
  | _, _ => false
  end.

Fixpoint Map_has (m : Map) (k : value) : bool :=
  match m with
  | [] => false
  | (k', _) :: r => SameValueZero k' k || Map_has r k
  end.

Fixpoint Map_get (m : Map) (k : value) : value :=
  match m with
  | [] => VUndefined
  | (k', v) :: r => if SameValueZero k' k then v else Map_get r k
  end.

(** The key a [Map] keeps: a negative zero is kept as [0]. *)
Definition canonical_key (k : value) : value :=
  match k with
  | VNum x => VNum (positive_zero x)
  | _ => k
  end.

(** An existing key keeps its place; a new one goes last. *)
Fixpoint Map_set (m : Map) (k v : value) : Map :=
  match m with
  | [] => [(canonical_key k, v)]
  | (k', v') :: r =>
      if SameValueZero k' k then (k', v) :: r else (k', v') :: Map_set r k v
  end.

(** [Array.from(m.entries())] *)
Definition Map_entries (m : Map) : value :=
  VArr (map (fun e => VArr [fst e; snd e]) m).

(** [item[0]] and [item[1]] of an item of the iterable given to [new Map];
    an item that is not an object is a TypeError. *)
Definition entry_of_item (item : value) : completion (value * value) :=
  match item with
  | VArr l => Normal (nth 0 l VUndefined, nth 1 l VUndefined)
  | VObj props => Normal (obj_get [48] props, obj_get [49] props)
  | _ => Throw TypeError
  end.

Fixpoint Map_add_entries (m : Map) (items : list value) : completion Map :=
  match items with
  | [] => Normal m
  | item :: r =>
      match entry_of_item item with
      | Normal (k, v) => Map_add_entries (Map_set m k v) r
      | Throw e => Throw e
      end
  end.

(** [new Map(iterable)]: [undefined] and [null] give the empty map, an
    array is iterated over its elements, a string over its characters
    (which are not objects), anything else is not iterable. *)
Definition new_Map (iterable : value) : completion Map :=
  match iterable with
  | VUndefined | VNull => Normal []
  | VArr items => Map_add_entries [] items
  | VStr [] => Normal []
  | VStr (_ :: _) => Throw TypeError
  | VBool _ | VNum _ | VObj _ => Throw TypeError
  end.

(** The keys of the entries are pairwise different for [Map]. *)
Fixpoint Map_keys_distinct (m : Map) : bool :=
  match m with
  | [] => true
  | (k, _) :: r => negb (Map_has r k) && Map_keys_distinct r
  end.

(* ================================================================== *)
(** ** createCache *)
(* ================================================================== *)

(** The methods of the object [createCache] returns, on the [Map] its
    variable [cache] holds. *)
Module cacheManager.

Definition get (cache : Map) (key : jsstring) : value :=
  Map_get cache (VStr key).

Definition has (cache : Map) (key : jsstring) : bool :=
  Map_has cache (VStr key).

Definition set (cache : Map) (key : jsstring) (value : value) : Map :=
  Map_set cache (VStr key) value.

Definition clear (cache : Map) : Map := [].

(** The argument of [JSON.stringify] is an array, never [undefined]. *)
Definition serialize (cache : Map) : jsstring :=
  SerializeJSONProperty (Map_entries cache).

(** [cache = new Map(JSON.parse(serializedCache))]: the new value of
    [cache], or the error thrown before the assignment. *)
Definition initialize (cache : Map) (serializedCache : jsstring)
  : completion Map :=
  match JSON_parse serializedCache with
  | None => Throw SyntaxError
  | Some parsed => new_Map parsed
  end.

(** The variable [cache] after a call of [initialize]. *)
Definition after_initialize (cache : Map) (serializedCache : jsstring) : Map :=
  match initialize cache serializedCache with
  | Normal m => m
  | Throw _ => cache
  end.

End cacheManager.

(** A cache whose keys (strings, when [set] made them) and values are
    JSON-representable. *)
Definition json_cache (cache : Map) : bool :=
  forallb (fun e => is_json (fst e) && is_json (snd e)) cache
  && Map_keys_distinct cache.

(* ================================================================== *)
(** ** fetch *)
(* ================================================================== *)

Record Response : Type := { status : N; body : jsstring }.

(** [response.ok]: the status is in the range 200 to 299. *)
Definition ok (response : Response) : bool :=
  (200 <=? status response) && (status response <=? 299).

(** [response.json()] *)
Definition json (response : Response) : completion value :=
  match JSON_parse (body response) with
  | Some v => Normal v
  | None => Throw SyntaxError
  end.

(** How the promise of [fetch(url)] settles. *)
Inductive Outcome : Type :=
| Responds (response : Response)
| Rejects.

Definition http_error_prefix : jsstring := Eval cbv in js "HTTP error! status: ".

(** [new Error(`HTTP error! status: ${response.status}`)] *)
Definition http_error (response : Response) : Error :=
  NewError (http_error_prefix ++ N_to_string (status response)).

(** What [fetch(url)] followed by the check of [response.ok] and by
    [response.json()] gives: the data, or what is thrown. *)
Definition fetch_json (o : Outcome) : completion value :=
  match o with
  | Rejects => Throw TypeError
  | Responds response =>
      if negb (ok response) then Throw (http_error response)
      else json response
  end.

(* ================================================================== *)
(** ** The hook, the preloader and the pending fetches *)
(* ================================================================== *)

(** The object [useCachingFetch] returns. [data: null] is [VNull],
    [error: null] is [None]. *)
Record State : Type := { isLoading : bool; data : value; error : option Error }.

(** The argument of [React.useState]. *)
Definition initial_state : State :=
  {| isLoading := true; data := VNull; error := None |}.

(** What waits for a fetch: the callbacks of one run of the effect of the
    hook of component [c], with the variable [isMounted] they close over,
    or the rest of the call number [p] of [preloadCachingFetch]. *)
Inductive Continuation : Type :=
| HookContinuation (c : nat) (isMounted : bool)
| PreloadContinuation (p : nat).

(** One call of [fetch(url)]. *)
Record Request : Type :=
  { request_url : jsstring; continuation : Continuation; settled : bool }.

(** One component calling [useCachingFetch]: the [url] of its last render,
    the state [React.useState] holds, the objects the hook has returned
    (one per render, the last one last), whether the effect has to run
    ([url] is its only dependency), and the cleanup function the last run
    of the effect returned, given by the fetch whose [isMounted] it
    clears. *)
Record Hook : Type :=
  { hook_url : jsstring;
    state : State;
    returned : list State;
    effect_due : bool;
    cleanup : option nat;
    mounted : bool }.

Inductive PromiseState : Type :=
| Pending
| Fulfilled
| Rejected (e : Error).

(** The module: the [Map] of [cacheManager], every call of [fetch] made so
    far, the components using the hook, and the promises the calls of
    [preloadCachingFetch] returned. *)
Record World : Type :=
  { cache : Map;
    network : list Request;
    hooks : list Hook;
    promises : list PromiseState }.

Definition initial_world : World :=
  {| cache := []; network := []; hooks := []; promises := [] |}.

Fixpoint update_nth {A : Type} (n : nat) (f : A -> A) (l : list A) : list A :=
  match l, n with
  | [], _ => []
  | x :: r, O => f x :: r
  | x :: r, S n' => x :: update_nth n' f r
  end.

Definition with_cache (w : World) (m : Map) : World :=
  {| cache := m; network := network w; hooks := hooks w; promises := promises w |}.

Definition with_network (w : World) (n : list Request) : World :=
  {| cache := cache w; network := n; hooks := hooks w; promises := promises w |}.

Definition with_hooks (w : World) (h : list Hook) : World :=
  {| cache := cache w; network := network w; hooks := h; promises := promises w |}.

Definition with_promises (w : World) (p : list PromiseState) : World :=
  {| cache := cache w; network := network w; hooks := hooks w; promises := p |}.

(** [setState(s)] in component [c]: the state changes and the component
    renders again, the hook returning [s]. *)
Definition setState (c : nat) (s : State) (w : World) : World :=
  with_hooks w
    (update_nth c
       (fun h => {| hook_url := hook_url h; state := s;
                    returned := returned h ++ [s];
                    effect_due := effect_due h; cleanup := cleanup h;
                    mounted := mounted h |})
       (hooks w)).

(** The effect of component [c] has run and returned [cl]. *)
Definition effect_done (c : nat) (cl : option nat) (w : World) : World :=
  with_hooks w
    (update_nth c
       (fun h => {| hook_url := hook_url h; state := state h;
                    returned := returned h;
                    effect_due := false; cleanup := cl;
                    mounted := mounted h |})
       (hooks w)).

(** The cleanup function [() => { isMounted = false; }] of the fetch [id]. *)
Definition clear_isMounted (rq : Request) : Request :=
  {| request_url := request_url rq;
     continuation := match continuation rq with
                     | HookContinuation c _ => HookContinuation c false
                     | k => k
                     end;
     settled := settled rq |}.

Definition run_cleanup (cl : option nat) (w : World) : World :=
  match cl with
  | Some id => with_network w (update_nth id clear_isMounted (network w))
  | None => w
  end.

(** [fetch(url)]: one more network operation. *)
Definition fetch (url : jsstring) (k : Continuation) (w : World) : World :=
  with_network w
    (network w ++ [{| request_url := url; continuation := k; settled := false |}]).

(** A call of [useCachingFetch(url)], made by a render of component [c]:
    the first one creates the state with [initial_state]; every one
    returns the current state; the effect is due after the first render
    and after a render with another [url]. *)
Definition useCachingFetch (c : nat) (url : jsstring) (w : World) : World :=
  match nth_error (hooks w) c with
  | None =>
      if Nat.eqb c (length (hooks w)) then
        with_hooks w
          (hooks w ++ [{| hook_url := url; state := initial_state;
                          returned := [initial_state];
                          effect_due := true; cleanup := None;
                          mounted := true |}])
      else w
  | Some h =>
      if mounted h then
        with_hooks w
          (update_nth c
             (fun h => {| hook_url := url; state := state h;
                          returned := returned h ++ [state h];
                          effect_due :=
                            effect_due h || negb (jsstring_eqb (hook_url h) url);
                          cleanup := cleanup h; mounted := true |})
             (hooks w))
      else w
  end.

(** The function given to [React.useEffect], for component [c] and the
    [url] of its last render. *)
Definition effect_body (c : nat) (url : jsstring) (w : World) : World :=
  if cacheManager.has (cache w) url then
    effect_done c None
      (setState c {| isLoading := false;
                     data := cacheManager.get (cache w) url;
                     error := None |} w)
  else
    let id := length (network w) in
    effect_done c (Some id)
      (fetch url (HookContinuation c true)
         (setState c {| isLoading := true; data := VNull; error := None |} w)).

(** React runs the effect of component [c] when it is due, after the
    cleanup function of its previous run. *)
Definition run_effect (c : nat) (w : World) : World :=
  match nth_error (hooks w) c with
  | Some h =>
      if mounted h && effect_due h
      then effect_body c (hook_url h) (run_cleanup (cleanup h) w)
      else w
  | None => w
  end.

(** Component [c] is unmounted: React runs the cleanup function. *)
Definition unmount (c : nat) (w : World) : World :=
  match nth_error (hooks w) c with
  | Some h =>
      if mounted h then
        with_hooks (run_cleanup (cleanup h) w)
          (update_nth c
             (fun h => {| hook_url := hook_url h; state := state h;
                          returned := returned h;
                          effect_due := false; cleanup := None;
                          mounted := false |})
             (hooks w))
      else w
  | None => w
  end.

Definition mark_settled (rq : Request) : Request :=
  {| request_url := request_url rq; continuation := continuation rq;
     settled := true |}.

Definition settle_promise (p : nat) (s : PromiseState) (w : World) : World :=
  with_promises w (update_nth p (fun _ => s) (promises w)).

(** The callbacks of the hook, run when its fetch settles:
    [.then(data => { if (isMounted) { cacheManager.set(url, data);
    setState(...) } })] and [.catch(error => { if (isMounted) {
    setState(...) } })]. *)
Definition hook_callbacks (c : nat) (isMounted : bool) (url : jsstring)
  (r : completion value) (w : World) : World :=
  match r with
  | Normal d =>
      if isMounted then
        setState c {| isLoading := false; data := d; error := None |}
          (with_cache w (cacheManager.set (cache w) url d))
      else w
  | Throw e =>
      if isMounted then
        setState c {| isLoading := false; data := VNull; error := Some e |} w
      else w
  end.

(** The rest of [preloadCachingFetch] after [await fetch(url)]. *)
Definition preload_rest (p : nat) (url : jsstring) (r : completion value)
  (w : World) : World :=
  match r with
  | Normal d =>
      settle_promise p Fulfilled (with_cache w (cacheManager.set (cache w) url d))
  | Throw e => settle_promise p (Rejected e) w
  end.

(** The fetch [id] settles with outcome [o]. *)
Definition settle (id : nat) (o : Outcome) (w : World) : World :=
  match nth_error (network w) id with
  | Some rq =>
      if settled rq then w
      else
        let w1 := with_network w (update_nth id mark_settled (network w)) in
        match continuation rq with
        | HookContinuation c isMounted =>
            hook_callbacks c isMounted (request_url rq) (fetch_json o) w1
        | PreloadContinuation p =>
            preload_rest p (request_url rq) (fetch_json o) w1
        end
  | None => w
  end.

(** A call of [preloadCachingFetch(url)], up to its first [await]: the
    promise it returns is the next one of [promises]. *)
Definition preloadCachingFetch (url : jsstring) (w : World) : World :=
  if cacheManager.has (cache w) url then
    with_promises w (promises w ++ [Fulfilled])
  else
    fetch url (PreloadContinuation (length (promises w)))
      (with_promises w (promises w ++ [Pending])).

Definition serializeCache (w : World) : jsstring :=
  cacheManager.serialize (cache w).

(** [initializeCache(serializedCache)]: what the call completes with, and
    the module after it. *)
Definition initializeCache (serializedCache : jsstring) (w : World)
  : completion unit * World :=
  match cacheManager.initialize (cache w) serializedCache with
  | Normal m => (Normal tt, with_cache w m)
  | Throw e => (Throw e, w)
  end.

Definition wipeCache (w : World) : World :=
  with_cache w (cacheManager.clear (cache w)).

(** What can happen to the module. *)
Inductive Event : Type :=
| Render (c : nat) (url : jsstring)
| RunEffect (c : nat)
| Unmount (c : nat)
| Settle (id : nat) (o : Outcome)
| Preload (url : jsstring)
| Initialize (serializedCache : jsstring)
| Wipe.

Definition step (w : World) (e : Event) : World :=
  match e with
  | Render c url => useCachingFetch c url w
  | RunEffect c => run_effect c w
  | Unmount c => unmount c w
  | Settle id o => settle id o w
  | Preload url => preloadCachingFetch url w
  | Initialize s => snd (initializeCache s w)
  | Wipe => wipeCache w
  end.

Definition run (w : World) (events : list Event) : World :=
  fold_left step events w.

(** The calls of [fetch(url)] made so far, and those not yet settled. *)
Definition requests_for (url : jsstring) (w : World) : list Request :=
  filter (fun rq => jsstring_eqb (request_url rq) url) (network w).

Definition pending_for (url : jsstring) (w : World) : list Request :=
  filter (fun rq => negb (settled rq)) (requests_for url w).

(** The object the hook of component [c] returned at its last render. *)
Definition last_returned (c : nat) (w : World) : option State :=
  match nth_error (hooks w) c with
  | Some h => Some (last (returned h) initial_state)
  | None => None
  end.

Definition hook_state (c : nat) (w : World) : option State :=
  option_map state (nth_error (hooks w) c).

(* ================================================================== *)
(** ** Notions the statements use *)
(* ================================================================== *)

(** The values [new Map] accepts: [undefined], [null], the empty string,
    and the arrays whose elements are all arrays or objects. *)
Definition entries_iterable (v : value) : bool :=
  match v with
  | VUndefined | VNull => true
  | VStr [] => true
  | VArr items =>
      forallb (fun item => match item with
                           | VArr _ | VObj _ => true
                           | _ => false
                           end) items
  | _ => false
  end.

(** An encoded pair-sequence, as [serialize] writes it: an array of
    two-element arrays. *)
Definition is_pair_sequence (v : value) : bool :=
  match v with
  | VArr items =>
      forallb (fun item => match item with
                           | VArr [_; _] => true
                           | _ => false
                           end) items
  | _ => false
  end.

Definition encodes_pairs (s : jsstring) : bool :=
  match JSON_parse s with
  | Some v => is_pair_sequence v
  | None => false
  end.

(** The elements of an array; the other values [new Map] accepts have
    none. *)
Definition elements (v : value) : list value :=
  match v with
  | VArr items => items
  | _ => []
  end.

(** [element[0]] and [element[1]] of an element that is an array or an
    object: the elements of an array at the indices 0 and 1, the
    properties of an object named 0 and 1, and [undefined] for what is
    missing. *)
Definition element_0_1 (element : value) : value * value :=
  match element with
  | VArr l => (nth 0 l VUndefined, nth 1 l VUndefined)
  | VObj props => (obj_get (js "0") props, obj_get (js "1") props)
  | _ => (VUndefined, VUndefined)
  end.

(** The cache as [JSON.parse] reads it back in what [JSON.stringify]
    wrote: every key and value read back, in the same order. *)
Definition transferred (m : Map) : Map :=
  map (fun e => (through_json (fst e), through_json (snd e))) m.

(** The map holding the pairs, each one set in turn. *)
Definition Map_of_pairs (pairs : list (value * value)) : Map :=
  fold_left (fun m p => Map_set m (fst p) (snd p)) pairs [].

(** What [fetch(url)], the check of the status and [response.json()] gave
    at some settlement of the trace: a value, or what was thrown. *)
Definition fetch_gave (events : list Event) (r : completion value) : Prop :=
  exists id o, In (Settle id o) events /\ fetch_json o = r.

(** The cache held the value [d] for some key at some moment of the
    trace. *)
Definition cache_held (events : list Event) (d : value) : Prop :=
  exists before after K,
    events = before ++ after
    /\ cacheManager.has (cache (run initial_world before)) K = true
    /\ cacheManager.get (cache (run initial_world before)) K = d.

(** A state that is not loading reports an outcome: either the error a
    fetch failed with, with [data] null, or a value that a fetch gave or
    the cache held, with [error] null. *)
Definition reports (events : list Event) (s : State) : Prop :=
  isLoading s = false ->
  (exists e, s = {| isLoading := false; data := VNull; error := Some e |}
             /\ fetch_gave events (Throw e))
  \/ (exists d, s = {| isLoading := false; data := d; error := None |}
                /\ (fetch_gave events (Normal d) \/ cache_held events d)).

Definition hook_reports (events : list Event) (h : Hook) : Prop :=
  reports events (state h) /\ Forall (reports events) (returned h).

(** The example of the specification: the resource [/people], whose body
    is [[{"id":1,"name":"Ann"}]]. *)
Definition people : jsstring := Eval cbv in js "/people".

Definition people_body : jsstring := Eval cbv in jsq "[{'id':1,'name':'Ann'}]".

Definition people_data : value :=
  VArr [VObj [(js "id", VNum (Finite false 1 0));
              (js "name", VStr (js "Ann"))]].

Definition people_response : Outcome :=
  Responds {| status := 200; body := people_body |}.

Definition people_cache : Map := [(VStr people, people_data)].

Definition people_world : World := with_cache initial_world people_cache.

(** Two components render with [K] and both effects run before any fetch
    settles. *)
Definition two_consumers (K : jsstring) : World :=
  run initial_world [Render 0 K; Render 1 K; RunEffect 0; RunEffect 1].

(** A component renders with [/people], its effect runs, the component
    is unmounted, and then the fetch succeeds. *)
Definition unmounted_before_settlement : World :=
  run initial_world
    [Render 0 people; RunEffect 0; Unmount 0; Settle 0 people_response].

(** A component fetches a resource whose body is the JSON text [null]. *)
Definition null_body_fetched : World :=
  run initial_world
    [Render 0 people; RunEffect 0;
     Settle 0 (Responds {| status := 200; body := lit_null |})].

(** The request the fetch of [url] for [k] adds to the network. *)
Definition new_request (url : jsstring) (k : Continuation) : Request :=
  {| request_url := url; continuation := k; settled := false |}.

(** A component has rendered with [/people] and its effect has run: the
    fetch is pending. *)
Definition fetching_people : World :=
  run initial_world [Render 0 people; RunEffect 0].

Definition fetching_hook : Hook :=
  {| hook_url := people; state := initial_state;
     returned := [initial_state; initial_state];
     effect_due := false; cleanup := Some 0%nat; mounted := true |}.

Definition not_found : Response := {| status := 404; body := [] |}.

Definition two_entries : Map :=
  [(VStr people, people_data); (VStr (js "/n"), VNull)].

(** A cache with numbers that are not integers: a height of 1.75, the
    number [10^21], which is written [1e+21], and [5e-324], the least
    positive double. *)
Definition measures_cache : Map :=
  [(VStr (js "/h"), VObj [(js "height", VNum (Finite false 7 (-2)))]);
   (VStr (js "/big"), VNum (Finite false 476837158203125 21));
   (VStr (js "/tiny"), VNum (Finite false 1 (-1074)))].

(** A cache holding a negative zero. *)
Definition negative_zero_cache : Map :=
  [(VStr (js "/z"), VNum (Finite true 0 0))].

(** A cache holding [undefined], a number that is not finite and a
    negative zero. *)
Definition odd_cache : Map :=
  [(VStr people, VUndefined);
   (VStr (js "/inf"), VNum (Infinity true));
   (VStr (js "/z"),
    VArr [VNum (Finite true 0 0); VNum (Finite false 3 (-1))])].

(* ================================================================== *)
(** ** Further notions *)
(* ================================================================== *)

(** The keys of the entries, in insertion order. *)
Definition Map_keys (m : Map) : list value := map fst m.

(** While it is loading, the hook returns neither data nor error. *)
Definition loading_carries_nothing (s : State) : Prop :=
  isLoading s = true -> data s = VNull /\ error s = None.

(** The fetches whose callbacks can still change the state of a
    component: those whose [isMounted] is true. *)
Definition is_live (c : nat) (rq : Request) : Prop :=
  continuation rq = HookContinuation c true.

(** Component [c] is mounted and its cleanup function is the one of the
    fetch [id]. *)
Definition owns (hs : list Hook) (c id : nat) : Prop :=
  exists h, nth_error hs c = Some h /\ mounted h = true /\ cleanup h = Some id.

(** Every fetch whose [isMounted] is true belongs to a mounted component,
    whose cleanup function is the one of that fetch. *)
Definition live_requests_owned (w : World) : Prop :=
  forall id rq c,
    nth_error (network w) id = Some rq -> is_live c rq -> owns (hooks w) c id.

(** What [JSON.stringify] writes for an element of an array is what it
    writes for the element, and [null] for [undefined]. *)
Definition null_for_undefined (v : value) : value :=
  if is_undefined v then VNull else v.

(** What [JSON.parse] reads in the text [JSON.stringify] writes for an
    element of an array: [null] for [undefined] and for the numbers that
    are not finite, [0] for a negative zero, and otherwise the element. *)
Definition element_through_json (v : value) : value :=
  through_json (null_for_undefined v).

Definition data_or_undefined (v : value) : bool :=
  is_undefined v || is_data v.

(** A cache whose keys and values are [undefined] or what [JSON.parse]
    can build: [undefined] is what [new Map] takes from an item that has
    no element [0] or [1]. *)
Definition data_or_undefined_cache (m : Map) : bool :=
  forallb (fun e => data_or_undefined (fst e) && data_or_undefined (snd e)) m.

(** Whether a negative zero occurs in a key or a value of the cache. *)
Definition holds_negative_zero (m : Map) : bool :=
  existsb (fun e => has_negative_zero (fst e) || has_negative_zero (snd e)) m.

(** The value of the last pair whose key is the string [K], and
    [undefined] when there is none. *)
Definition last_value_for (K : jsstring) (pairs : list (value * value)) : value :=
  fold_left (fun r p => if SameValueZero (fst p) (VStr K) then snd p else r)
            pairs VUndefined.



(** * Properties *)

(* ================================================================== *)
(** ** Strings and numbers *)
(* ================================================================== *)

Lemma jsstring_eqb_spec a b : reflect (a = b) (jsstring_eqb a b).
Proof.
  revert b; induction a as [|x a IH]; intros [|y b]; simpl;
    try (constructor; congruence).
  destruct (N.eqb_spec x y) as [->|Hxy]; simpl.
  - destruct (IH b) as [->|Hab]; constructor; congruence.
  - constructor; congruence.
Qed.

Lemma jsstring_eqb_refl a : jsstring_eqb a a = true.
Proof. destruct (jsstring_eqb_spec a a); congruence. Qed.

Lemma strip_prefix_app p r : strip_prefix p (p ++ r) = Some r.
Proof. induction p as [|x p IH]; simpl; [easy|]. now rewrite N.eqb_refl. Qed.

Lemma read_digits_of_uint d r :
  no_digit_head r -> read_digits (digits_of_uint d ++ r) = (d, r).
Proof.
  intros Hr; induction d; simpl; try (rewrite IHd; reflexivity).
  destruct r as [|c r]; simpl in *; [reflexivity|]. now rewrite Hr.
Qed.

Lemma uint_beq_refl d : Decimal.uint_beq d d = true.
Proof. induction d; simpl; auto. Qed.

Lemma to_uint_nonnil n : N.to_uint n <> Decimal.Nil.
Proof.
  destruct n as [|p]; simpl; [discriminate|].
  intros H. pose proof (DecimalPos.Unsigned.of_to p) as E.
  rewrite H in E. discriminate.
Qed.

Lemma parse_nat_to_string n r :
  no_digit_head r -> parse_nat (N_to_string n ++ r) = Some (n, r).
Proof.
  intros Hr. unfold parse_nat, N_to_string.
  rewrite (read_digits_of_uint _ _ Hr).
  pose proof (to_uint_nonnil n) as Hn.
  assert (E : Decimal.unorm (N.to_uint n) = N.to_uint n).
  { rewrite <- (DecimalN.Unsigned.to_of (N.to_uint n)).
    now rewrite DecimalN.Unsigned.of_to. }
  rewrite E, uint_beq_refl, DecimalN.Unsigned.of_to.
  destruct (N.to_uint n); congruence.
Qed.

(** The first character of a printed natural number is a digit. *)
Lemma N_to_string_head n :
  exists c t, N_to_string n = c :: t /\ is_digit c = true.
Proof.
  unfold N_to_string. pose proof (to_uint_nonnil n) as Hn.
  destruct (N.to_uint n); simpl; try congruence; eauto.
Qed.

Lemma hex_val_char d : d < 16 -> hex_val (hex_char d) = Some d.
Proof.
  intros H. unfold hex_char, hex_val.
  destruct (N.ltb_spec d 10).
  - replace ((48 <=? 48 + d) && (48 + d <=? 57)) with true.
    + f_equal; lia.
    + symmetry; apply andb_true_iff; split; apply N.leb_le; lia.
  - replace ((48 <=? 87 + d) && (87 + d <=? 57)) with false.
    + replace ((97 <=? 87 + d) && (87 + d <=? 102)) with true.
      * f_equal; lia.
      * symmetry; apply andb_true_iff; split; apply N.leb_le; lia.
    + symmetry; apply andb_false_iff; right; apply N.leb_gt; lia.
Qed.

Lemma hex4_escape c :
  c < 65536 ->
  hex4 (hex_char (c / 4096 mod 16)) (hex_char (c / 256 mod 16))
       (hex_char (c / 16 mod 16)) (hex_char (c mod 16)) = Some c.
Proof.
  intros H. unfold hex4.
  rewrite !hex_val_char by (apply N.mod_lt; discriminate).
  f_equal.
  pose proof (N.div_mod c 16 ltac:(discriminate)).
  pose proof (N.div_mod (c / 16) 16 ltac:(discriminate)).
  pose proof (N.div_mod (c / 256) 16 ltac:(discriminate)).
  assert (c / 256 = c / 16 / 16) by (rewrite N.Div0.div_div; reflexivity).
  assert (c / 4096 = c / 256 / 16) by (rewrite N.Div0.div_div; reflexivity).
  assert (c / 4096 < 16) by (apply N.Div0.div_lt_upper_bound; lia).
  rewrite (N.mod_small (c / 4096) 16) by assumption.
  lia.
Qed.

Lemma parse_chars_escape c t :
  c < 65536 ->
  parse_chars (unicode_escape c ++ t) = cons_chars c (parse_chars t).
Proof.
  intros H. unfold unicode_escape. cbn [app parse_chars].
  change (92 =? 34) with false. change (92 =? 92) with true.
  change (117 =? 117) with true. cbv iota.
  now rewrite hex4_escape.
Qed.

Lemma parse_chars_plain c t :
  (c =? 34) = false -> (c =? 92) = false -> (c <? 32) = false ->
  parse_chars (c :: t) = cons_chars c (parse_chars t).
Proof. intros H1 H2 H3. cbn [parse_chars]. now rewrite H1, H2, H3. Qed.

Lemma parse_chars_quote_aux n :
  forall (s r : jsstring), (length s <= n)%nat ->
  parse_chars (quote_chars s ++ 34 :: r) = Some (s, r).
Proof.
  induction n as [|n IH]; intros [|c t] r Hn; simpl in Hn; try lia;
    try reflexivity.
  assert (IHt : parse_chars (quote_chars t ++ 34 :: r) = Some (t, r))
    by (apply IH; lia).
  cbn [quote_chars].
  destruct (N.eqb_spec c 8) as [->|N8]; [cbn; now rewrite IHt|].
  destruct (N.eqb_spec c 9) as [->|N9]; [cbn; now rewrite IHt|].
  destruct (N.eqb_spec c 10) as [->|N10]; [cbn; now rewrite IHt|].
  destruct (N.eqb_spec c 12) as [->|N12]; [cbn; now rewrite IHt|].
  destruct (N.eqb_spec c 13) as [->|N13]; [cbn; now rewrite IHt|].
  destruct (N.eqb_spec c 34) as [->|N34]; [cbn; now rewrite IHt|].
  destruct (N.eqb_spec c 92) as [->|N92]; [cbn; now rewrite IHt|].
  destruct (N.ltb_spec c 32) as [L32|G32].
  { rewrite <- app_assoc, parse_chars_escape, IHt by lia. reflexivity. }
  assert (Hplain : forall u, parse_chars (c :: u) = cons_chars c (parse_chars u)).
  { intros u. apply parse_chars_plain.
    - now apply N.eqb_neq. - now apply N.eqb_neq. - apply N.ltb_ge; lia. }
  destruct (is_high_surrogate c) eqn:Hh.
  { assert (c < 65536).
    { unfold is_high_surrogate in Hh. apply andb_true_iff in Hh.
      destruct Hh as [_ Hh]. apply N.leb_le in Hh. lia. }
    destruct t as [|d t'].
    - rewrite parse_chars_escape by assumption. reflexivity.
    - destruct (is_low_surrogate d) eqn:Hl.
      + rewrite <- !app_comm_cons, Hplain.
        assert (Hd : parse_chars (d :: quote_chars t' ++ 34 :: r)
                     = cons_chars d (parse_chars (quote_chars t' ++ 34 :: r))).
        { unfold is_low_surrogate in Hl. apply andb_true_iff in Hl.
          destruct Hl as [Hl _]. apply N.leb_le in Hl.
          apply parse_chars_plain.
          - apply N.eqb_neq; lia. - apply N.eqb_neq; lia. - apply N.ltb_ge; lia. }
        rewrite Hd, IH by (simpl in Hn; lia). reflexivity.
      + rewrite <- app_assoc, parse_chars_escape, IHt by assumption.
        reflexivity. }
  destruct (is_low_surrogate c) eqn:Hl.
  { assert (c < 65536).
    { unfold is_low_surrogate in Hl. apply andb_true_iff in Hl.
      destruct Hl as [_ Hl]. apply N.leb_le in Hl. lia. }
    rewrite <- app_assoc, parse_chars_escape, IHt by assumption. reflexivity. }
  rewrite <- app_comm_cons, Hplain, IHt. reflexivity.
Qed.

Lemma parse_chars_quote (s r : jsstring) :
  parse_chars (quote_chars s ++ 34 :: r) = Some (s, r).
Proof. apply parse_chars_quote_aux with (n := length s). lia. Qed.

(* ================================================================== *)
(** ** Numbers *)
(* ================================================================== *)

Lemma number_eqb_eq x y : number_eqb x y = true -> x = y.
Proof.
  destruct x as [|s|s m e], y as [|s'|s' m' e']; simpl; try discriminate.
  - reflexivity.
  - intros H. apply Bool.eqb_prop in H. now subst.
  - intros H. apply andb_true_iff in H. destruct H as [H He].
    apply andb_true_iff in H. destruct H as [Hs Hm].
    apply Bool.eqb_prop in Hs. apply Z.eqb_eq in Hm, He. now subst.
Qed.

(* ------------------------------------------------------------------ *)
(** *** A literal is read the same whatever follows it *)

Lemma number_end_no_digit r : number_end r = true -> no_digit_head r.
Proof.
  destruct r as [|c r]; simpl; [easy|]. intros H.
  apply negb_true_iff in H. now repeat (apply orb_false_iff in H; destruct H as [H _]).
Qed.

Lemma number_end_head c r k :
  number_end (c :: r) = true ->
  k = 46 \/ k = 101 \/ k = 69 \/ k = 43 \/ k = 45 -> (c =? k) = false.
Proof.
  simpl. intros H Hk. apply negb_true_iff in H.
  repeat (apply orb_false_iff in H; destruct H as [H ?]).
  destruct Hk as [-> | [-> | [-> | [-> | ->]]]]; assumption.
Qed.

Lemma read_digits_no_digit (r : jsstring) :
  no_digit_head r -> read_digits r = (Decimal.Nil, r).
Proof. destruct r as [|c r]; simpl; [reflexivity|]. now intros ->. Qed.

Lemma read_digits_app (t rest : jsstring) :
  no_digit_head rest ->
  forall d r, read_digits t = (d, r) -> read_digits (t ++ rest) = (d, r ++ rest).
Proof.
  intros Hr. induction t as [|c t IH]; intros d r.
  - simpl. intros [= <- <-]. now apply read_digits_no_digit.
  - simpl. destruct (is_digit c).
    + destruct (read_digits t) as [d' r'] eqn:E. intros [= <- <-].
      now rewrite (IH d' r' eq_refl).
    + now intros [= <- <-].
Qed.

Lemma parse_nat_app (t rest : jsstring) i r :
  no_digit_head rest ->
  parse_nat t = Some (i, r) -> parse_nat (t ++ rest) = Some (i, r ++ rest).
Proof.
  intros Hr. unfold parse_nat.
  destruct (read_digits t) as [d r'] eqn:E.
  rewrite (read_digits_app t rest Hr d r' E).
  destruct d; try discriminate;
    (destruct (Decimal.uint_beq _ _); [|discriminate]); now intros [= <- <-].
Qed.

Lemma parse_frac_app (t rest : jsstring) d r :
  number_end rest = true ->
  parse_frac t = (d, r) -> parse_frac (t ++ rest) = (d, r ++ rest).
Proof.
  intros Hr. pose proof (number_end_no_digit rest Hr) as Hd.
  destruct t as [|c t].
  - simpl. intros [= <- <-]. destruct rest as [|c rest]; [reflexivity|].
    simpl. now rewrite (number_end_head c rest 46 Hr) by auto.
  - cbn [parse_frac app]. destruct (c =? 46); [|now intros [= <- <-]].
    destruct (read_digits t) as [d' r'] eqn:E.
    rewrite (read_digits_app t rest Hd d' r' E).
    destruct d'; now intros [= <- <-].
Qed.

Lemma parse_exp_app (t rest : jsstring) x r :
  number_end rest = true ->
  parse_exp t = (x, r) -> parse_exp (t ++ rest) = (x, r ++ rest).
Proof.
  intros Hr. pose proof (number_end_no_digit rest Hr) as Hd.
  destruct t as [|c t].
  - simpl. intros [= <- <-]. destruct rest as [|c rest]; [reflexivity|].
    simpl. rewrite (number_end_head c rest 101 Hr) by auto.
    now rewrite (number_end_head c rest 69 Hr) by auto.
  - cbn [parse_exp app]. destruct ((c =? 101) || (c =? 69)); [|now intros [= <- <-]].
    destruct t as [|sg t1].
    + simpl. intros [= <- <-]. destruct rest as [|c' rest]; [reflexivity|].
      rewrite (number_end_head c' rest 45 Hr) by auto 6.
      rewrite (number_end_head c' rest 43 Hr) by auto 6.
      now rewrite (read_digits_no_digit (c' :: rest) Hd).
    + cbn [app].
      assert (Hgo : forall (minus : bool) (t' : jsstring),
                 match read_digits t' with
                 | (Decimal.Nil, _) => (0%Z, c :: sg :: t1)
                 | (d, r') =>
                     ((if minus then Z.opp (Z.of_N (N.of_uint d))
                       else Z.of_N (N.of_uint d)), r')
                 end = (x, r) ->
                 match read_digits (t' ++ rest) with
                 | (Decimal.Nil, _) => (0%Z, c :: sg :: t1 ++ rest)
                 | (d, r') =>
                     ((if minus then Z.opp (Z.of_N (N.of_uint d))
                       else Z.of_N (N.of_uint d)), r')
                 end = (x, r ++ rest)).
      { intros minus t'. destruct (read_digits t') as [d' r'] eqn:E.
        rewrite (read_digits_app t' rest Hd d' r' E).
        destruct d'; now intros [= <- <-]. }
      destruct (sg =? 45); [exact (Hgo true t1)|].
      destruct (sg =? 43); [exact (Hgo false t1)|].
      exact (Hgo false (sg :: t1)).
Qed.

Lemma parse_unsigned_app (t rest : jsstring) s q r :
  number_end rest = true ->
  parse_unsigned t = Some (s, q, r) ->
  parse_unsigned (t ++ rest) = Some (s, q, r ++ rest).
Proof.
  intros Hr. unfold parse_unsigned.
  destruct (parse_nat t) as [[i r1]|] eqn:E1; [|discriminate].
  rewrite (parse_nat_app t rest i r1 (number_end_no_digit rest Hr) E1).
  destruct (parse_frac r1) as [df r2] eqn:E2.
  rewrite (parse_frac_app r1 rest df r2 Hr E2).
  destruct (parse_exp r2) as [ex r3] eqn:E3.
  rewrite (parse_exp_app r2 rest ex r3 Hr E3).
  now intros [= <- <- <-].
Qed.

Lemma parse_number_app (t rest : jsstring) x r :
  number_end rest = true ->
  parse_number t = Some (x, r) -> parse_number (t ++ rest) = Some (x, r ++ rest).
Proof.
  intros Hr. destruct t as [|c t]; [discriminate|].
  cbn [parse_number app]. destruct (c =? 45).
  - destruct (parse_unsigned t) as [[[s q] r']|] eqn:E; [|discriminate].
    rewrite (parse_unsigned_app t rest s q r' Hr E). now intros [= <- <-].
  - destruct (parse_unsigned (c :: t)) as [[[s q] r']|] eqn:E; [|discriminate].
    rewrite app_comm_cons, (parse_unsigned_app (c :: t) rest s q r' Hr E).
    now intros [= <- <-].
Qed.

(** A literal starts with a digit. *)
Lemma parse_nat_head (t : jsstring) i r :
  parse_nat t = Some (i, r) -> exists c t', t = c :: t' /\ is_digit c = true.
Proof.
  unfold parse_nat. destruct t as [|c t']; [discriminate|].
  simpl. destruct (is_digit c) eqn:Hc; [eauto|discriminate].
Qed.

Lemma parse_unsigned_head (t : jsstring) s q r :
  parse_unsigned t = Some (s, q, r) ->
  exists c t', t = c :: t' /\ is_digit c = true.
Proof.
  unfold parse_unsigned.
  destruct (parse_nat t) as [[i r1]|] eqn:E; [|discriminate].
  intros _. now apply parse_nat_head in E.
Qed.

(* ------------------------------------------------------------------ *)
(** *** Rounding *)

Local Open Scope Z_scope.

Lemma pos_odd_part_spec p :
  Zpos p = Zpos (pos_odd_part p) * 2 ^ pos_twos p
  /\ 0 <= pos_twos p /\ Z.odd (Zpos (pos_odd_part p)) = true.
Proof.
  induction p as [p _|p IH|].
  - cbn [pos_odd_part pos_twos]. rewrite Z.pow_0_r, Z.mul_1_r. now split.
  - cbn [pos_odd_part pos_twos]. destruct IH as (E & Ht & Ho).
    split; [|split; [lia|exact Ho]].
    rewrite Z.pow_add_r, Z.pow_1_r by lia.
    change (Zpos p~0) with (2 * Zpos p). rewrite E at 1. ring.
  - cbn [pos_odd_part pos_twos]. now split.
Qed.

Lemma odd_times_power_spec M E :
  0 < M ->
  exists m e, odd_times_power M E = (m, e)
              /\ M = m * 2 ^ (e - E) /\ E <= e /\ 0 < m /\ Z.odd m = true.
Proof.
  intros HM. destruct M as [|p|p]; try lia.
  destruct (pos_odd_part_spec p) as (Ep & Ht & Ho).
  exists (Zpos (pos_odd_part p)), (E + pos_twos p). cbn [odd_times_power].
  split; [reflexivity|]. replace (E + pos_twos p - E) with (pos_twos p) by ring.
  repeat split; [exact Ep|lia|exact Ho].
Qed.

Lemma odd_times_power_odd m E :
  0 < m -> Z.odd m = true ->
  forall t, 0 <= t -> odd_times_power (m * 2 ^ t) E = (m, E + t).
Proof.
  intros Hm Ho t Ht. pattern t. apply natlike_ind; [| |exact Ht].
  - rewrite Z.pow_0_r, Z.mul_1_r, Z.add_0_r.
    destruct m as [|[p|p|]|p]; try lia; try discriminate;
      cbn [odd_times_power pos_odd_part pos_twos]; now rewrite Z.add_0_r.
  - intros u Hu IH. rewrite Z.pow_succ_r by exact Hu.
    assert (Hpos : 0 < m * 2 ^ u) by (apply Z.mul_pos_pos; [lia|apply Z.pow_pos_nonneg; lia]).
    replace (m * (2 * 2 ^ u)) with (2 * (m * 2 ^ u)) by ring.
    destruct (m * 2 ^ u) as [|q|q]; try lia.
    change (2 * Zpos q) with (Zpos q~0). cbn [odd_times_power pos_odd_part pos_twos].
    cbn [odd_times_power] in IH. injection IH as IH1 IH2.
    rewrite IH1. f_equal. lia.
Qed.

Lemma round_half_even_exact B q :
  0 < B -> round_half_even (B * q) B = q.
Proof.
  intros HB. unfold round_half_even.
  rewrite (Z.mul_comm B q), Z.mod_mul, Z.div_mul by lia.
  rewrite Z.mul_0_r. now destruct B.
Qed.

Lemma round_half_even_bounds A B N :
  0 < B -> 0 <= A -> A < B * N ->
  0 <= round_half_even A B <= N.
Proof.
  intros HB HA HN. unfold round_half_even.
  assert (Hq : 0 <= A / B) by (apply Z.div_pos; lia).
  assert (Hq' : A / B < N) by (apply Z.div_lt_upper_bound; lia).
  destruct (2 * (A mod B) ?= B); [destruct (Z.even (A / B))| |]; lia.
Qed.

Lemma binade_ge a b : -1074 <= binade a b.
Proof. unfold binade. destruct (_ <=? _); lia. Qed.

(** [a / b] is below [2^(E+53)]. *)
Lemma binade_upper a b :
  0 < a -> 0 < b -> a * 2 ^ 1074 < b * 2 ^ (binade a b + 1127).
Proof.
  intros Ha Hb. unfold binade.
  set (E0 := Z.max (-1074) (Z.log2 a - Z.log2 b - 52)).
  assert (HE0 : -1074 <= E0) by (unfold E0; lia).
  destruct (Z.leb_spec (b * 2 ^ (E0 + 1126)) (a * 2 ^ 1074)) as [Hc|Hc].
  - destruct (Z.log2_spec a Ha) as [_ Hla].
    destruct (Z.log2_spec b Hb) as [Hlb _].
    pose proof (Z.log2_nonneg a) as Hna. pose proof (Z.log2_nonneg b) as Hnb.
    apply Z.lt_le_trans with (2 ^ Z.succ (Z.log2 a) * 2 ^ 1074).
    + apply Z.mul_lt_mono_pos_r; [apply Z.pow_pos_nonneg; lia|exact Hla].
    + apply Z.le_trans with (2 ^ Z.log2 b * 2 ^ (E0 + 1127)).
      * rewrite <- (Z.pow_add_r 2 (Z.succ (Z.log2 a)) 1074) by lia.
        rewrite <- (Z.pow_add_r 2 (Z.log2 b) (E0 + 1127)) by lia.
        apply Z.pow_le_mono_r; [lia|].
        unfold E0. lia.
      * apply Z.mul_le_mono_nonneg_r; [apply Z.pow_nonneg; lia|exact Hlb].
  - destruct (Z.max_spec (-1074) (E0 - 1)) as [[_ ->]|[Hle ->]].
    + now replace (E0 - 1 + 1127) with (E0 + 1126) by ring.
    + destruct (Z.eq_dec E0 (-1074)) as [HE|HE].
      * rewrite HE in Hc. apply Z.lt_trans with (1 := Hc).
        apply Z.mul_lt_mono_pos_l; [exact Hb|]. now apply Z.pow_lt_mono_r.
      * now replace (-1074 + 1127) with (E0 + 1126) by lia.
Qed.

(** [binade] is not above the exponent of a double that [a / b] is. *)
Lemma binade_exact a b m e :
  0 < a -> 0 < b -> 0 < m -> m < 2 ^ 53 -> -1074 <= e ->
  a * 2 ^ 1074 = b * (m * 2 ^ (e + 1074)) ->
  binade a b <= e.
Proof.
  intros Ha Hb Hm Hm53 He Hab. unfold binade.
  set (E0 := Z.max (-1074) (Z.log2 a - Z.log2 b - 52)).
  assert (HE0 : -1074 <= E0) by (unfold E0; lia).
  assert (Hp : 0 < 2 ^ (e + 1074)) by (apply Z.pow_pos_nonneg; lia).
  assert (Hlt : m * 2 ^ (e + 1074) < 2 ^ (e + 1127)).
  { replace (e + 1127) with (53 + (e + 1074)) by ring.
    rewrite (Z.pow_add_r 2 53 (e + 1074)) by lia.
    now apply Z.mul_lt_mono_pos_r. }
  destruct (Z.leb_spec (b * 2 ^ (E0 + 1126)) (a * 2 ^ 1074)) as [Hc|Hc].
  - rewrite Hab in Hc. apply Z.mul_le_mono_pos_l in Hc; [|exact Hb].
    assert (H : 2 ^ (E0 + 1126) < 2 ^ (e + 1127)) by lia.
    apply Z.pow_lt_mono_r_iff in H; lia.
  - apply Z.max_lub; [exact He|].
    destruct (Z.max_spec (-1074) (Z.log2 a - Z.log2 b - 52)) as [[_ HE]|[_ HE]];
      fold E0 in HE; [|lia].
    destruct (Z.log2_spec a Ha) as [Hla _].
    destruct (Z.log2_spec b Hb) as [_ Hlb].
    pose proof (Z.log2_nonneg a) as Hna. pose proof (Z.log2_nonneg b) as Hnb.
    assert (H : 2 ^ (Z.log2 a + 1074) < 2 ^ (Z.succ (Z.log2 b) + (e + 1127))).
    { rewrite (Z.pow_add_r 2 (Z.log2 a) 1074) by lia.
      rewrite (Z.pow_add_r 2 (Z.succ (Z.log2 b)) (e + 1127)) by lia.
      apply Z.le_lt_trans with (a * 2 ^ 1074).
      - apply Z.mul_le_mono_nonneg_r; [apply Z.pow_nonneg; lia|exact Hla].
      - rewrite Hab. apply Z.mul_lt_mono_nonneg; lia. }
    apply Z.pow_lt_mono_r_iff in H; lia.
Qed.

Lemma is_double_finite s m e :
  is_double (Finite s m e) = true -> 0 < m ->
  Z.odd m = true /\ m < 2 ^ 53 /\ -1074 <= e /\ Z.log2 m + 1 + e <= 1024.
Proof.
  intros H Hm. cbn [is_double] in H.
  destruct (Z.eqb_spec m 0) as [->|_]; [lia|].
  repeat (apply andb_true_iff in H; destruct H as [H ?]).
  repeat split; try (apply Z.leb_le; assumption); try assumption.
  apply Z.log2_lt_pow2; [exact Hm|]. apply Z.leb_le in H2. lia.
Qed.

(** A rational that is a double is its own rounding. *)
Lemma round_fraction_exact negative a b s m e :
  is_double (Finite s m e) = true -> 0 < m -> 0 < a -> 0 < b ->
  a * 2 ^ 1074 = b * (m * 2 ^ (e + 1074)) ->
  round_fraction negative a b = Finite negative m e.
Proof.
  intros Hd Hm Ha Hb Hab.
  destruct (is_double_finite s m e Hd Hm) as (Ho & Hm53 & He & Hl).
  pose proof (binade_exact a b m e Ha Hb Hm Hm53 He Hab) as HE.
  pose proof (binade_ge a b) as HE'.
  unfold round_fraction. set (E := binade a b) in *.
  assert (HM : round_half_even (a * 2 ^ 1074) (b * 2 ^ (E + 1074))
               = m * 2 ^ (e - E)).
  { rewrite Hab. replace (e + 1074) with ((E + 1074) + (e - E)) by ring.
    rewrite (Z.pow_add_r 2 (E + 1074) (e - E)) by lia.
    replace (b * (m * (2 ^ (E + 1074) * 2 ^ (e - E))))
      with (b * 2 ^ (E + 1074) * (m * 2 ^ (e - E))) by ring.
    apply round_half_even_exact.
    apply Z.mul_pos_pos; [exact Hb|apply Z.pow_pos_nonneg; lia]. }
  rewrite HM, Z.log2_mul_pow2 by lia.
  destruct (Z.ltb_spec 1024 (e - E + Z.log2 m + 1 + E)) as [H|_]; [lia|].
  rewrite (odd_times_power_odd m E Hm Ho (e - E)) by lia.
  f_equal. ring.
Qed.

(** Every rounding is a double. *)
Lemma round_fraction_double negative a b :
  0 < a -> 0 < b ->
  is_double (round_fraction negative a b) = true
  /\ round_fraction negative a b <> NaN.
Proof.
  intros Ha Hb. split; [|unfold round_fraction;
    destruct (_ <? _); [discriminate|]; now destruct (odd_times_power _ _)].
  pose proof (binade_upper a b Ha Hb) as Hu. pose proof (binade_ge a b) as HE.
  unfold round_fraction. set (E := binade a b) in *.
  set (M := round_half_even (a * 2 ^ 1074) (b * 2 ^ (E + 1074))).
  assert (HM : 0 <= M <= 2 ^ 53).
  { apply round_half_even_bounds.
    - apply Z.mul_pos_pos; [exact Hb|apply Z.pow_pos_nonneg; lia].
    - apply Z.mul_nonneg_nonneg; [lia|apply Z.pow_nonneg; lia].
    - replace (E + 1127) with ((E + 1074) + 53) in Hu by ring.
      rewrite (Z.pow_add_r 2 (E + 1074) 53) in Hu by lia.
      now rewrite <- Z.mul_assoc. }
  destruct (Z.ltb_spec 1024 (Z.log2 M + 1 + E)) as [_|Hov]; [reflexivity|].
  destruct (Z.eq_dec M 0) as [->|HM0]; [reflexivity|].
  destruct (odd_times_power_spec M E) as (m & e & -> & EM & Hee & Hm & Ho);
    [lia|].
  cbn [is_double]. destruct (Z.eqb_spec m 0) as [->|_]; [lia|].
  assert (Hp : 0 < 2 ^ (e - E)) by (apply Z.pow_pos_nonneg; lia).
  assert (Hle : m <= M) by (rewrite EM; nia).
  assert (Hne : m <> 2 ^ 53) by (intros ->; discriminate Ho).
  assert (Hl : Z.log2 m < 53) by (apply Z.log2_lt_pow2; lia).
  rewrite EM, Z.log2_mul_pow2 in Hov by lia.
  rewrite Ho. repeat (apply andb_true_iff; split); try reflexivity;
    try apply Z.ltb_lt; try apply Z.leb_le; lia.
Qed.

Lemma number_of_decimal_double negative s q :
  is_double (number_of_decimal negative s q) = true
  /\ number_of_decimal negative s q <> NaN.
Proof.
  unfold number_of_decimal. destruct (Z.leb_spec s 0) as [_|Hs].
  - now split.
  - destruct (Z.leb_spec 0 q).
    + apply round_fraction_double; [|lia].
      apply Z.mul_pos_pos; [exact Hs|]. apply Z.pow_pos_nonneg; lia.
    + apply round_fraction_double; [exact Hs|]. apply Z.pow_pos_nonneg; lia.
Qed.

Local Close Scope Z_scope.

(* ------------------------------------------------------------------ *)
(** *** Number::toString is read back *)

Lemma reads_as_spec t m e :
  reads_as t m e = true ->
  exists s q, parse_unsigned t = Some (s, q, [])
              /\ number_of_decimal false s q = Finite false m e.
Proof.
  unfold reads_as. destruct (parse_unsigned t) as [[[s q] [|c r]]|];
    try discriminate.
  intros H. exists s, q. split; [reflexivity|now apply number_eqb_eq].
Qed.

Lemma first_reading_reads m e cs t :
  first_reading m e cs = Some t -> reads_as t m e = true.
Proof.
  induction cs as [|[s q] cs IH]; [discriminate|]. cbn [first_reading].
  destruct ((0 <? s)%Z && reads_as (decimal_text s q) m e) eqn:E.
  - intros [= <-]. now apply andb_true_iff in E.
  - exact IH.
Qed.

Lemma shortest_text_reads f m e a b n t :
  forall k, shortest_text f k m e a b n = Some t -> reads_as t m e = true.
Proof.
  induction f as [|f IH]; intros k; [discriminate|]. cbn [shortest_text].
  destruct (first_reading m e (candidates a b n k)) as [t'|] eqn:E.
  - intros [= <-]. now apply first_reading_reads in E.
  - apply IH.
Qed.

Lemma parse_unsigned_nat (n : N) :
  parse_unsigned (N_to_string n) = Some (Z.of_N n, 0%Z, []).
Proof.
  unfold parse_unsigned.
  rewrite <- (List.app_nil_r (N_to_string n)), parse_nat_to_string by exact I.
  cbn [parse_frac parse_exp digit_count Decimal.nb_digits Z.of_nat N.of_uint
       Z.of_N].
  now rewrite Z.pow_0_r, Z.mul_1_r, Z.add_0_r.
Qed.

Lemma parse_unsigned_exponent (n k : N) :
  parse_unsigned (N_to_string n ++ 101 :: 45 :: N_to_string k)
  = Some (Z.of_N n, (- Z.of_N k)%Z, []).
Proof.
  unfold parse_unsigned. rewrite parse_nat_to_string by reflexivity.
  cbn [parse_frac N.eqb Pos.eqb]. cbn [parse_exp].
  change ((101 =? 101) || (101 =? 69)) with true.
  change (45 =? 45) with true. cbv iota beta.
  unfold N_to_string.
  rewrite <- (List.app_nil_r (digits_of_uint (N.to_uint k))).
  rewrite read_digits_of_uint by exact I.
  pose proof (to_uint_nonnil k) as Hk.
  rewrite DecimalN.Unsigned.of_to.
  destruct (N.to_uint k); try congruence;
    cbn [digit_count Decimal.nb_digits Z.of_nat N.of_uint Pos.of_uint Z.of_N];
    now rewrite Z.pow_0_r, Z.mul_1_r, Z.add_0_r, Z.sub_0_r.
Qed.

Lemma exact_text_reads m e :
  is_double (Finite false m e) = true -> (0 < m)%Z ->
  exists s q, parse_unsigned (exact_text m e) = Some (s, q, [])
              /\ number_of_decimal false s q = Finite false m e.
Proof.
  intros Hd Hm. unfold exact_text.
  destruct (is_double_finite false m e Hd Hm) as (_ & _ & He & _).
  destruct (Z.leb_spec 0 e) as [Hge|Hlt].
  - assert (Hp : (0 < m * 2 ^ e)%Z)
      by (apply Z.mul_pos_pos; [exact Hm|apply Z.pow_pos_nonneg; lia]).
    exists (m * 2 ^ e)%Z, 0%Z. rewrite parse_unsigned_nat, Z2N.id by lia.
    split; [reflexivity|]. unfold number_of_decimal.
    destruct (Z.leb_spec (m * 2 ^ e) 0) as [H|_]; [lia|].
    cbn [Z.leb Z.compare].
    apply (round_fraction_exact false _ 1%Z false m e Hd Hm); [lia|lia|].
    rewrite (Z.pow_add_r 2 e 1074) by lia. change (10 ^ 0)%Z with 1%Z. ring.
  - assert (Hp : (0 < m * 5 ^ (- e))%Z)
      by (apply Z.mul_pos_pos; [exact Hm|apply Z.pow_pos_nonneg; lia]).
    exists (m * 5 ^ (- e))%Z, e. rewrite parse_unsigned_exponent.
    rewrite !Z2N.id by lia. rewrite Z.opp_involutive. split; [reflexivity|].
    unfold number_of_decimal.
    destruct (Z.leb_spec (m * 5 ^ (- e)) 0) as [H|_]; [lia|].
    destruct (Z.leb_spec 0 e) as [H|_]; [lia|].
    apply (round_fraction_exact false _ _ false m e Hd Hm);
      [exact Hp|apply Z.pow_pos_nonneg; lia|].
    change 10%Z with (5 * 2)%Z. rewrite Z.pow_mul_l.
    replace 1074%Z with (- e + (e + 1074))%Z at 1 by ring.
    rewrite (Z.pow_add_r 2 (- e) (e + 1074)) by lia. ring.
Qed.

Lemma magnitude_reads m e :
  is_double (Finite false m e) = true -> (0 < m)%Z ->
  exists s q, parse_unsigned (magnitude_to_string m e) = Some (s, q, [])
              /\ number_of_decimal false s q = Finite false m e.
Proof.
  intros Hd Hm. unfold magnitude_to_string.
  destruct (shortest_text 17 1 m e _ _ _) as [t|] eqn:E.
  - apply reads_as_spec. now apply shortest_text_reads in E.
  - now apply exact_text_reads.
Qed.

Lemma round_fraction_sign a b m e :
  round_fraction false a b = Finite false m e ->
  round_fraction true a b = Finite true m e.
Proof.
  unfold round_fraction. destruct (_ <? _)%Z; [discriminate|].
  destruct (odd_times_power _ _). now intros [= <- <-].
Qed.

Lemma number_of_decimal_sign s q m e :
  (0 < m)%Z ->
  number_of_decimal false s q = Finite false m e ->
  number_of_decimal true s q = Finite true m e.
Proof.
  intros Hm. unfold number_of_decimal. destruct (s <=? 0)%Z.
  - intros [= <- <-]. lia.
  - destruct (0 <=? q)%Z; apply round_fraction_sign.
Qed.

(** Reading what [Number::toString] wrote of a finite number gives the
    number, without the sign of a zero. *)
Lemma parse_number_to_string x r :
  is_double x = true -> is_finite x = true -> number_end r = true ->
  parse_number (number_to_string x ++ r) = Some (positive_zero x, r).
Proof.
  intros Hd Hf Hr. destruct x as [|sg|sg m e]; try discriminate Hf.
  assert (Hcases : (m = 0 /\ e = 0 \/ 0 < m)%Z).
  { cbn [is_double] in Hd. destruct (Z.eqb_spec m 0) as [->|Hm].
    - left. apply Z.eqb_eq in Hd. now split.
    - right. repeat (apply andb_true_iff in Hd; destruct Hd as [Hd _]).
      now apply Z.ltb_lt in Hd. }
  destruct Hcases as [[-> ->]|Hm].
  - replace (positive_zero (Finite sg 0 0)) with (Finite false 0 0)
      by (now destruct sg).
    apply (parse_number_app [48] r _ [] Hr). reflexivity.
  - assert (Hpz : positive_zero (Finite sg m e) = Finite sg m e).
    { unfold positive_zero, is_negative_zero. destruct sg, m; try reflexivity; lia. }
    rewrite Hpz. cbn [number_to_string].
    destruct (Z.leb_spec m 0) as [H|_]; [lia|].
    assert (Hd' : is_double (Finite false m e) = true) by exact Hd.
    destruct (magnitude_reads m e Hd' Hm) as (s & q & Hp & Hn).
    destruct (parse_unsigned_head _ _ _ _ Hp) as (c & t & Et & Hc).
    destruct sg.
    + apply (parse_number_app (45 :: magnitude_to_string m e) r _ [] Hr).
      cbn [parse_number]. change (45 =? 45) with true. cbv iota.
      rewrite Hp. now rewrite (number_of_decimal_sign s q m e Hm Hn).
    + apply (parse_number_app (magnitude_to_string m e) r _ [] Hr).
      rewrite Et in *. cbn [parse_number].
      destruct (N.eqb_spec c 45) as [->|_]; [discriminate Hc|].
      now rewrite Hp, Hn.
Qed.

(** A printed finite number starts with a minus or a digit. *)
Lemma number_to_string_head x :
  is_double x = true -> is_finite x = true ->
  exists c t, number_to_string x = c :: t /\ (c = 45 \/ is_digit c = true).
Proof.
  intros Hd Hf.
  pose proof (parse_number_to_string x [] Hd Hf eq_refl) as H.
  rewrite List.app_nil_r in H.
  destruct (number_to_string x) as [|c t]; [discriminate|].
  exists c, t. split; [reflexivity|]. cbn [parse_number] in H.
  destruct (N.eqb_spec c 45) as [->|_]; [now left|right].
  destruct (parse_unsigned (c :: t)) as [[[s q] r]|] eqn:E; [|discriminate].
  destruct (parse_unsigned_head _ _ _ _ E) as (c' & t' & [= <- <-] & Hc).
  exact Hc.
Qed.

(** What is read as a number is a double. *)
Lemma parse_number_double (s : jsstring) x r :
  parse_number s = Some (x, r) -> is_double x = true /\ x <> NaN.
Proof.
  destruct s as [|c t]; [discriminate|]. cbn [parse_number].
  destruct (c =? 45).
  - destruct (parse_unsigned t) as [[[m q] r']|]; [|discriminate].
    intros [= <- <-]. apply number_of_decimal_double.
  - destruct (parse_unsigned (c :: t)) as [[[m q] r']|]; [|discriminate].
    intros [= <- <-]. apply number_of_decimal_double.
Qed.

(* ================================================================== *)
(** ** The parser reads back what the printer writes *)
(* ================================================================== *)

Lemma parse_value_unfold f s :
  parse_value (S f) s =
  match skip_ws s with
  | [] => None
  | c :: t =>
      if c =? 91 then
        match skip_ws t with
        | [] => None
        | c' :: r =>
            if c' =? 93 then Some (VArr [], r)
            else
              match parse_value f t with
              | Some (v, r1) =>
                  match parse_elements f r1 with
                  | Some (vs, r2) => Some (VArr (v :: vs), r2)
                  | None => None
                  end
              | None => None
              end
        end
      else if c =? 123 then
        match skip_ws t with
        | [] => None
        | c' :: r =>
            if c' =? 125 then Some (VObj [], r)
            else
              match parse_member (parse_value f) t with
              | Some (k, v, r1) =>
                  match parse_members f r1 with
                  | Some (ms, r2) => Some (VObj (build_object ((k, v) :: ms)), r2)
                  | None => None
                  end
              | None => None
              end
        end
      else if c =? 34 then
        match parse_chars t with
        | Some (str, r) => Some (VStr str, r)
        | None => None
        end
      else if c =? 110 then
        match strip_prefix [117; 108; 108] t with
        | Some r => Some (VNull, r)
        | None => None
        end
      else if c =? 116 then
        match strip_prefix [114; 117; 101] t with
        | Some r => Some (VBool true, r)
        | None => None
        end
      else if c =? 102 then
        match strip_prefix [97; 108; 115; 101] t with
        | Some r => Some (VBool false, r)
        | None => None
        end
      else
        match parse_number (c :: t) with
        | Some (n, r) => Some (VNum n, r)
        | None => None
        end
  end.
Proof. reflexivity. Qed.

Lemma parse_elements_unfold f s :
  parse_elements (S f) s =
  match skip_ws s with
  | [] => None
  | c :: t =>
      if c =? 93 then Some ([], t)
      else if c =? 44 then
        match parse_value f t with
        | Some (v, r1) =>
            match parse_elements f r1 with
            | Some (vs, r2) => Some (v :: vs, r2)
            | None => None
            end
        | None => None
        end
      else None
  end.
Proof. reflexivity. Qed.

Lemma parse_members_unfold f s :
  parse_members (S f) s =
  match skip_ws s with
  | [] => None
  | c :: t =>
      if c =? 125 then Some ([], t)
      else if c =? 44 then
        match parse_member (parse_value f) t with
        | Some (k, v, r1) =>
            match parse_members f r1 with
            | Some (ms, r2) => Some ((k, v) :: ms, r2)
            | None => None
            end
        | None => None
        end
      else None
  end.
Proof. reflexivity. Qed.

Lemma value_head_not_ws c : value_head c = true -> is_ws c = false.
Proof.
  unfold value_head, is_ws, is_digit. intros H.
  repeat match goal with
         | |- context [N.eqb ?a ?b] => destruct (N.eqb_spec a b); subst
         end; try reflexivity; vm_compute in H; discriminate.
Qed.

Lemma value_head_not_close c :
  value_head c = true -> (c =? 93) = false /\ (c =? 125) = false.
Proof.
  intros H; split.
  - destruct (N.eqb_spec c 93); subst; [vm_compute in H|]; easy.
  - destruct (N.eqb_spec c 125); subst; [vm_compute in H|]; easy.
Qed.

Lemma ser_head v :
  is_data v = true ->
  exists c t, SerializeJSONProperty v = c :: t /\ value_head c = true.
Proof.
  destruct v as [| |[]|x|s|items|props]; simpl; intros H; try discriminate;
    try (do 2 eexists; split; [reflexivity|reflexivity]).
  destruct (is_finite x) eqn:Hf;
    [|do 2 eexists; split; [reflexivity|reflexivity]].
  destruct (number_to_string_head x H Hf) as (c & t & E & [->|Hc]).
  - rewrite E; eauto.
  - rewrite E; exists c, t; split; [reflexivity|].
    unfold value_head. rewrite Hc. now rewrite !orb_true_r.
Qed.

Lemma skip_ws_head c t : is_ws c = false -> skip_ws (c :: t) = c :: t.
Proof. intros H; simpl; now rewrite H. Qed.

Lemma number_dispatch f c t :
  (c = 45 \/ is_digit c = true) ->
  parse_value (S f) (c :: t) =
  match parse_number (c :: t) with
  | Some (n, r) => Some (VNum n, r)
  | None => None
  end.
Proof.
  intros Hc. rewrite parse_value_unfold.
  assert (Hh : value_head c = true).
  { unfold value_head. destruct Hc as [-> | ->]; [reflexivity|].
    now rewrite !orb_true_r. }
  rewrite (skip_ws_head c t (value_head_not_ws c Hh)).
  assert (Hne : forall k, is_digit k = false -> k <> 45 -> (c =? k) = false).
  { intros k Hk Hk'. apply N.eqb_neq. intros ->. destruct Hc; congruence. }
  rewrite !Hne by (try reflexivity; discriminate). reflexivity.
Qed.

Lemma is_json_data v : is_json v = true -> is_data v = true.
Proof.
  induction v as [| |b|x|s|items IH|props IH] using value_nested_ind;
    cbn [is_json is_data]; try easy.
  - intros H. now apply andb_true_iff in H.
  - induction IH as [|e es He _ IHes]; cbn [forallb]; [easy|].
    intros H. apply andb_true_iff in H. destruct H as [H1 H2].
    now rewrite (He H1), (IHes H2).
  - intros H. apply andb_true_iff in H. destruct H as [Hk H]. rewrite Hk.
    cbn [andb]. clear Hk.
    induction IH as [|e es He _ IHes]; cbn [forallb] in *; [easy|].
    apply andb_true_iff in H. destruct H as [H1 H2].
    now rewrite (He H1), (IHes H2).
Qed.

Lemma is_data_defined v : is_data v = true -> is_undefined v = false.
Proof. destruct v; simpl; congruence. Qed.

Lemma flat_map_comma_map {A} (h : A -> jsstring) (l : list A) :
  flat_map (fun x => 44 :: x) (map h l) = flat_map (fun e => 44 :: h e) l.
Proof. induction l as [|x l IH]; simpl; [reflexivity|]. now rewrite IH. Qed.

Lemma elements_texts es :
  forallb is_data es = true ->
  map (fun e => if is_undefined e then lit_null else SerializeJSONProperty e) es
  = map SerializeJSONProperty es.
Proof.
  induction es as [|x es IH]; simpl; [reflexivity|]. intros H.
  apply andb_true_iff in H. destruct H as [Hx Hes].
  now rewrite (is_data_defined x Hx), IH.
Qed.

Lemma members_texts ps :
  forallb (fun p => is_data (snd p)) ps = true ->
  flat_map (fun p => if is_undefined (snd p) then []
                     else [QuoteJSONString (fst p)
                           ++ 58 :: SerializeJSONProperty (snd p)]) ps
  = map member_text ps.
Proof.
  induction ps as [|x ps IH]; [reflexivity|]. intros H.
  cbn [forallb] in H. apply andb_true_iff in H. destruct H as [Hx Hps].
  cbn [flat_map map]. now rewrite (is_data_defined (snd x) Hx), IH.
Qed.

Lemma ser_array_text e es :
  forallb is_data (e :: es) = true ->
  SerializeJSONProperty (VArr (e :: es))
  = 91 :: SerializeJSONProperty e ++ elems_tail es ++ [93].
Proof.
  intros H. cbn [SerializeJSONProperty]. rewrite (elements_texts _ H).
  cbn [map join_comma]. rewrite flat_map_comma_map, <- app_assoc. reflexivity.
Qed.

Lemma ser_object_text p ps :
  forallb (fun p => is_data (snd p)) (p :: ps) = true ->
  SerializeJSONProperty (VObj (p :: ps))
  = 123 :: member_text p ++ members_tail ps ++ [125].
Proof.
  intros H. cbn [SerializeJSONProperty]. rewrite (members_texts _ H).
  cbn [map join_comma]. rewrite flat_map_comma_map, <- app_assoc. reflexivity.
Qed.

Lemma elems_tail_cons e es :
  elems_tail (e :: es) = 44 :: SerializeJSONProperty e ++ elems_tail es.
Proof. reflexivity. Qed.

Lemma parse_elements_tail es :
  Forall reads_back es -> forallb is_data es = true ->
  forall f r, lt (length (elems_tail es ++ 93 :: r)) f ->
    parse_elements f (elems_tail es ++ 93 :: r)
    = Some (map through_json es, r).
Proof.
  induction 1 as [|e es He Hes IH]; intros Hj f r Hf.
  - destruct f as [|f]; [simpl in Hf; lia|]. reflexivity.
  - simpl in Hj. apply andb_true_iff in Hj. destruct Hj as [Hje Hjes].
    destruct f as [|f]; [simpl in Hf; lia|].
    rewrite elems_tail_cons in *.
    rewrite <- app_comm_cons, <- app_assoc in *.
    rewrite parse_elements_unfold, skip_ws_head by reflexivity.
    change (44 =? 93) with false. change (44 =? 44) with true. cbv iota.
    rewrite (He Hje f (elems_tail es ++ 93 :: r));
      [|destruct es; reflexivity|len_solve].
    rewrite IH by (assumption || len_solve). reflexivity.
Qed.

Lemma member_text_parse pv k v v' rest :
  pv (SerializeJSONProperty v ++ rest) = Some (v', rest) ->
  parse_member pv (member_text (k, v) ++ rest) = Some (k, v', rest).
Proof.
  intros Hv. unfold parse_member, member_text, QuoteJSONString. cbn [fst snd].
  rewrite <- !app_comm_cons, skip_ws_head by reflexivity.
  change (34 =? 34) with true. cbv iota.
  rewrite <- !app_assoc. cbn [app].
  rewrite parse_chars_quote, skip_ws_head by reflexivity.
  change (58 =? 58) with true. cbv iota. now rewrite Hv.
Qed.

Lemma members_tail_cons p ps :
  members_tail (p :: ps) = 44 :: member_text p ++ members_tail ps.
Proof. reflexivity. Qed.

Lemma member_text_length p :
  lt (length (SerializeJSONProperty (snd p))) (length (member_text p)).
Proof. unfold member_text, QuoteJSONString. len_solve. Qed.

Lemma parse_members_tail ps :
  Forall (fun p => reads_back (snd p)) ps ->
  forallb (fun p => is_data (snd p)) ps = true ->
  forall f r, lt (length (members_tail ps ++ 125 :: r)) f ->
    parse_members f (members_tail ps ++ 125 :: r)
    = Some (map (fun p => (fst p, through_json (snd p))) ps, r).
Proof.
  induction 1 as [|[k v] ps Hp Hps IH]; intros Hj f r Hf.
  - destruct f as [|f]; [simpl in Hf; lia|]. reflexivity.
  - simpl in Hj. apply andb_true_iff in Hj. destruct Hj as [Hjp Hjps].
    destruct f as [|f]; [simpl in Hf; lia|].
    rewrite members_tail_cons in *.
    rewrite <- app_comm_cons, <- app_assoc in *.
    rewrite parse_members_unfold, skip_ws_head by reflexivity.
    change (44 =? 125) with false. change (44 =? 44) with true. cbv iota.
    pose proof (member_text_length (k, v)) as Hlen. cbn [snd] in Hlen, Hp.
    rewrite (member_text_parse (parse_value f) k v (through_json v)
               (members_tail ps ++ 125 :: r)).
    + rewrite IH by (assumption || len_solve). reflexivity.
    + apply (Hp Hjp); [destruct ps; reflexivity|len_solve].
Qed.

(* ------------------------------------------------------------------ *)
(** *** Objects: defining the properties in key order rebuilds the object *)

Lemma jsstring_eqb_sym (a b : jsstring) : jsstring_eqb a b = jsstring_eqb b a.
Proof.
  destruct (jsstring_eqb_spec a b), (jsstring_eqb_spec b a); congruence.
Qed.

Lemma obj_has_before k o :
  Forall (fun k' => key_before k' k = true) (map fst o) -> obj_has k o = false.
Proof.
  induction o as [|[k' v'] o IH]; simpl; intros H; [reflexivity|].
  inversion H as [|? ? Hk Ho]; subst. rewrite (IH Ho).
  unfold key_before in Hk. apply andb_true_iff in Hk.
  destruct Hk as [Hk _]. apply negb_true_iff in Hk. now rewrite Hk.
Qed.

Lemma obj_insert_index_before n k v o :
  array_index k = Some n ->
  Forall (fun k' => key_before k' k = true) (map fst o) ->
  obj_insert_index n k v o = o ++ [(k, v)].
Proof.
  intros Hn. induction o as [|[k' v'] o IH]; simpl; intros H; [reflexivity|].
  inversion H as [|? ? Hk Ho]; subst. rewrite (IH Ho).
  unfold key_before in Hk. apply andb_true_iff in Hk.
  destruct Hk as [_ Hk]. rewrite Hn in Hk.
  destruct (array_index k') as [n'|]; [|discriminate]. now rewrite Hk.
Qed.

Lemma CreateDataProperty_before o k v :
  Forall (fun k' => key_before k' k = true) (map fst o) ->
  CreateDataProperty o k v = o ++ [(k, v)].
Proof.
  intros H. unfold CreateDataProperty. rewrite (obj_has_before k o H).
  destruct (array_index k) as [n|] eqn:Hn; [|reflexivity].
  now apply obj_insert_index_before.
Qed.

Lemma keys_ordered_app_before a k l :
  keys_ordered (a ++ k :: l) = true ->
  Forall (fun k' => key_before k' k = true) a.
Proof.
  induction a as [|x a IH]; simpl; intros H; [constructor|].
  apply andb_true_iff in H. destruct H as [Hx Ha].
  constructor; [|now apply IH].
  rewrite forallb_app in Hx. apply andb_true_iff in Hx.
  destruct Hx as [_ Hx]. simpl in Hx. now apply andb_true_iff in Hx.
Qed.

Lemma fold_CreateDataProperty l :
  forall acc, keys_ordered (map fst (acc ++ l)) = true ->
  fold_left (fun o m => CreateDataProperty o (fst m) (snd m)) l acc = acc ++ l.
Proof.
  induction l as [|[k v] l IH]; intros acc H; simpl.
  - now rewrite List.app_nil_r.
  - rewrite CreateDataProperty_before.
    + rewrite IH; rewrite <- app_assoc; [reflexivity|exact H].
    + rewrite map_app in H. simpl in H.
      now apply keys_ordered_app_before in H.
Qed.

Lemma build_object_ordered props :
  keys_ordered (map fst props) = true -> build_object props = props.
Proof. intros H. apply (fold_CreateDataProperty props [] H). Qed.

(* ------------------------------------------------------------------ *)
(** *** Values *)

Lemma ser_app_head v rest :
  is_data v = true ->
  exists c t, skip_ws (SerializeJSONProperty v ++ rest) = c :: t
              /\ (c =? 93) = false.
Proof.
  intros H. destruct (ser_head v H) as (c & t & E & Hc).
  exists c, (t ++ rest). rewrite E, <- app_comm_cons.
  rewrite (skip_ws_head c _ (value_head_not_ws c Hc)).
  split; [reflexivity|apply (value_head_not_close c Hc)].
Qed.

Lemma parse_value_ser v : reads_back v.
Proof.
  induction v as [| |b|x|s|items IH|props IH] using value_nested_ind;
    intros Hj f r Hr Hf; try discriminate Hj;
    (destruct f as [|f]; [exfalso; lia|]).
  - reflexivity.
  - destruct b; reflexivity.
  - cbn [SerializeJSONProperty through_json is_data] in *.
    destruct (is_finite x) eqn:Hx; [|reflexivity].
    destruct (number_to_string_head x Hj Hx) as (c & t & E & Hc).
    rewrite E at 1. rewrite <- app_comm_cons.
    rewrite (number_dispatch f c (t ++ r) Hc).
    rewrite app_comm_cons, <- E, parse_number_to_string by assumption.
    reflexivity.
  - cbn [SerializeJSONProperty]. unfold QuoteJSONString.
    rewrite <- app_comm_cons, <- app_assoc. cbn [app].
    rewrite parse_value_unfold, skip_ws_head by reflexivity.
    change (34 =? 91) with false. change (34 =? 123) with false.
    change (34 =? 34) with true. cbv iota.
    now rewrite parse_chars_quote.
  - destruct items as [|e es]; [reflexivity|].
    cbn [is_data] in Hj. rewrite (ser_array_text e es Hj) in *.
    cbn [forallb] in Hj. apply andb_true_iff in Hj. destruct Hj as [Hje Hjes].
    inversion IH as [|? ? He Hes]; subst.
    rewrite <- app_comm_cons, <- !app_assoc in *. cbn [app] in *.
    rewrite parse_value_unfold, skip_ws_head by reflexivity.
    change (91 =? 91) with true. cbv iota.
    destruct (ser_app_head e (elems_tail es ++ 93 :: r) Hje)
      as (c & t & E & Hc). rewrite E, Hc.
    rewrite (He Hje f (elems_tail es ++ 93 :: r));
      [|destruct es; reflexivity|len_solve].
    rewrite (parse_elements_tail es Hes Hjes) by len_solve. reflexivity.
  - destruct props as [|[k v] ps]; [reflexivity|].
    cbn [is_data] in Hj. apply andb_true_iff in Hj. destruct Hj as [Hk Hj].
    rewrite (ser_object_text (k, v) ps Hj) in *.
    cbn [forallb snd] in Hj. apply andb_true_iff in Hj. destruct Hj as [Hjv Hjps].
    inversion IH as [|? ? Hv Hps]; subst. cbn [snd] in Hv.
    rewrite <- app_comm_cons, <- !app_assoc in *. cbn [app] in *.
    rewrite parse_value_unfold, skip_ws_head by reflexivity.
    change (91 =? 91) with true. change (123 =? 91) with false.
    change (123 =? 123) with true. cbv iota.
    pose proof (member_text_length (k, v)) as Hlen. cbn [snd] in Hlen.
    assert (Hhead : exists t,
               skip_ws (member_text (k, v) ++ members_tail ps ++ 125 :: r)
               = 34 :: t)
      by (unfold member_text, QuoteJSONString; cbn; eauto).
    destruct Hhead as (t & E). rewrite E. change (34 =? 125) with false.
    cbv iota.
    rewrite (member_text_parse (parse_value f) k v (through_json v)
               (members_tail ps ++ 125 :: r)).
    + rewrite (parse_members_tail ps Hps Hjps) by len_solve.
      cbn [through_json map fst snd].
      rewrite (build_object_ordered
                 ((k, through_json v)
                  :: map (fun p => (fst p, through_json (snd p))) ps)).
      * reflexivity.
      * cbn [map fst]. rewrite map_map. cbn [fst]. exact Hk.
    + apply (Hv Hjv); [destruct ps; reflexivity|len_solve].
Qed.

(** [JSON.parse (JSON.stringify v)] is [v], with [null] for the numbers
    that are not finite and [0] for a negative zero. *)
Lemma JSON_parse_stringify v :
  is_data v = true ->
  JSON_parse (SerializeJSONProperty v) = Some (through_json v).
Proof.
  intros Hj. unfold JSON_parse.
  pose proof (parse_value_ser v Hj (S (length (SerializeJSONProperty v))) []
                eq_refl) as H.
  rewrite List.app_nil_r in H. rewrite H by lia. reflexivity.
Qed.

(** A JSON-representable value without negative zero is read back as it
    is. *)
Lemma through_json_plain v :
  is_json v = true -> has_negative_zero v = false -> through_json v = v.
Proof.
  induction v as [| |b|x|s|items IH|props IH] using value_nested_ind;
    cbn [is_json has_negative_zero through_json]; try easy.
  - intros H Hz. apply andb_true_iff in H. destruct H as [_ Hf].
    rewrite Hf. unfold positive_zero. now rewrite Hz.
  - intros H Hz. f_equal.
    induction IH as [|e es He _ IHes]; cbn [forallb existsb map] in *;
      [reflexivity|].
    apply andb_true_iff in H. destruct H as [H1 H2].
    apply orb_false_iff in Hz. destruct Hz as [Hz1 Hz2].
    now rewrite (He H1 Hz1), (IHes H2 Hz2).
  - intros H Hz. apply andb_true_iff in H. destruct H as [_ H]. f_equal.
    induction IH as [|[k e] es He _ IHes]; cbn [forallb existsb map fst snd] in *;
      [reflexivity|].
    apply andb_true_iff in H. destruct H as [H1 H2].
    apply orb_false_iff in Hz. destruct Hz as [Hz1 Hz2].
    now rewrite (He H1 Hz1), (IHes H2 Hz2).
Qed.

(* ================================================================== *)
(** ** The parser never runs out of fuel *)
(* ================================================================== *)

Lemma skip_ws_length (s : jsstring) : (length (skip_ws s) <= length s)%nat.
Proof.
  induction s as [|c t IH]; simpl; [lia|]. destruct (is_ws c); simpl; lia.
Qed.

Lemma strip_prefix_length (p s r : jsstring) :
  strip_prefix p s = Some r -> (length r <= length s)%nat.
Proof.
  revert s; induction p as [|x p IH]; intros s; simpl.
  - intros [= <-]. lia.
  - destruct s as [|y s]; [discriminate|].
    destruct (x =? y); [|discriminate]. intros H. apply IH in H. simpl. lia.
Qed.

Lemma cons_chars_length c o (s r : jsstring) (n : nat) :
  cons_chars c o = Some (s, r) ->
  (forall s' r', o = Some (s', r') -> (length r' < n)%nat) ->
  (length r < n)%nat.
Proof.
  destruct o as [[s' r']|]; simpl; [|discriminate].
  intros [= <- <-] H. now apply (H s').
Qed.

Lemma parse_chars_length n :
  forall (s str r : jsstring), (length s <= n)%nat ->
  parse_chars s = Some (str, r) -> (length r < length s)%nat.
Proof.
  induction n as [|n IH]; intros [|c t] str r Hn; simpl in *; try discriminate;
    try lia.
  destruct (c =? 34); [intros [= <- <-]; lia|].
  destruct (c =? 92).
  - destruct t as [|e t1]; [discriminate|].
    destruct (e =? 117).
    + destruct t1 as [|h1 [|h2 [|h3 [|h4 t2]]]]; try discriminate.
      destruct (hex4 h1 h2 h3 h4); [|discriminate].
      intros H. apply cons_chars_length with (n := length t2) in H.
      * simpl; lia.
      * intros s' r' E. apply IH in E; simpl in *; lia.
    + destruct (simple_escape e); [|discriminate].
      intros H. apply cons_chars_length with (n := length t1) in H.
      * simpl; lia.
      * intros s' r' E. apply IH in E; simpl in *; lia.
  - destruct (c <? 32); [discriminate|].
    intros H. apply cons_chars_length with (n := length t) in H.
    + lia.
    + intros s' r' E. apply IH in E; lia.
Qed.

Lemma read_digits_length (s : jsstring) :
  forall d r, read_digits s = (d, r) ->
  (length r <= length s)%nat
  /\ (d <> Decimal.Nil -> (length r < length s)%nat).
Proof.
  induction s as [|c t IH]; simpl; intros d r.
  - intros [= <- <-]. split; [simpl; lia|congruence].
  - destruct (is_digit c).
    + destruct (read_digits t) as [d' r'] eqn:E. intros [= <- <-].
      destruct (IH d' r' eq_refl) as [H _]. split; intros; simpl; lia.
    + intros [= <- <-]. split; [simpl; lia|congruence].
Qed.

Lemma parse_nat_length (s : jsstring) n r :
  parse_nat s = Some (n, r) -> (length r < length s)%nat.
Proof.
  unfold parse_nat. destruct (read_digits s) as [d r'] eqn:E.
  destruct (read_digits_length s d r' E) as [_ H].
  destruct d; try discriminate;
    (destruct (Decimal.uint_beq _ _); [|discriminate]);
    intros [= _ <-]; apply H; discriminate.
Qed.

Lemma parse_frac_length (s : jsstring) d r :
  parse_frac s = (d, r) -> (length r <= length s)%nat.
Proof.
  destruct s as [|c t]; [now intros [= <- <-]|]. cbn [parse_frac].
  destruct (c =? 46); [|now intros [= <- <-]].
  destruct (read_digits t) as [d' r'] eqn:E.
  destruct (read_digits_length t d' r' E) as [H _].
  destruct d'; intros [= <- <-]; simpl; lia.
Qed.

Lemma parse_exp_length (s : jsstring) x r :
  parse_exp s = (x, r) -> (length r <= length s)%nat.
Proof.
  destruct s as [|c t]; [now intros [= <- <-]|]. cbn [parse_exp].
  destruct ((c =? 101) || (c =? 69)); [|now intros [= <- <-]].
  assert (Hgo : forall (minus : bool) (t' : jsstring),
             (length t' <= length t)%nat ->
             match read_digits t' with
             | (Decimal.Nil, _) => (0%Z, c :: t)
             | (d, r') =>
                 ((if minus then Z.opp (Z.of_N (N.of_uint d))
                   else Z.of_N (N.of_uint d)), r')
             end = (x, r) -> (length r <= length (c :: t))%nat).
  { intros minus t' Ht. destruct (read_digits t') as [d' r'] eqn:E.
    destruct (read_digits_length t' d' r' E) as [H _].
    destruct d'; intros [= <- <-]; simpl; lia. }
  destruct t as [|sg t1]; [exact (Hgo false [] (le_n _))|].
  destruct (sg =? 45); [apply (Hgo true t1); simpl; lia|].
  destruct (sg =? 43); [apply (Hgo false t1); simpl; lia|].
  apply (Hgo false (sg :: t1)); simpl; lia.
Qed.

Lemma parse_unsigned_length (s : jsstring) m q r :
  parse_unsigned s = Some (m, q, r) -> (length r < length s)%nat.
Proof.
  unfold parse_unsigned.
  destruct (parse_nat s) as [[i r1]|] eqn:E1; [|discriminate].
  destruct (parse_frac r1) as [df r2] eqn:E2.
  destruct (parse_exp r2) as [ex r3] eqn:E3.
  intros [= _ _ <-]. apply parse_nat_length in E1.
  apply parse_frac_length in E2. apply parse_exp_length in E3. lia.
Qed.

Lemma parse_number_length (s : jsstring) n r :
  parse_number s = Some (n, r) -> (length r < length s)%nat.
Proof.
  unfold parse_number. destruct s as [|c t]; [discriminate|].
  destruct (c =? 45).
  - destruct (parse_unsigned t) as [[[m q] r']|] eqn:E; [|discriminate].
    intros [= _ <-]. apply parse_unsigned_length in E. simpl; lia.
  - destruct (parse_unsigned (c :: t)) as [[[m q] r']|] eqn:E; [|discriminate].
    intros [= _ <-]. now apply parse_unsigned_length in E.
Qed.

Lemma parse_member_length pv (s k : jsstring) v r :
  (forall t v' r', pv t = Some (v', r') -> (length r' < length t)%nat) ->
  parse_member pv s = Some (k, v, r) -> (length r < length s)%nat.
Proof.
  intros Hpv. unfold parse_member.
  pose proof (skip_ws_length s) as Hs.
  destruct (skip_ws s) as [|c t]; [discriminate|].
  destruct (c =? 34); [|discriminate].
  destruct (parse_chars t) as [[k' r1]|] eqn:Ek; [|discriminate].
  apply (parse_chars_length (length t) t k' r1 (le_n _)) in Ek.
  pose proof (skip_ws_length r1) as Hr1.
  destruct (skip_ws r1) as [|c2 r2]; [discriminate|].
  destruct (c2 =? 58); [|discriminate].
  destruct (pv r2) as [[v' r3]|] eqn:Ev; [|discriminate].
  intros [= _ _ <-]. apply Hpv in Ev. simpl in *. lia.
Qed.

Lemma parse_length f :
  (forall (s : jsstring) v r,
      parse_value f s = Some (v, r) -> (length r < length s)%nat)
  /\ (forall (s : jsstring) vs r,
        parse_elements f s = Some (vs, r) -> (length r < length s)%nat)
  /\ (forall (s : jsstring) ms r,
        parse_members f s = Some (ms, r) -> (length r < length s)%nat).
Proof.
  induction f as [|f (IHv & IHe & IHm)]; [repeat split; discriminate|].
  split; [|split]; intros s x r.
  - rewrite parse_value_unfold.
    pose proof (skip_ws_length s) as Hs.
    destruct (skip_ws s) as [|c t]; [discriminate|]. simpl in Hs.
    destruct (c =? 91).
    { pose proof (skip_ws_length t) as Ht.
      destruct (skip_ws t) as [|c' r0]; [discriminate|]. simpl in Ht.
      destruct (c' =? 93); [intros [= _ <-]; lia|].
      destruct (parse_value f t) as [[v r1]|] eqn:E1; [|discriminate].
      destruct (parse_elements f r1) as [[vs r2]|] eqn:E2; [|discriminate].
      intros [= _ <-]. apply IHv in E1. apply IHe in E2. lia. }
    destruct (c =? 123).
    { pose proof (skip_ws_length t) as Ht.
      destruct (skip_ws t) as [|c' r0]; [discriminate|]. simpl in Ht.
      destruct (c' =? 125); [intros [= _ <-]; lia|].
      destruct (parse_member (parse_value f) t) as [[[k v] r1]|] eqn:E1;
        [|discriminate].
      destruct (parse_members f r1) as [[ms r2]|] eqn:E2; [|discriminate].
      intros [= _ <-]. apply (parse_member_length _ _ _ _ _ IHv) in E1.
      apply IHm in E2. lia. }
    destruct (c =? 34).
    { destruct (parse_chars t) as [[str r1]|] eqn:E1; [|discriminate].
      intros [= _ <-].
      apply (parse_chars_length (length t) t str r1 (le_n _)) in E1. lia. }
    destruct (c =? 110).
    { destruct (strip_prefix _ t) as [r1|] eqn:E1; [|discriminate].
      intros [= _ <-]. apply strip_prefix_length in E1. lia. }
    destruct (c =? 116).
    { destruct (strip_prefix _ t) as [r1|] eqn:E1; [|discriminate].
      intros [= _ <-]. apply strip_prefix_length in E1. lia. }
    destruct (c =? 102).
    { destruct (strip_prefix _ t) as [r1|] eqn:E1; [|discriminate].
      intros [= _ <-]. apply strip_prefix_length in E1. lia. }
    destruct (parse_number (c :: t)) as [[n r1]|] eqn:E1; [|discriminate].
    intros [= _ <-]. apply parse_number_length in E1. simpl in E1. lia.
  - rewrite parse_elements_unfold.
    pose proof (skip_ws_length s) as Hs.
    destruct (skip_ws s) as [|c t]; [discriminate|]. simpl in Hs.
    destruct (c =? 93); [intros [= _ <-]; lia|].
    destruct (c =? 44); [|discriminate].
    destruct (parse_value f t) as [[v r1]|] eqn:E1; [|discriminate].
    destruct (parse_elements f r1) as [[vs r2]|] eqn:E2; [|discriminate].
    intros [= _ <-]. apply IHv in E1. apply IHe in E2. lia.
  - rewrite parse_members_unfold.
    pose proof (skip_ws_length s) as Hs.
    destruct (skip_ws s) as [|c t]; [discriminate|]. simpl in Hs.
    destruct (c =? 125); [intros [= _ <-]; lia|].
    destruct (c =? 44); [|discriminate].
    destruct (parse_member (parse_value f) t) as [[[k v] r1]|] eqn:E1;
      [|discriminate].
    destruct (parse_members f r1) as [[ms r2]|] eqn:E2; [|discriminate].
    intros [= _ <-]. apply (parse_member_length _ _ _ _ _ IHv) in E1.
    apply IHm in E2. lia.
Qed.

Lemma parse_member_ext pv1 pv2 (s : jsstring) :
  (forall t : jsstring, (length t < length s)%nat -> pv1 t = pv2 t) ->
  parse_member pv1 s = parse_member pv2 s.
Proof.
  intros H. unfold parse_member.
  pose proof (skip_ws_length s) as Hs.
  destruct (skip_ws s) as [|c t]; [reflexivity|]. simpl in Hs.
  destruct (c =? 34); [|reflexivity].
  destruct (parse_chars t) as [[k r1]|] eqn:Ek; [|reflexivity].
  apply (parse_chars_length (length t) t k r1 (le_n _)) in Ek.
  pose proof (skip_ws_length r1) as Hr1.
  destruct (skip_ws r1) as [|c2 r2]; [reflexivity|]. simpl in Hr1.
  destruct (c2 =? 58); [|reflexivity].
  rewrite (H r2) by lia. reflexivity.
Qed.

(** Any two amounts of fuel above the length of the text give the same
    result. *)
Lemma parse_fuel f :
  forall f',
  (forall s : jsstring, (length s < f)%nat -> (length s < f')%nat ->
     parse_value f s = parse_value f' s)
  /\ (forall s : jsstring, (length s < f)%nat -> (length s < f')%nat ->
        parse_elements f s = parse_elements f' s)
  /\ (forall s : jsstring, (length s < f)%nat -> (length s < f')%nat ->
        parse_members f s = parse_members f' s).
Proof.
  induction f as [|f IH]; intros f'; [repeat split; intros; lia|].
  destruct f' as [|f']; [repeat split; intros; lia|].
  destruct (IH f') as (IHv & IHe & IHm).
  destruct (parse_length f) as (Lv & Le & Lm).
  split; [|split]; intros s Hf Hf'.
  - rewrite !parse_value_unfold.
    pose proof (skip_ws_length s) as Hs.
    destruct (skip_ws s) as [|c t]; [reflexivity|]. simpl in Hs.
    destruct (c =? 91).
    { destruct (skip_ws t) as [|c' r0]; [reflexivity|].
      destruct (c' =? 93); [reflexivity|].
      rewrite <- (IHv t) by lia.
      destruct (parse_value f t) as [[v r1]|] eqn:E1; [|reflexivity].
      apply Lv in E1. rewrite <- (IHe r1) by lia. reflexivity. }
    destruct (c =? 123); [|reflexivity].
    destruct (skip_ws t) as [|c' r0]; [reflexivity|].
    destruct (c' =? 125); [reflexivity|].
    rewrite <- (parse_member_ext (parse_value f) (parse_value f') t)
      by (intros u Hu; apply IHv; lia).
    destruct (parse_member (parse_value f) t) as [[[k v] r1]|] eqn:E1;
      [|reflexivity].
    apply (parse_member_length _ _ _ _ _ Lv) in E1.
    rewrite <- (IHm r1) by lia. reflexivity.
  - rewrite !parse_elements_unfold.
    pose proof (skip_ws_length s) as Hs.
    destruct (skip_ws s) as [|c t]; [reflexivity|]. simpl in Hs.
    destruct (c =? 93); [reflexivity|].
    destruct (c =? 44); [|reflexivity].
    rewrite <- (IHv t) by lia.
    destruct (parse_value f t) as [[v r1]|] eqn:E1; [|reflexivity].
    apply Lv in E1. rewrite <- (IHe r1) by lia. reflexivity.
  - rewrite !parse_members_unfold.
    pose proof (skip_ws_length s) as Hs.
    destruct (skip_ws s) as [|c t]; [reflexivity|]. simpl in Hs.
    destruct (c =? 125); [reflexivity|].
    destruct (c =? 44); [|reflexivity].
    rewrite <- (parse_member_ext (parse_value f) (parse_value f') t)
      by (intros u Hu; apply IHv; lia).
    destruct (parse_member (parse_value f) t) as [[[k v] r1]|] eqn:E1;
      [|reflexivity].
    apply (parse_member_length _ _ _ _ _ Lv) in E1.
    rewrite <- (IHm r1) by lia. reflexivity.
Qed.

(** [JSON_parse] does not depend on the fuel it gives to [parse_value]:
    more fuel reads the same value, or fails as well. *)
Lemma JSON_parse_fuel (s : jsstring) (f : nat) :
  (length s < f)%nat ->
  JSON_parse s =
  match parse_value f s with
  | Some (v, r) => match skip_ws r with [] => Some v | _ :: _ => None end
  | None => None
  end.
Proof.
  intros H. unfold JSON_parse.
  rewrite (proj1 (parse_fuel (S (length s)) f) s) by lia. reflexivity.
Qed.

(* ================================================================== *)
(** ** Map *)
(* ================================================================== *)

Lemma number_eqb_refl x : number_eqb x x = true.
Proof.
  destruct x as [|s|s m e]; simpl; [reflexivity|now destruct s|].
  rewrite !Z.eqb_refl. now destruct s.
Qed.

Lemma number_eqb_sym x y : number_eqb x y = number_eqb y x.
Proof.
  destruct x as [|s|s m e], y as [|s'|s' m' e']; simpl; try reflexivity.
  - now destruct s, s'.
  - rewrite (Z.eqb_sym m m'), (Z.eqb_sym e e'). now destruct s, s'.
Qed.

Lemma positive_zero_idem x : positive_zero (positive_zero x) = positive_zero x.
Proof.
  unfold positive_zero. destruct (is_negative_zero x) eqn:E; [reflexivity|].
  now rewrite E.
Qed.

Lemma SameValueZero_sym a b : SameValueZero a b = SameValueZero b a.
Proof.
  destruct a, b; simpl; try reflexivity.
  - now destruct b, b0.
  - apply number_eqb_sym.
  - apply jsstring_eqb_sym.
Qed.

Lemma SameValueZero_string k s :
  SameValueZero k (VStr s) = true -> k = VStr s.
Proof.
  destruct k; simpl; try discriminate. intros H.
  now destruct (jsstring_eqb_spec s0 s); [subst|].
Qed.

Lemma SameValueZero_canonical_l k k' :
  SameValueZero (canonical_key k) k' = SameValueZero k k'.
Proof. destruct k, k'; simpl; try reflexivity. now rewrite positive_zero_idem. Qed.

Lemma Map_set_new m k v :
  Map_has m k = false -> Map_set m k v = m ++ [(canonical_key k, v)].
Proof.
  induction m as [|[k' v'] m IH]; simpl; intros H; [reflexivity|].
  apply orb_false_iff in H. destruct H as [Hk Hm].
  now rewrite Hk, (IH Hm).
Qed.

Lemma Map_has_app m1 m2 k :
  Map_has (m1 ++ m2) k = Map_has m1 k || Map_has m2 k.
Proof.
  induction m1 as [|[k' v'] m1 IH]; simpl; [reflexivity|].
  now rewrite IH, orb_assoc.
Qed.

Lemma Map_keys_distinct_app m k v r :
  Map_keys_distinct (m ++ (k, v) :: r) = true -> Map_has m k = false.
Proof.
  induction m as [|[k' v'] m IH]; simpl; intros H; [reflexivity|].
  apply andb_true_iff in H. destruct H as [Hk Hm].
  rewrite (IH Hm), orb_false_r.
  apply negb_true_iff in Hk. rewrite Map_has_app in Hk.
  apply orb_false_iff in Hk. destruct Hk as [_ Hk]. simpl in Hk.
  apply orb_false_iff in Hk. destruct Hk as [Hk _].
  now rewrite SameValueZero_sym.
Qed.

(** [new Map] of the entries of a map rebuilds the map, when its keys are
    distinct and none is a negative zero. *)
Lemma Map_add_entries_distinct l :
  forall m, Map_keys_distinct (m ++ l) = true ->
  Forall (fun e => canonical_key (fst e) = fst e) l ->
  Map_add_entries m (map (fun e => VArr [fst e; snd e]) l) = Normal (m ++ l).
Proof.
  induction l as [|[k v] l IH]; intros m H Hc; simpl.
  - now rewrite List.app_nil_r.
  - inversion Hc as [|? ? Hk Hl]; subst. cbn [fst] in Hk.
    rewrite (Map_set_new m k v (Map_keys_distinct_app m k v l H)), Hk.
    rewrite IH; [now rewrite <- app_assoc|now rewrite <- app_assoc|exact Hl].
Qed.

Lemma new_Map_entries m :
  Map_keys_distinct m = true ->
  Forall (fun e => canonical_key (fst e) = fst e) m ->
  new_Map (Map_entries m) = Normal m.
Proof. intros H Hc. apply (Map_add_entries_distinct m [] H Hc). Qed.

Lemma Map_entries_data m :
  forallb (fun e => is_data (fst e) && is_data (snd e)) m = true ->
  is_data (Map_entries m) = true.
Proof.
  unfold Map_entries. cbn [is_data].
  induction m as [|[k v] m IH]; simpl; [reflexivity|]. intros H.
  apply andb_true_iff in H. destruct H as [Hkv Hm].
  apply andb_true_iff in Hkv. destruct Hkv as [Hk Hv].
  now rewrite Hk, Hv, (IH Hm).
Qed.

Lemma through_json_entries m :
  through_json (Map_entries m) = Map_entries (transferred m).
Proof.
  unfold Map_entries, transferred. cbn [through_json]. f_equal.
  rewrite !map_map. reflexivity.
Qed.

(** Reading back changes no key equality between JSON-representable
    values. *)
Lemma SameValueZero_through_json a b :
  is_json a = true -> is_json b = true ->
  SameValueZero (through_json a) (through_json b) = SameValueZero a b.
Proof.
  destruct a as [| |x|x|x|x|x], b as [| |y|y|y|y|y]; cbn [is_json through_json];
    intros Ha Hb; try reflexivity; try discriminate;
    repeat match goal with
           | H : is_double ?x && is_finite ?x = true |- _ =>
               apply andb_true_iff in H; destruct H as [_ H]; rewrite H
           end; try reflexivity.
  simpl. now rewrite !positive_zero_idem.
Qed.

Lemma through_json_canonical k :
  canonical_key (through_json k) = through_json k.
Proof.
  destruct k as [| |x|x|x|x|x]; cbn [through_json]; try reflexivity.
  destruct (is_finite x); [|reflexivity]. simpl. now rewrite positive_zero_idem.
Qed.

Lemma Map_has_transferred m k :
  forallb (fun e => is_json (fst e) && is_json (snd e)) m = true ->
  is_json k = true ->
  Map_has (transferred m) (through_json k) = Map_has m k.
Proof.
  intros Hm Hk. induction m as [|[k' v'] m IH]; [reflexivity|].
  cbn [forallb fst snd] in Hm. apply andb_true_iff in Hm.
  destruct Hm as [Hkv Hm]. apply andb_true_iff in Hkv. destruct Hkv as [Hk' _].
  cbn [transferred map Map_has fst snd].
  rewrite (SameValueZero_through_json k' k Hk' Hk). f_equal. exact (IH Hm).
Qed.

Lemma Map_keys_distinct_transferred m :
  forallb (fun e => is_json (fst e) && is_json (snd e)) m = true ->
  Map_keys_distinct (transferred m) = Map_keys_distinct m.
Proof.
  induction m as [|[k v] m IH]; [reflexivity|]. intros Hm.
  cbn [forallb fst snd] in Hm. apply andb_true_iff in Hm.
  destruct Hm as [Hkv Hm]. apply andb_true_iff in Hkv. destruct Hkv as [Hk _].
  cbn [transferred map Map_keys_distinct fst snd].
  change (map (fun e => (through_json (fst e), through_json (snd e))) m)
    with (transferred m).
  now rewrite (Map_has_transferred m k Hm Hk), (IH Hm).
Qed.

(** A string key is found after the transfer where it was before. *)
Lemma Map_has_transferred_string m K :
  Map_has (transferred m) (VStr K) = Map_has m (VStr K).
Proof.
  induction m as [|[k v] m IH]; [reflexivity|].
  cbn [transferred map Map_has fst snd]. f_equal; [|exact IH].
  destruct k as [| |x|x|x|x|x]; cbn [through_json]; try reflexivity.
  now destruct (is_finite x).
Qed.

Lemma Map_get_transferred_string m K :
  Map_get (transferred m) (VStr K) = through_json (Map_get m (VStr K)).
Proof.
  induction m as [|[k v] m IH]; [reflexivity|].
  cbn [transferred map Map_get fst snd].
  change (map (fun e => (through_json (fst e), through_json (snd e))) m)
    with (transferred m).
  rewrite IH.
  destruct k as [| |x|x|x|x|x]; cbn [through_json SameValueZero];
    try reflexivity.
  - now destruct (is_finite x).
  - now destruct (jsstring_eqb x K).
Qed.

Lemma json_entries_data m :
  forallb (fun e => is_json (fst e) && is_json (snd e)) m = true ->
  forallb (fun e => is_data (fst e) && is_data (snd e)) m = true.
Proof.
  induction m as [|[k v] m IH]; [reflexivity|]. cbn [forallb fst snd].
  intros H. apply andb_true_iff in H. destruct H as [Hkv Hm].
  apply andb_true_iff in Hkv. destruct Hkv as [Hk Hv].
  now rewrite (is_json_data k Hk), (is_json_data v Hv), (IH Hm).
Qed.

Lemma transferred_plain m :
  forallb (fun e => is_json (fst e) && is_json (snd e)) m = true ->
  existsb (fun e => has_negative_zero (fst e) || has_negative_zero (snd e)) m
  = false ->
  transferred m = m.
Proof.
  induction m as [|[k v] m IH]; [reflexivity|]. cbn [forallb existsb fst snd].
  intros H Hz. apply andb_true_iff in H. destruct H as [Hkv Hm].
  apply andb_true_iff in Hkv. destruct Hkv as [Hk Hv].
  apply orb_false_iff in Hz. destruct Hz as [Hz Hzm].
  apply orb_false_iff in Hz. destruct Hz as [Hzk Hzv].
  cbn [transferred map fst snd].
  change (map (fun e => (through_json (fst e), through_json (snd e))) m)
    with (transferred m).
  now rewrite (through_json_plain k Hk Hzk), (through_json_plain v Hv Hzv),
    (IH Hm Hzm).
Qed.

(** [initialize] reads what [serialize] wrote of a cache of
    JSON-representable keys and values as the transferred cache. *)
Lemma initialize_serialize_json cache other :
  json_cache cache = true ->
  cacheManager.initialize other (cacheManager.serialize cache)
  = Normal (transferred cache).
Proof.
  intros H. unfold json_cache in H. apply andb_true_iff in H.
  destruct H as [Hj Hd].
  unfold cacheManager.initialize, cacheManager.serialize.
  rewrite (JSON_parse_stringify (Map_entries cache)
             (Map_entries_data cache (json_entries_data cache Hj))).
  rewrite through_json_entries. apply new_Map_entries.
  - now rewrite Map_keys_distinct_transferred.
  - unfold transferred. apply Forall_map. apply Forall_forall.
    intros [k v] _. cbn [fst]. apply through_json_canonical.
Qed.

Lemma Map_has_set_other m K v K' :
  K' <> K ->
  Map_has (Map_set m (VStr K) v) (VStr K') = Map_has m (VStr K').
Proof.
  intros Hne. induction m as [|[k' v'] m IH]; simpl.
  - destruct (jsstring_eqb_spec K K'); [congruence|reflexivity].
  - destruct (SameValueZero k' (VStr K)); simpl; [reflexivity|now rewrite IH].
Qed.

Lemma Map_get_set_other m K v K' :
  K' <> K ->
  Map_get (Map_set m (VStr K) v) (VStr K') = Map_get m (VStr K').
Proof.
  intros Hne. induction m as [|[k' v'] m IH]; simpl.
  - destruct (jsstring_eqb_spec K K'); [congruence|reflexivity].
  - destruct (SameValueZero k' (VStr K)) eqn:E; simpl.
    + apply SameValueZero_string in E. subst k'. simpl.
      destruct (jsstring_eqb_spec K K'); [congruence|reflexivity].
    + now rewrite IH.
Qed.

Lemma Map_has_set_same m K v : Map_has (Map_set m (VStr K) v) (VStr K) = true.
Proof.
  induction m as [|[k' v'] m IH]; simpl.
  - now rewrite jsstring_eqb_refl.
  - destruct (SameValueZero k' (VStr K)) eqn:E; simpl; rewrite E; [reflexivity|].
    exact IH.
Qed.

Lemma Map_get_set_same m K v : Map_get (Map_set m (VStr K) v) (VStr K) = v.
Proof.
  induction m as [|[k' v'] m IH]; simpl.
  - now rewrite jsstring_eqb_refl.
  - destruct (SameValueZero k' (VStr K)) eqn:E; simpl; rewrite E; [reflexivity|].
    exact IH.
Qed.

(* ================================================================== *)
(** ** The cache manager *)
(* ================================================================== *)

(** C9.  After [wipeCache()] (which calls [clear]), [has(K)] is false for
    every key [K], whatever the cache held: the cache is empty. *)
Theorem wipeCache_has (w : World) (K : jsstring) :
  cache (wipeCache w) = []
  /\ cacheManager.has (cache (wipeCache w)) K = false
  /\ cacheManager.has (cacheManager.clear (cache w)) K = false.
Proof. repeat split. Qed.

(** C10.  [set(K, v)] leaves every other key [K'] as it was: [has(K')] and
    [get(K')] give after the call what they gave before it. *)
Theorem set_other_key (cache : Map) (K : jsstring) (v : value) (K' : jsstring) :
  K' <> K ->
  cacheManager.has (cacheManager.set cache K v) K' = cacheManager.has cache K'
  /\ cacheManager.get (cacheManager.set cache K v) K' = cacheManager.get cache K'.
Proof.
  intros Hne. unfold cacheManager.has, cacheManager.get, cacheManager.set.
  split; [now apply Map_has_set_other|now apply Map_get_set_other].
Qed.

Lemma set_other_key_witness :
  cacheManager.has (cacheManager.set two_entries people VNull) (js "/n")
  = cacheManager.has two_entries (js "/n")
  /\ cacheManager.get (cacheManager.set two_entries people VNull) (js "/n")
     = cacheManager.get two_entries (js "/n").
Proof.
  apply (set_other_key two_entries people VNull (js "/n")).
  vm_compute. discriminate.
Defined.

(** C2.  For a cache whose keys and values are JSON-representable,
    [initialize] given the string [serialize] produced, on any instance of
    the cache manager, succeeds and makes the entries of the serialized
    cache, in their insertion order, each key and value as [JSON.parse]
    reads it back: itself, but for a negative zero, which is read back as
    [0].  So [has(K)] agrees with the serialized cache for every key [K],
    [get(K)] is the value read back, and the new cache is the serialized
    one when no negative zero occurs in it. *)
Theorem initialize_serialize (cache other : Map) :
  json_cache cache = true ->
  cacheManager.initialize other (cacheManager.serialize cache)
  = Normal (transferred cache)
  /\ cacheManager.after_initialize other (cacheManager.serialize cache)
     = transferred cache
  /\ Map_keys (transferred cache) = map through_json (Map_keys cache)
  /\ (forall K : jsstring,
        cacheManager.has (transferred cache) K = cacheManager.has cache K
        /\ cacheManager.get (transferred cache) K
           = through_json (cacheManager.get cache K))
  /\ (holds_negative_zero cache = false -> transferred cache = cache).
Proof.
  intros H. pose proof (initialize_serialize_json cache other H) as E.
  unfold cacheManager.after_initialize. rewrite E.
  split; [reflexivity|]. split; [reflexivity|].
  split; [unfold Map_keys, transferred; now rewrite !map_map|].
  split.
  - intros K. unfold cacheManager.has, cacheManager.get.
    split; [apply Map_has_transferred_string|apply Map_get_transferred_string].
  - apply transferred_plain. unfold json_cache in H.
    now apply andb_true_iff in H.
Qed.

Lemma initialize_serialize_witness :
  cacheManager.initialize [] (cacheManager.serialize measures_cache)
  = Normal (transferred measures_cache).
Proof.
  apply (initialize_serialize measures_cache []).
  vm_compute. reflexivity.
Defined.

(** The round trip of C2 is not the identity on every JSON-representable
    cache: a negative zero is written [0], and [get] then returns [0]. *)
Example initialize_serialize_negative_zero :
  json_cache negative_zero_cache = true
  /\ cacheManager.serialize negative_zero_cache = jsq "[['/z',0]]"
  /\ cacheManager.get
       (cacheManager.after_initialize [] (cacheManager.serialize negative_zero_cache))
       (js "/z")
     = VNum (Finite false 0 0)
  /\ cacheManager.get negative_zero_cache (js "/z") = VNum (Finite true 0 0).
Proof. vm_compute. repeat split. Qed.

(* ================================================================== *)
(** ** Lists updated in place *)
(* ================================================================== *)

Lemma length_update_nth {A} n (f : A -> A) l :
  length (update_nth n f l) = length l.
Proof.
  revert n; induction l as [|x l IH]; intros [|n]; simpl; auto.
Qed.

Lemma nth_error_update_nth_same {A} n (f : A -> A) l x :
  nth_error l n = Some x -> nth_error (update_nth n f l) n = Some (f x).
Proof.
  revert n; induction l as [|y l IH]; intros [|n]; simpl; try discriminate.
  - now intros [= ->].
  - apply IH.
Qed.

Lemma nth_error_update_nth_other {A} n m (f : A -> A) l :
  n <> m -> nth_error (update_nth n f l) m = nth_error l m.
Proof.
  revert n m; induction l as [|y l IH]; intros [|n] [|m] H; simpl;
    try reflexivity; try congruence.
  apply IH. congruence.
Qed.

Lemma nth_error_snoc {A} (l : list A) x : nth_error (l ++ [x]) (length l) = Some x.
Proof. induction l as [|y l IH]; simpl; auto. Qed.

Lemma update_nth_snoc {A} (f : A -> A) (l : list A) x :
  update_nth (length l) f (l ++ [x]) = l ++ [f x].
Proof. induction l as [|y l IH]; simpl; [reflexivity|]. now rewrite IH. Qed.

Lemma Forall_update_nth {A} (P : A -> Prop) n f l :
  (forall x, P x -> P (f x)) -> Forall P l -> Forall P (update_nth n f l).
Proof.
  intros Hf H; revert n; induction H as [|x l Hx Hl IH]; intros [|n]; simpl;
    constructor; auto.
Qed.

Lemma nth_error_update_nth_inv {A} n m (f : A -> A) l y :
  nth_error (update_nth n f l) m = Some y ->
  exists x, nth_error l m = Some x
            /\ y = if Nat.eqb m n then f x else x.
Proof.
  intros H. destruct (Nat.eqb_spec m n) as [->|Hne].
  - destruct (nth_error l n) as [x|] eqn:E.
    + rewrite (nth_error_update_nth_same n f l x E) in H.
      injection H as <-. now exists x.
    + apply nth_error_None in E. rewrite <- (length_update_nth n f l) in E.
      apply nth_error_None in E. congruence.
  - rewrite (nth_error_update_nth_other n m f l) in H by congruence.
    now exists y.
Qed.

Lemma nth_error_snoc_inv {A} (l : list A) x n y :
  nth_error (l ++ [x]) n = Some y ->
  nth_error l n = Some y \/ (n = length l /\ y = x).
Proof.
  intros H. destruct (Nat.lt_ge_cases n (length l)) as [Hlt|Hge].
  - left. now rewrite nth_error_app1 in H.
  - right. rewrite nth_error_app2 in H by exact Hge.
    destruct (n - length l)%nat as [|k] eqn:E; simpl in H.
    + injection H as <-. split; [lia|reflexivity].
    + destruct k; discriminate.
Qed.

Lemma nth_error_app_left {A} (l l' : list A) n x :
  nth_error l n = Some x -> nth_error (l ++ l') n = Some x.
Proof.
  intros H. rewrite nth_error_app1; [exact H|].
  apply nth_error_Some. congruence.
Qed.

(* ================================================================== *)
(** ** initialize *)
(* ================================================================== *)

Lemma Map_add_entries_iterable items :
  forall m,
  if forallb (fun item => match item with
                          | VArr _ | VObj _ => true
                          | _ => false
                          end) items
  then exists m', Map_add_entries m items = Normal m'
  else Map_add_entries m items = Throw TypeError.
Proof.
  induction items as [|item items IH]; intros m; simpl; [eauto|].
  destruct item; simpl; try reflexivity; apply IH.
Qed.

Lemma new_Map_iterable v :
  if entries_iterable v then exists m, new_Map v = Normal m
  else new_Map v = Throw TypeError.
Proof.
  destruct v as [| |b|n|s|items|props]; simpl; eauto.
  - destruct s; simpl; eauto.
  - apply Map_add_entries_iterable.
Qed.

Lemma Map_add_entries_pairs pairs :
  forall m,
  Map_add_entries m (map (fun e => VArr [fst e; snd e]) pairs)
  = Normal (fold_left (fun m p => Map_set m (fst p) (snd p)) pairs m).
Proof.
  induction pairs as [|[k v] pairs IH]; intros m; simpl; [reflexivity|].
  apply IH.
Qed.

Lemma Map_add_entries_elements items :
  forall m,
  forallb (fun item => match item with
                       | VArr _ | VObj _ => true
                       | _ => false
                       end) items = true ->
  Map_add_entries m items
  = Normal (fold_left (fun m p => Map_set m (fst p) (snd p))
              (map element_0_1 items) m).
Proof.
  induction items as [|item items IH]; intros m H; [reflexivity|].
  cbn [forallb] in H. apply andb_true_iff in H. destruct H as [Hi H].
  destruct item; try discriminate Hi; cbn [Map_add_entries entry_of_item];
    rewrite (IH _ H); reflexivity.
Qed.

Lemma new_Map_elements v :
  entries_iterable v = true ->
  new_Map v = Normal (Map_of_pairs (map element_0_1 (elements v))).
Proof.
  destruct v as [| |b|n|s|items|props]; simpl; try discriminate;
    try reflexivity.
  - destruct s; [reflexivity|discriminate].
  - apply Map_add_entries_elements.
Qed.

Lemma element_0_1_entries pairs :
  map element_0_1 (elements (Map_entries pairs)) = pairs.
Proof.
  unfold Map_entries. cbn [elements]. rewrite map_map.
  induction pairs as [|[k v] pairs IH]; [reflexivity|].
  cbn [map element_0_1 nth fst snd]. f_equal. exact IH.
Qed.

(** C3, as the code has it.  [initializeCache(s)] throws a SyntaxError when
    [s] is not a JSON text and a TypeError when the value it denotes is
    not one [new Map] accepts; the error reaches the caller and the module
    is unchanged.  Otherwise the call succeeds and the whole cache is
    replaced, whatever it held (nothing is merged), by the map of the
    pairs [(element[0], element[1])] of the elements of the value, each
    set in turn; when [s] encodes a sequence of pairs, these are the
    decoded pairs. *)
Theorem initializeCache_replaces_or_throws (s : jsstring) (w : World) :
  match JSON_parse s with
  | None => initializeCache s w = (Throw SyntaxError, w)
  | Some v =>
      if entries_iterable v then
        initializeCache s w
        = (Normal tt,
           with_cache w (Map_of_pairs (map element_0_1 (elements v))))
        /\ (forall other,
              cacheManager.initialize other s
              = Normal (Map_of_pairs (map element_0_1 (elements v))))
        /\ (forall pairs,
              v = Map_entries pairs -> map element_0_1 (elements v) = pairs)
      else initializeCache s w = (Throw TypeError, w)
  end.
Proof.
  unfold initializeCache, cacheManager.initialize.
  destruct (JSON_parse s) as [v|]; [|reflexivity].
  pose proof (new_Map_iterable v) as H.
  destruct (entries_iterable v) eqn:Hv.
  - rewrite (new_Map_elements v Hv).
    split; [reflexivity|]. split; [intros other; reflexivity|].
    intros pairs ->. apply element_0_1_entries.
  - now rewrite H.
Qed.

(** C3, as stated, fails: the texts [null], [[[]]] and [[{"1":true}]] are
    not encoded sequences of pairs, yet [initializeCache] does not throw
    on them and the cache, which held [/people], is replaced. *)
Lemma initializeCache_not_pairs_accepted :
  encodes_pairs (jsq "null") = false
  /\ initializeCache (jsq "null") people_world
     = (Normal tt, with_cache people_world [])
  /\ encodes_pairs (jsq "[[]]") = false
  /\ initializeCache (jsq "[[]]") people_world
     = (Normal tt, with_cache people_world [(VUndefined, VUndefined)])
  /\ encodes_pairs (jsq "[{'1':true}]") = false
  /\ initializeCache (jsq "[{'1':true}]") people_world
     = (Normal tt, with_cache people_world [(VUndefined, VBool true)])
  /\ cacheManager.has (cache people_world) people = true
  /\ cacheManager.has (cache (snd (initializeCache (jsq "null") people_world)))
       people = false.
Proof. vm_compute. repeat split. Qed.

(** A text whose numbers have a fraction or an exponent is an encoded
    sequence of pairs like any other: the cache is replaced by its pairs. *)
Example initializeCache_fraction :
  encodes_pairs (jsq "[['/a',1.5],['/b',-2.5e-1]]") = true
  /\ initializeCache (jsq "[['/a',1.5],['/b',-2.5e-1]]") people_world
     = (Normal tt,
        with_cache people_world
          [(VStr (js "/a"), VNum (Finite false 3 (-1)));
           (VStr (js "/b"), VNum (Finite true 1 (-2)))]).
Proof. vm_compute. repeat split. Qed.

(* ================================================================== *)
(** ** The promises of the preloader *)
(* ================================================================== *)










(* ================================================================== *)
(** ** The hook and the preloader *)
(* ================================================================== *)

Lemma hook_state_setState c s w h :
  nth_error (hooks w) c = Some h ->
  hook_state c (setState c s w) = Some s
  /\ last_returned c (setState c s w) = Some s.
Proof.
  intros H. unfold hook_state, last_returned, setState. simpl.
  rewrite (nth_error_update_nth_same c _ (hooks w) h H). simpl.
  now rewrite last_last.
Qed.

(** With [url] absent from the cache, the effect calls [fetch(url)],
    whatever fetches are pending. *)
Lemma effect_body_fetches c url w :
  cacheManager.has (cache w) url = false ->
  network (effect_body c url w)
  = network w ++ [new_request url (HookContinuation c true)]
  /\ cache (effect_body c url w) = cache w.
Proof. intros H. unfold effect_body. rewrite H. split; reflexivity. Qed.

Lemma run_effect_fetches c w h :
  nth_error (hooks w) c = Some h -> mounted h = true -> effect_due h = true ->
  cacheManager.has (cache w) (hook_url h) = false ->
  length (network (run_effect c w)) = S (length (network w))
  /\ nth_error (network (run_effect c w)) (length (network w))
     = Some (new_request (hook_url h) (HookContinuation c true))
  /\ cache (run_effect c w) = cache w.
Proof.
  intros Hh Hm Hd Hc. unfold run_effect. rewrite Hh, Hm, Hd. simpl.
  assert (Hc' : cacheManager.has (cache (run_cleanup (cleanup h) w)) (hook_url h)
                = false) by (destruct (cleanup h); exact Hc).
  destruct (effect_body_fetches c (hook_url h) _ Hc') as [En Ec].
  assert (Hlen : length (network (run_cleanup (cleanup h) w)) = length (network w))
    by (destruct (cleanup h); simpl; [apply length_update_nth|reflexivity]).
  rewrite En, Ec. repeat split.
  - rewrite length_app, Hlen. simpl. lia.
  - rewrite <- Hlen. apply nth_error_snoc.
  - now destruct (cleanup h).
Qed.



(** C5.  When the fetch of a mounted component for [K] is answered with a
    status that is not a success, the hook returns [isLoading: false],
    [data: null] and the error, whose message carries the status code;
    the cache is unchanged, so that [K], absent before, is still absent,
    and the next effect run or preload for [K] calls [fetch] again. *)
Theorem failed_fetch_not_cached (w : World) (id c : nat) (K : jsstring)
  (h : Hook) (response : Response) :
  nth_error (network w) id = Some (new_request K (HookContinuation c true)) ->
  nth_error (hooks w) c = Some h ->
  ok response = false ->
  cacheManager.has (cache w) K = false ->
  let w' := settle id (Responds response) w in
  let failed :=
    {| isLoading := false; data := VNull;
       error := Some (NewError (http_error_prefix
                                ++ N_to_string (status response))) |} in
  hook_state c w' = Some failed
  /\ last_returned c w' = Some failed
  /\ cache w' = cache w
  /\ cacheManager.has (cache w') K = false
  /\ (forall c' h',
        nth_error (hooks w') c' = Some h' ->
        mounted h' = true -> effect_due h' = true -> hook_url h' = K ->
        length (network (run_effect c' w')) = S (length (network w'))
        /\ nth_error (network (run_effect c' w')) (length (network w'))
           = Some (new_request K (HookContinuation c' true)))
  /\ network (preloadCachingFetch K w')
     = network w' ++ [new_request K (PreloadContinuation (length (promises w')))].
Proof.
  intros Hrq Hh Hok Hhas w' failed.
  assert (Ew' : w' = setState c failed
                       (with_network w (update_nth id mark_settled (network w)))).
  { unfold w', settle. rewrite Hrq. cbn [settled new_request continuation].
    unfold fetch_json. rewrite Hok. reflexivity. }
  assert (Hc : cache w' = cache w) by (rewrite Ew'; reflexivity).
  destruct (hook_state_setState c failed
              (with_network w (update_nth id mark_settled (network w))) h Hh)
    as [Hs Hl].
  rewrite <- Ew' in Hs, Hl.
  split; [exact Hs|]. split; [exact Hl|]. split; [exact Hc|].
  split; [now rewrite Hc|]. split.
  - intros c' h' Hh' Hm Hd Hu.
    destruct (run_effect_fetches c' w' h' Hh' Hm Hd) as (H1 & H2 & _).
    + now rewrite Hu, Hc.
    + rewrite Hu in H2. now split.
  - unfold preloadCachingFetch. now rewrite Hc, Hhas.
Qed.

(** C7, as the code has it.  When the component is unmounted before its
    fetch settles, the settlement, whatever it is, changes neither the
    cache nor the state of the hook: the fetch is marked settled and
    nothing else happens. *)
Theorem unmounted_fetch_discarded (w : World) (c id : nat) (K : jsstring)
  (h : Hook) (o : Outcome) :
  nth_error (hooks w) c = Some h ->
  mounted h = true ->
  cleanup h = Some id ->
  nth_error (network w) id = Some (new_request K (HookContinuation c true)) ->
  cache (settle id o (unmount c w)) = cache w
  /\ hooks (settle id o (unmount c w)) = hooks (unmount c w)
  /\ hook_state c (settle id o (unmount c w)) = Some (state h)
  /\ nth_error (network (settle id o (unmount c w))) id
     = Some {| request_url := K; continuation := HookContinuation c false;
               settled := true |}.
Proof.
  intros Hh Hm Hcl Hrq.
  assert (Hu : unmount c w =
               with_hooks
                 (with_network w (update_nth id clear_isMounted (network w)))
                 (update_nth c
                    (fun h => {| hook_url := hook_url h; state := state h;
                                 returned := returned h;
                                 effect_due := false; cleanup := None;
                                 mounted := false |})
                    (hooks w))).
  { unfold unmount. now rewrite Hh, Hm, Hcl. }
  rewrite Hu. unfold settle. cbn [network with_hooks with_network].
  rewrite (nth_error_update_nth_same id clear_isMounted (network w) _ Hrq).
  cbn [settled clear_isMounted new_request continuation request_url].
  unfold hook_callbacks.
  assert (Hnth : nth_error
                   (update_nth id mark_settled
                      (update_nth id clear_isMounted (network w))) id
                 = Some {| request_url := K;
                           continuation := HookContinuation c false;
                           settled := true |}).
  { now rewrite (nth_error_update_nth_same id mark_settled _ _
                   (nth_error_update_nth_same id clear_isMounted _ _ Hrq)). }
  assert (Hst : nth_error
                  (update_nth c
                     (fun h => {| hook_url := hook_url h; state := state h;
                                  returned := returned h;
                                  effect_due := false; cleanup := None;
                                  mounted := false |}) (hooks w)) c
                = Some {| hook_url := hook_url h; state := state h;
                          returned := returned h;
                          effect_due := false; cleanup := None;
                          mounted := false |})
    by exact (nth_error_update_nth_same c _ (hooks w) h Hh).
  destruct (fetch_json o); unfold hook_state;
    cbn [cache hooks network with_hooks with_network];
    rewrite Hst; repeat split; exact Hnth.
Qed.

Lemma failed_fetch_not_cached_witness :
  hook_state 0 (settle 0 (Responds not_found) fetching_people)
  = Some {| isLoading := false; data := VNull;
            error := Some (NewError (http_error_prefix ++ N_to_string 404)) |}.
Proof.
  apply (failed_fetch_not_cached fetching_people 0 0 people fetching_hook
           not_found); vm_compute; reflexivity.
Defined.

Lemma unmounted_fetch_discarded_witness :
  cache (settle 0 people_response (unmount 0 fetching_people))
  = cache fetching_people.
Proof.
  apply (unmounted_fetch_discarded fetching_people 0 0 people fetching_hook
           people_response); vm_compute; reflexivity.
Defined.

(* ================================================================== *)
(** ** What the hook returns *)
(* ================================================================== *)

Lemma fetch_gave_snoc events e r :
  fetch_gave events r -> fetch_gave (events ++ [e]) r.
Proof.
  intros (id & o & Hin & Hr). exists id, o. split; [|exact Hr].
  apply in_or_app. now left.
Qed.

Lemma cache_held_snoc events e d :
  cache_held events d -> cache_held (events ++ [e]) d.
Proof.
  intros (before & after & K & -> & Hh & Hg).
  exists before, (after ++ [e]), K. now rewrite app_assoc.
Qed.

Lemma reports_snoc events e s : reports events s -> reports (events ++ [e]) s.
Proof.
  intros H Hl. destruct (H Hl) as [(err & Hs & Hf)|(d & Hs & [Hf|Hc])].
  - left. exists err. split; [exact Hs|now apply fetch_gave_snoc].
  - right. exists d. split; [exact Hs|left; now apply fetch_gave_snoc].
  - right. exists d. split; [exact Hs|right; now apply cache_held_snoc].
Qed.

Lemma hook_reports_snoc events e h :
  hook_reports events h -> hook_reports (events ++ [e]) h.
Proof.
  intros [Hs Hr]. split; [now apply reports_snoc|].
  apply (Forall_impl _ (fun s => reports_snoc events e s) Hr).
Qed.

Lemma reports_loading events d err :
  reports events {| isLoading := true; data := d; error := err |}.
Proof. intros H. discriminate H. Qed.

Lemma setState_reports events c s w :
  reports events s -> Forall (hook_reports events) (hooks w) ->
  Forall (hook_reports events) (hooks (setState c s w)).
Proof.
  intros Hs H. unfold setState. cbn [hooks with_hooks].
  apply Forall_update_nth; [|exact H].
  intros h [_ Hr]. split; [exact Hs|].
  cbn [returned]. apply Forall_app. split; [exact Hr|]. now constructor.
Qed.

Lemma effect_done_reports events c cl w :
  Forall (hook_reports events) (hooks w) ->
  Forall (hook_reports events) (hooks (effect_done c cl w)).
Proof.
  intros H. unfold effect_done. cbn [hooks with_hooks].
  apply Forall_update_nth; [|exact H]. now intros h.
Qed.

Lemma run_cleanup_unchanged cl w :
  hooks (run_cleanup cl w) = hooks w /\ cache (run_cleanup cl w) = cache w.
Proof. now destruct cl. Qed.

Lemma step_reports events e :
  Forall (hook_reports events) (hooks (run initial_world events)) ->
  Forall (hook_reports (events ++ [e]))
         (hooks (step (run initial_world events) e)).
Proof.
  intros H0. set (w := run initial_world events) in *.
  assert (H : Forall (hook_reports (events ++ [e])) (hooks w))
    by (apply (Forall_impl _ (fun h => hook_reports_snoc events e h) H0)).
  destruct e as [c url|c|c|id o|url|s|]; cbn [step].
  - unfold useCachingFetch. destruct (nth_error (hooks w) c) as [h|] eqn:Hh.
    + destruct (mounted h); [|exact H]. cbn [hooks with_hooks].
      apply Forall_update_nth; [|exact H].
      intros h' [Hs Hr]. split; [exact Hs|].
      cbn [returned]. apply Forall_app. split; [exact Hr|]. now constructor.
    + destruct (Nat.eqb c (length (hooks w))); [|exact H].
      cbn [hooks with_hooks]. apply Forall_app. split; [exact H|].
      constructor; [|constructor].
      split; [apply reports_loading|].
      constructor; [apply reports_loading|constructor].
  - unfold run_effect. destruct (nth_error (hooks w) c) as [h|]; [|exact H].
    destruct (mounted h && effect_due h); [|exact H].
    destruct (run_cleanup_unchanged (cleanup h) w) as [Hhooks Hcache].
    unfold effect_body. rewrite Hcache.
    destruct (cacheManager.has (cache w) (hook_url h)) eqn:Hhas.
    + apply effect_done_reports, setState_reports; [|now rewrite Hhooks].
      intros _. right. exists (cacheManager.get (cache w) (hook_url h)).
      split; [reflexivity|]. right.
      exists events, [RunEffect c], (hook_url h). now repeat split.
    + apply effect_done_reports.
      apply (setState_reports _ c
               {| isLoading := true; data := VNull; error := None |}
               (run_cleanup (cleanup h) w));
        [apply reports_loading|now rewrite Hhooks].
  - unfold unmount. destruct (nth_error (hooks w) c) as [h|]; [|exact H].
    destruct (mounted h); [|exact H]. cbn [hooks with_hooks].
    destruct (run_cleanup_unchanged (cleanup h) w) as [Hhooks _].
    apply Forall_update_nth; [|exact H]. now intros h'.
  - unfold settle. destruct (nth_error (network w) id) as [rq|]; [|exact H].
    destruct (settled rq); [exact H|].
    assert (Hgave : fetch_gave (events ++ [Settle id o]) (fetch_json o)).
    { exists id, o. split; [|reflexivity]. apply in_or_app. right. now left. }
    destruct (continuation rq) as [c isMounted|p].
    + unfold hook_callbacks.
      destruct (fetch_json o) as [d|err], isMounted; try exact H.
      * apply setState_reports; [|exact H].
        intros _. right. exists d. split; [reflexivity|now left].
      * apply setState_reports; [|exact H].
        intros _. left. exists err. now split.
    + unfold preload_rest. destruct (fetch_json o); exact H.
  - unfold preloadCachingFetch.
    destruct (cacheManager.has (cache w) url); exact H.
  - unfold initializeCache.
    destruct (cacheManager.initialize (cache w) s); exact H.
  - exact H.
Qed.

Lemma run_snoc w events e : run w (events ++ [e]) = step (run w events) e.
Proof. unfold run. now rewrite fold_left_app. Qed.

Lemma run_reports events :
  Forall (hook_reports events) (hooks (run initial_world events)).
Proof.
  induction events as [|e events IH] using rev_ind; [constructor|].
  rewrite run_snoc. now apply step_reports.
Qed.

(** C8, as the code has it.  Whatever happens to the module, every object
    the hook has returned, and the state it holds, with [isLoading] false
    is of one of two kinds.  Either [error] is the error some fetch of the
    trace failed with, and [data] is null.  Or [error] is null and [data]
    is a value that some fetch of the trace gave or that the cache held:
    it is null only when that value is null.  So the two fields are never
    both non-null, and they are both null only for a null value. *)
Theorem returned_data_or_error (events : list Event) (c : nat) (h : Hook)
  (s : State) :
  nth_error (hooks (run initial_world events)) c = Some h ->
  s = state h \/ In s (returned h) ->
  isLoading s = false ->
  (exists e, error s = Some e /\ data s = VNull
             /\ fetch_gave events (Throw e))
  \/ (error s = None
      /\ (fetch_gave events (Normal (data s)) \/ cache_held events (data s))).
Proof.
  intros Hh Hs Hl.
  pose proof (run_reports events) as H. rewrite Forall_forall in H.
  destruct (H h (nth_error_In _ _ Hh)) as [H1 H2].
  assert (Hr : reports events s).
  { destruct Hs as [->|Hs]; [exact H1|].
    rewrite Forall_forall in H2. now apply H2. }
  destruct (Hr Hl) as [(e & -> & Hf)|(d & -> & Hd)].
  - left. exists e. now repeat split.
  - right. now split.
Qed.

Lemma returned_data_or_error_witness :
  (exists e,
      error {| isLoading := false; data := people_data; error := None |}
      = Some e
      /\ data {| isLoading := false; data := people_data; error := None |}
         = VNull
      /\ fetch_gave [Render 0 people; RunEffect 0; Settle 0 people_response]
           (Throw e))
  \/ (error {| isLoading := false; data := people_data; error := None |} = None
      /\ (fetch_gave [Render 0 people; RunEffect 0; Settle 0 people_response]
            (Normal
               (data {| isLoading := false; data := people_data;
                        error := None |}))
          \/ cache_held [Render 0 people; RunEffect 0; Settle 0 people_response]
               (data {| isLoading := false; data := people_data;
                        error := None |}))).
Proof.
  apply (returned_data_or_error
           [Render 0 people; RunEffect 0; Settle 0 people_response] 0
           {| hook_url := people;
              state := {| isLoading := false; data := people_data; error := None |};
              returned :=
                [initial_state; initial_state;
                 {| isLoading := false; data := people_data; error := None |}];
              effect_due := false; cleanup := Some 0%nat; mounted := true |}).
  - vm_compute. reflexivity.
  - left. reflexivity.
  - reflexivity.
Defined.

(** C8, as stated, fails: when the body fetched is the JSON text [null],
    the hook returns [isLoading: false] with [data] and [error] both
    null. *)
Lemma null_body_both_null :
  fetch_json (Responds {| status := 200; body := lit_null |}) = Normal VNull
  /\ hook_state 0 null_body_fetched
     = Some {| isLoading := false; data := VNull; error := None |}
  /\ last_returned 0 null_body_fetched
     = Some {| isLoading := false; data := VNull; error := None |}.
Proof. vm_compute. repeat split. Qed.

(** C1: what the code does.  For every key [K], when two components ask
    for [K] before any fetch settles, [fetch] is called twice, and both
    calls are pending at once. *)
Theorem two_consumers_two_fetches (K : jsstring) :
  cacheManager.has (cache (two_consumers K)) K = false
  /\ network (two_consumers K)
     = [new_request K (HookContinuation 0 true);
        new_request K (HookContinuation 1 true)]
  /\ length (requests_for K (two_consumers K)) = 2%nat
  /\ length (pending_for K (two_consumers K)) = 2%nat.
Proof.
  assert (Hn : network (two_consumers K)
               = [new_request K (HookContinuation 0 true);
                  new_request K (HookContinuation 1 true)]) by reflexivity.
  split; [reflexivity|]. split; [exact Hn|].
  unfold pending_for, requests_for. rewrite Hn.
  cbn [filter new_request request_url settled].
  rewrite !jsstring_eqb_refl. cbn [filter negb settled].
  split; reflexivity.
Qed.

(** C6: what the code does.  With [K] in the cache, the first render of a
    new component returns [isLoading: true] and [data: null]; the cached
    value is returned by the render that follows the effect, and [fetch]
    is not called. *)
Theorem cached_key_first_render_loading (w : World) (K : jsstring) :
  cacheManager.has (cache w) K = true ->
  last_returned (length (hooks w)) (useCachingFetch (length (hooks w)) K w)
  = Some {| isLoading := true; data := VNull; error := None |}
  /\ last_returned (length (hooks w))
       (run_effect (length (hooks w)) (useCachingFetch (length (hooks w)) K w))
     = Some {| isLoading := false; data := cacheManager.get (cache w) K;
               error := None |}
  /\ network (run_effect (length (hooks w))
                (useCachingFetch (length (hooks w)) K w))
     = network w.
Proof.
  intros Hhas.
  assert (Hr : useCachingFetch (length (hooks w)) K w
               = with_hooks w
                   (hooks w ++ [{| hook_url := K; state := initial_state;
                                   returned := [initial_state];
                                   effect_due := true; cleanup := None;
                                   mounted := true |}])).
  { unfold useCachingFetch.
    rewrite (proj2 (nth_error_None (hooks w) (length (hooks w))) (le_n _)).
    now rewrite Nat.eqb_refl. }
  rewrite Hr. split.
  - unfold last_returned. cbn [hooks with_hooks].
    now rewrite nth_error_snoc.
  - unfold run_effect. cbn [hooks with_hooks].
    rewrite nth_error_snoc. cbn [mounted effect_due andb cleanup hook_url].
    unfold run_cleanup, effect_body. cbn [cache with_hooks]. rewrite Hhas.
    unfold last_returned, effect_done, setState.
    cbn [hooks with_hooks network].
    rewrite !update_nth_snoc, nth_error_snoc. split; reflexivity.
Qed.

Lemma cached_key_first_render_loading_witness :
  last_returned 0 (useCachingFetch 0 people people_world)
  = Some {| isLoading := true; data := VNull; error := None |}.
Proof.
  apply (cached_key_first_render_loading people_world people).
  vm_compute. reflexivity.
Defined.

(** The scenarios of the specification.  A preload of [/people], then the
    cache serialized and given to [initializeCache] on a fresh module:
    [get] gives the data back.  Three components asking for [/people] at
    once: [fetch] is called three times. *)
Example people_preloaded_and_transferred :
  cacheManager.get
    (cache (snd (initializeCache
                   (serializeCache
                      (run initial_world [Preload people; Settle 0 people_response]))
                   initial_world)))
    people
  = people_data.
Proof. vm_compute. reflexivity. Qed.

Example three_subscribers_three_fetches :
  length (network (run initial_world
                     [Render 0 people; Render 1 people; Render 2 people;
                      RunEffect 0; RunEffect 1; RunEffect 2]))
  = 3%nat.
Proof. vm_compute. reflexivity. Qed.

(** C7, as stated, fails: the component is unmounted, then its fetch of
    [/people] succeeds, and the cache still has no entry for [/people]. *)
Lemma unmounted_fetch_not_cached :
  fetch_json people_response = Normal people_data
  /\ cacheManager.has (cache unmounted_before_settlement) people = false
  /\ cache unmounted_before_settlement = [].
Proof. vm_compute. repeat split. Qed.

(* ================================================================== *)
(** ** More on the cache manager *)
(* ================================================================== *)

Lemma Map_has_set m k v k' :
  Map_has (Map_set m k v) k'
  = Map_has m k' || (negb (Map_has m k) && SameValueZero k k').
Proof.
  induction m as [|[k0 v0] m IH]; simpl.
  - now rewrite orb_false_r, SameValueZero_canonical_l.
  - destruct (SameValueZero k0 k) eqn:E; simpl.
    + now rewrite orb_false_r.
    + now rewrite IH, orb_assoc.
Qed.

Lemma Map_set_distinct m k v :
  Map_keys_distinct m = true -> Map_keys_distinct (Map_set m k v) = true.
Proof.
  induction m as [|[k0 v0] m IH]; simpl; intros H; [reflexivity|].
  apply andb_true_iff in H. destruct H as [Hk Hm].
  destruct (SameValueZero k0 k) eqn:E; simpl.
  - now rewrite Hk, Hm.
  - rewrite (IH Hm), andb_true_r, Map_has_set.
    apply negb_true_iff in Hk. rewrite Hk, SameValueZero_sym, E.
    now rewrite andb_false_r.
Qed.

Lemma Map_add_entries_distinct_keys items :
  forall m m', Map_keys_distinct m = true ->
  Map_add_entries m items = Normal m' -> Map_keys_distinct m' = true.
Proof.
  induction items as [|item items IH]; simpl; intros m m' Hm.
  - now intros [= <-].
  - destruct (entry_of_item item) as [[k v]|e]; [|discriminate].
    apply IH. now apply Map_set_distinct.
Qed.

Lemma new_Map_distinct v m :
  new_Map v = Normal m -> Map_keys_distinct m = true.
Proof.
  destruct v as [| |b|n|s|items|props]; simpl; try discriminate;
    try (now intros [= <-]).
  - destruct s; [now intros [= <-]|discriminate].
  - now apply Map_add_entries_distinct_keys.
Qed.

Lemma Map_set_set m k v1 v2 :
  SameValueZero k k = true ->
  Map_set (Map_set m k v1) k v2 = Map_set m k v2.
Proof.
  intros Hk. induction m as [|[k0 v0] m IH]; simpl.
  - now rewrite SameValueZero_canonical_l, Hk.
  - destruct (SameValueZero k0 k) eqn:E; simpl; rewrite E; [reflexivity|].
    now rewrite IH.
Qed.

(** X1.  After [set(K, v)], [has(K)] is true and [get(K)] is [v], whatever
    the cache held for [K] before. *)
Theorem set_then_get (cache : Map) (K : jsstring) (v : value) :
  cacheManager.has (cacheManager.set cache K v) K = true
  /\ cacheManager.get (cacheManager.set cache K v) K = v.
Proof.
  unfold cacheManager.has, cacheManager.get, cacheManager.set.
  split; [apply Map_has_set_same|apply Map_get_set_same].
Qed.

(** X2.  The last writer wins and leaves no trace of the first: two calls
    of [set] for the same key give the cache that the second call alone
    gives. *)
Theorem set_twice (cache : Map) (K : jsstring) (v1 v2 : value) :
  cacheManager.set (cacheManager.set cache K v1) K v2
  = cacheManager.set cache K v2.
Proof.
  unfold cacheManager.set. apply Map_set_set. simpl. apply jsstring_eqb_refl.
Qed.

(** X3.  [get] of a key the cache does not have is [undefined]. *)
Theorem get_absent (cache : Map) (K : jsstring) :
  cacheManager.has cache K = false -> cacheManager.get cache K = VUndefined.
Proof.
  unfold cacheManager.has, cacheManager.get.
  induction cache as [|[k0 v0] cache IH]; simpl; [reflexivity|]. intros H.
  apply orb_false_iff in H. destruct H as [E Hc]. now rewrite E, IH.
Qed.

Lemma get_absent_witness :
  cacheManager.get people_cache (js "/planets") = VUndefined.
Proof.
  apply (get_absent people_cache (js "/planets")). vm_compute. reflexivity.
Defined.

(** X4.  [set] keeps the insertion order: a key the cache has stays where
    it is and no entry is added; a new key goes after all the others. *)
Theorem set_insertion_order (cache : Map) (K : jsstring) (v : value) :
  Map_keys (cacheManager.set cache K v)
  = if cacheManager.has cache K then Map_keys cache
    else Map_keys cache ++ [VStr K].
Proof.
  unfold cacheManager.set, cacheManager.has, Map_keys.
  induction cache as [|[k0 v0] cache IH]; simpl; [reflexivity|].
  destruct (SameValueZero k0 (VStr K)) eqn:E; simpl; [reflexivity|].
  rewrite IH. now destruct (Map_has cache (VStr K)).
Qed.

Lemma cache_unchanged_distinct w e :
  Map_keys_distinct (cache w) = true ->
  Map_keys_distinct (cache (step w e)) = true.
Proof.
  intros H. destruct e as [c url|c|c|id o|url|s|]; cbn [step].
  - unfold useCachingFetch. destruct (nth_error (hooks w) c) as [h|].
    + now destruct (mounted h).
    + now destruct (Nat.eqb c (length (hooks w))).
  - unfold run_effect. destruct (nth_error (hooks w) c) as [h|]; [|exact H].
    destruct (mounted h && effect_due h); [|exact H].
    unfold effect_body.
    destruct (cacheManager.has (cache (run_cleanup (cleanup h) w)) (hook_url h));
      destruct (cleanup h); exact H.
  - unfold unmount. destruct (nth_error (hooks w) c) as [h|]; [|exact H].
    destruct (mounted h); [|exact H]. destruct (cleanup h); exact H.
  - unfold settle. destruct (nth_error (network w) id) as [rq|]; [|exact H].
    destruct (settled rq); [exact H|].
    destruct (continuation rq) as [c isMounted|p].
    + unfold hook_callbacks.
      destruct (fetch_json o) as [d|e], isMounted; try exact H.
      cbn. now apply Map_set_distinct.
    + unfold preload_rest. destruct (fetch_json o); [|exact H].
      cbn. now apply Map_set_distinct.
  - unfold preloadCachingFetch.
    destruct (cacheManager.has (cache w) url); exact H.
  - unfold initializeCache, cacheManager.initialize.
    destruct (JSON_parse s) as [v|]; [|exact H].
    destruct (new_Map v) as [m|e] eqn:E; [|exact H].
    cbn. now apply (new_Map_distinct v).
  - reflexivity.
Qed.

Lemma run_keys_distinct events :
  forall w, Map_keys_distinct (cache w) = true ->
            Map_keys_distinct (cache (run w events)) = true.
Proof.
  induction events as [|e events IH]; intros w Hw; [exact Hw|].
  apply IH, cache_unchanged_distinct, Hw.
Qed.

(** X5.  Whatever happens to the module, the cache never holds two
    entries for one key. *)
Theorem cache_keys_distinct (events : list Event) :
  Map_keys_distinct (cache (run initial_world events)) = true.
Proof. apply run_keys_distinct. reflexivity. Qed.

(* ================================================================== *)
(** ** More on the hook and the preloader *)
(* ================================================================== *)

(** The effect of a mounted component whose key is in the cache: no
    fetch, and the cached value is returned. *)
Lemma run_effect_cached c w h :
  nth_error (hooks w) c = Some h -> mounted h = true -> effect_due h = true ->
  cacheManager.has (cache w) (hook_url h) = true ->
  length (network (run_effect c w)) = length (network w)
  /\ cache (run_effect c w) = cache w
  /\ last_returned c (run_effect c w)
     = Some {| isLoading := false;
               data := cacheManager.get (cache w) (hook_url h);
               error := None |}.
Proof.
  intros Hh Hm Hd Hc. unfold run_effect. rewrite Hh, Hm, Hd. simpl.
  unfold effect_body.
  assert (Ec : cache (run_cleanup (cleanup h) w) = cache w)
    by now destruct (cleanup h).
  assert (Eh : hooks (run_cleanup (cleanup h) w) = hooks w)
    by now destruct (cleanup h).
  rewrite Ec, Hc. split; [|split; [exact Ec|]].
  - destruct (cleanup h); simpl; [apply length_update_nth|reflexivity].
  - unfold last_returned, effect_done, setState. cbn [hooks with_hooks].
    rewrite Eh.
    rewrite (nth_error_update_nth_same c _ _ _
               (nth_error_update_nth_same c _ _ _ Hh)).
    cbn [returned]. now rewrite last_last.
Qed.

Lemma useCachingFetch_new w K :
  useCachingFetch (length (hooks w)) K w
  = with_hooks w
      (hooks w ++ [{| hook_url := K; state := initial_state;
                      returned := [initial_state];
                      effect_due := true; cleanup := None;
                      mounted := true |}]).
Proof.
  unfold useCachingFetch.
  rewrite (proj2 (nth_error_None (hooks w) (length (hooks w))) (le_n _)).
  now rewrite Nat.eqb_refl.
Qed.

(** A key in the cache and a new component: the render, then the effect. *)
Lemma new_component_cached w K :
  cacheManager.has (cache w) K = true ->
  length (network (run_effect (length (hooks w))
                     (useCachingFetch (length (hooks w)) K w)))
  = length (network w)
  /\ last_returned (length (hooks w))
       (run_effect (length (hooks w)) (useCachingFetch (length (hooks w)) K w))
     = Some {| isLoading := false; data := cacheManager.get (cache w) K;
               error := None |}.
Proof.
  intros Hhas. rewrite useCachingFetch_new.
  destruct (run_effect_cached (length (hooks w))
              (with_hooks w
                 (hooks w ++ [{| hook_url := K; state := initial_state;
                                 returned := [initial_state];
                                 effect_due := true; cleanup := None;
                                 mounted := true |}]))
              {| hook_url := K; state := initial_state;
                 returned := [initial_state];
                 effect_due := true; cleanup := None; mounted := true |})
    as (H1 & _ & H3); try reflexivity.
  - cbn [hooks with_hooks]. apply nth_error_snoc.
  - exact Hhas.
  - split; [exact H1|exact H3].
Qed.

Lemma settle_hook_request w id c K o :
  nth_error (network w) id = Some (new_request K (HookContinuation c true)) ->
  settle id o w
  = hook_callbacks c true K (fetch_json o)
      (with_network w (update_nth id mark_settled (network w))).
Proof. intros H. unfold settle. now rewrite H. Qed.

(** X6.  When the fetch of a mounted component for [K] is answered with a
    success status and a JSON body, the data is set in the cache under [K]
    and the hook returns it with [isLoading: false] and no error; a
    component that asks for [K] afterwards gets the data from the cache,
    without a fetch. *)
Theorem fetched_data_cached_and_returned (w : World) (id c : nat)
  (K : jsstring) (h : Hook) (response : Response) (d : value) :
  nth_error (network w) id = Some (new_request K (HookContinuation c true)) ->
  nth_error (hooks w) c = Some h ->
  ok response = true ->
  JSON_parse (body response) = Some d ->
  hook_state c (settle id (Responds response) w)
  = Some {| isLoading := false; data := d; error := None |}
  /\ last_returned c (settle id (Responds response) w)
     = Some {| isLoading := false; data := d; error := None |}
  /\ cache (settle id (Responds response) w) = cacheManager.set (cache w) K d
  /\ cacheManager.get (cache (settle id (Responds response) w)) K = d
  /\ length (network
               (run_effect (length (hooks (settle id (Responds response) w)))
                  (useCachingFetch
                     (length (hooks (settle id (Responds response) w))) K
                     (settle id (Responds response) w))))
     = length (network w)
  /\ last_returned (length (hooks (settle id (Responds response) w)))
       (run_effect (length (hooks (settle id (Responds response) w)))
          (useCachingFetch
             (length (hooks (settle id (Responds response) w))) K
             (settle id (Responds response) w)))
     = Some {| isLoading := false; data := d; error := None |}.
Proof.
  intros Hrq Hh Hok Hd.
  rewrite (settle_hook_request w id c K _ Hrq).
  unfold fetch_json, json. rewrite Hok, Hd. cbn [negb hook_callbacks].
  set (w1 := with_cache
               (with_network w (update_nth id mark_settled (network w)))
               (cacheManager.set
                  (cache (with_network w
                            (update_nth id mark_settled (network w)))) K d)).
  assert (Hh1 : nth_error (hooks w1) c = Some h) by exact Hh.
  destruct (hook_state_setState c
              {| isLoading := false; data := d; error := None |} w1 h Hh1)
    as [Hs Hl].
  set (w2 := setState c {| isLoading := false; data := d; error := None |} w1)
    in *.
  assert (Hc : cache w2 = cacheManager.set (cache w) K d) by reflexivity.
  assert (Hget : cacheManager.get (cache w2) K = d)
    by (rewrite Hc; apply Map_get_set_same).
  assert (Hhas : cacheManager.has (cache w2) K = true)
    by (rewrite Hc; apply Map_has_set_same).
  destruct (new_component_cached w2 K Hhas) as [Hn Hr].
  rewrite Hget in Hr.
  repeat split; try assumption.
  rewrite Hn. unfold w2, w1. cbn. apply length_update_nth.
Qed.

Lemma fetched_data_cached_and_returned_witness :
  cacheManager.get (cache (settle 0 people_response fetching_people)) people
  = people_data.
Proof.
  apply (fetched_data_cached_and_returned fetching_people 0 0 people
           fetching_hook {| status := 200; body := people_body |} people_data);
    vm_compute; reflexivity.
Defined.

(** X7.  When the fetch of a mounted component fails for another reason
    than the status (the request itself is rejected, or the body of a
    response with a success status is not a JSON text), the hook returns
    [isLoading: false], [data: null] and the error thrown, and the cache
    is unchanged. *)
Theorem rejected_or_malformed_fetch_reported (w : World) (id c : nat)
  (K : jsstring) (h : Hook) (o : Outcome) :
  nth_error (network w) id = Some (new_request K (HookContinuation c true)) ->
  nth_error (hooks w) c = Some h ->
  match o with
  | Rejects => True
  | Responds response =>
      ok response = true /\ JSON_parse (body response) = None
  end ->
  hook_state c (settle id o w)
  = Some {| isLoading := false; data := VNull;
            error := Some match o with
                          | Rejects => TypeError
                          | Responds _ => SyntaxError
                          end |}
  /\ cache (settle id o w) = cache w.
Proof.
  intros Hrq Hh Ho.
  rewrite (settle_hook_request w id c K _ Hrq).
  assert (E : fetch_json o
              = Throw match o with
                      | Rejects => TypeError
                      | Responds _ => SyntaxError
                      end).
  { destruct o as [response|]; [|reflexivity].
    destruct Ho as [Hok Hb]. unfold fetch_json, json. now rewrite Hok, Hb. }
  rewrite E. cbn [hook_callbacks].
  split; [|reflexivity].
  apply (hook_state_setState c _
           (with_network w (update_nth id mark_settled (network w))) h Hh).
Qed.

Lemma rejected_or_malformed_fetch_reported_witness :
  hook_state 0 (settle 0 (Responds {| status := 200; body := js "<html>" |})
                  fetching_people)
  = Some {| isLoading := false; data := VNull; error := Some SyntaxError |}.
Proof.
  apply (rejected_or_malformed_fetch_reported fetching_people 0 0 people
           fetching_hook (Responds {| status := 200; body := js "<html>" |}));
    vm_compute; auto.
Defined.

(** X8.  A response for the previous [url] never reaches the component:
    once the component has rendered with another [url] and its effect has
    run, the settlement of the fetch made for the previous [url] changes
    neither the cache nor any state. *)
Theorem previous_url_fetch_discarded (w : World) (c id : nat)
  (K1 K2 : jsstring) (h : Hook) (o : Outcome) :
  nth_error (hooks w) c = Some h ->
  mounted h = true ->
  hook_url h = K1 ->
  cleanup h = Some id ->
  nth_error (network w) id = Some (new_request K1 (HookContinuation c true)) ->
  K2 <> K1 ->
  cache (settle id o (run_effect c (useCachingFetch c K2 w)))
  = cache (run_effect c (useCachingFetch c K2 w))
  /\ hooks (settle id o (run_effect c (useCachingFetch c K2 w)))
     = hooks (run_effect c (useCachingFetch c K2 w)).
Proof.
  intros Hh Hm Hu Hcl Hrq Hne.
  set (h1 := {| hook_url := K2; state := state h;
                returned := returned h ++ [state h];
                effect_due := effect_due h || negb (jsstring_eqb (hook_url h) K2);
                cleanup := cleanup h; mounted := true |}).
  assert (Hw1 : nth_error (hooks (useCachingFetch c K2 w)) c = Some h1
                /\ network (useCachingFetch c K2 w) = network w).
  { unfold useCachingFetch. rewrite Hh, Hm. cbn [hooks with_hooks network].
    split; [|reflexivity].
    exact (nth_error_update_nth_same c _ (hooks w) h Hh). }
  destruct Hw1 as [Hh1 Hn1].
  assert (Hdue : effect_due h1 = true).
  { unfold h1. cbn [effect_due]. rewrite Hu.
    destruct (jsstring_eqb_spec K1 K2); [congruence|].
    apply orb_true_r. }
  assert (Hrq2 : nth_error (network (run_effect c (useCachingFetch c K2 w))) id
                 = Some {| request_url := K1;
                           continuation := HookContinuation c false;
                           settled := false |}).
  { unfold run_effect. rewrite Hh1, Hdue. cbn [mounted h1 andb cleanup].
    rewrite Hcl. unfold run_cleanup. rewrite Hn1.
    assert (Hc : nth_error (update_nth id clear_isMounted (network w)) id
                 = Some {| request_url := K1;
                           continuation := HookContinuation c false;
                           settled := false |})
      by exact (nth_error_update_nth_same id clear_isMounted _ _ Hrq).
    unfold effect_body. cbn [cache with_network].
    destruct (cacheManager.has (cache (useCachingFetch c K2 w)) (hook_url h1)).
    - exact Hc.
    - cbn [network effect_done fetch setState with_hooks with_network].
      now apply nth_error_app_left. }
  unfold settle. rewrite Hrq2. cbn [settled continuation hook_callbacks].
  destruct (fetch_json o); split; reflexivity.
Qed.

Lemma previous_url_fetch_discarded_witness :
  cache (settle 0 people_response
           (run_effect 0 (useCachingFetch 0 (js "/planets") fetching_people)))
  = cache (run_effect 0 (useCachingFetch 0 (js "/planets") fetching_people)).
Proof.
  apply (previous_url_fetch_discarded fetching_people 0 0 people
           (js "/planets") fetching_hook people_response);
    vm_compute; try reflexivity; discriminate.
Defined.

(** X9.  A component that renders again with the same [url] does not
    fetch again: the effect is not due, the hook returns the state it
    holds, and neither the network nor the cache changes. *)
Theorem same_url_render_no_fetch (w : World) (c : nat) (h : Hook) :
  nth_error (hooks w) c = Some h ->
  mounted h = true ->
  effect_due h = false ->
  run_effect c (useCachingFetch c (hook_url h) w)
  = useCachingFetch c (hook_url h) w
  /\ network (useCachingFetch c (hook_url h) w) = network w
  /\ cache (useCachingFetch c (hook_url h) w) = cache w
  /\ last_returned c (useCachingFetch c (hook_url h) w) = Some (state h).
Proof.
  intros Hh Hm Hd.
  set (h1 := {| hook_url := hook_url h; state := state h;
                returned := returned h ++ [state h];
                effect_due := effect_due h
                              || negb (jsstring_eqb (hook_url h) (hook_url h));
                cleanup := cleanup h; mounted := true |}).
  assert (Hh1 : nth_error (hooks (useCachingFetch c (hook_url h) w)) c = Some h1).
  { unfold useCachingFetch. rewrite Hh, Hm. cbn [hooks with_hooks].
    exact (nth_error_update_nth_same c _ (hooks w) h Hh). }
  assert (Hdue : effect_due h1 = false).
  { unfold h1. cbn [effect_due]. now rewrite Hd, jsstring_eqb_refl. }
  split; [|split; [|split]].
  - unfold run_effect. rewrite Hh1, Hdue. now rewrite andb_false_r.
  - unfold useCachingFetch. now rewrite Hh, Hm.
  - unfold useCachingFetch. now rewrite Hh, Hm.
  - unfold last_returned. rewrite Hh1. unfold h1. cbn [returned].
    now rewrite last_last.
Qed.

Lemma same_url_render_no_fetch_witness :
  network (useCachingFetch 0 people fetching_people) = network fetching_people.
Proof.
  apply (same_url_render_no_fetch fetching_people 0 fetching_hook);
    vm_compute; reflexivity.
Defined.

Lemma preload_success w K response d :
  cacheManager.has (cache w) K = false ->
  ok response = true ->
  JSON_parse (body response) = Some d ->
  cache (settle (length (network w)) (Responds response)
           (preloadCachingFetch K w))
  = cacheManager.set (cache w) K d
  /\ length (network (settle (length (network w)) (Responds response)
                        (preloadCachingFetch K w)))
     = S (length (network w))
  /\ promises (settle (length (network w)) (Responds response)
                 (preloadCachingFetch K w))
     = promises w ++ [Fulfilled].
Proof.
  intros Hhas Hok Hd. unfold preloadCachingFetch. rewrite Hhas.
  unfold settle, fetch. cbn [network with_network with_promises].
  rewrite nth_error_snoc. cbn [settled continuation request_url].
  unfold preload_rest, settle_promise, fetch_json, json.
  rewrite Hok, Hd. cbn [negb].
  cbn [network with_network with_promises with_cache promises cache].
  rewrite length_update_nth, length_app, update_nth_snoc. cbn [length].
  repeat split. lia.
Qed.

(** X10.  Once [preloadCachingFetch(K)] has succeeded, [K] is not fetched
    again: another call of [preloadCachingFetch(K)] resolves at once, and
    a new component that renders with [K] is returned the preloaded data
    after its effect, both without a call of [fetch]. *)
Theorem preloaded_key_not_fetched_again (w : World) (K : jsstring)
  (response : Response) (d : value) :
  cacheManager.has (cache w) K = false ->
  ok response = true ->
  JSON_parse (body response) = Some d ->
  network (preloadCachingFetch K
             (settle (length (network w)) (Responds response)
                (preloadCachingFetch K w)))
  = network (settle (length (network w)) (Responds response)
               (preloadCachingFetch K w))
  /\ promises (preloadCachingFetch K
                 (settle (length (network w)) (Responds response)
                    (preloadCachingFetch K w)))
     = promises w ++ [Fulfilled; Fulfilled]
  /\ length (network
               (run_effect
                  (length (hooks w))
                  (useCachingFetch (length (hooks w)) K
                     (settle (length (network w)) (Responds response)
                        (preloadCachingFetch K w)))))
     = S (length (network w))
  /\ last_returned (length (hooks w))
       (run_effect
          (length (hooks w))
          (useCachingFetch (length (hooks w)) K
             (settle (length (network w)) (Responds response)
                (preloadCachingFetch K w))))
     = Some {| isLoading := false; data := d; error := None |}.
Proof.
  intros Hhas Hok Hd.
  destruct (preload_success w K response d Hhas Hok Hd) as (Hc & Hn & Hp).
  set (w2 := settle (length (network w)) (Responds response)
               (preloadCachingFetch K w)) in *.
  assert (Hhas2 : cacheManager.has (cache w2) K = true)
    by (rewrite Hc; apply Map_has_set_same).
  assert (Hget2 : cacheManager.get (cache w2) K = d)
    by (rewrite Hc; apply Map_get_set_same).
  assert (Hh2 : hooks w2 = hooks w).
  { unfold w2, preloadCachingFetch. rewrite Hhas.
    unfold settle, fetch. cbn [network with_network with_promises].
    rewrite nth_error_snoc. cbn [settled continuation request_url].
    unfold preload_rest, fetch_json, json. rewrite Hok, Hd. reflexivity. }
  destruct (new_component_cached w2 K Hhas2) as [Hn2 Hr2].
  rewrite Hh2, Hget2 in *.
  split; [|split; [|split]].
  - unfold preloadCachingFetch at 1. now rewrite Hhas2.
  - unfold preloadCachingFetch at 1. rewrite Hhas2. cbn [promises with_promises].
    rewrite Hp, <- app_assoc. reflexivity.
  - now rewrite Hn2.
  - exact Hr2.
Qed.

Lemma preloaded_key_not_fetched_again_witness :
  last_returned 0
    (run_effect 0
       (useCachingFetch 0 people
          (settle 0 people_response (preloadCachingFetch people initial_world))))
  = Some {| isLoading := false; data := people_data; error := None |}.
Proof.
  apply (preloaded_key_not_fetched_again initial_world people
           {| status := 200; body := people_body |} people_data);
    vm_compute; reflexivity.
Defined.

(** X11.  [preloadCachingFetch] does not share a pending fetch either: two
    calls for a key the cache does not have, the second one made before
    the first fetch settles, call [fetch] twice. *)
Theorem two_preloads_two_fetches (w : World) (K : jsstring) :
  cacheManager.has (cache w) K = false ->
  network (preloadCachingFetch K (preloadCachingFetch K w))
  = network w
    ++ [new_request K (PreloadContinuation (length (promises w)));
        new_request K (PreloadContinuation (S (length (promises w))))]
  /\ promises (preloadCachingFetch K (preloadCachingFetch K w))
     = promises w ++ [Pending; Pending].
Proof.
  intros Hhas.
  assert (H1 : preloadCachingFetch K w
               = fetch K (PreloadContinuation (length (promises w)))
                   (with_promises w (promises w ++ [Pending])))
    by (unfold preloadCachingFetch; now rewrite Hhas).
  rewrite H1. unfold preloadCachingFetch.
  cbn [cache fetch with_network with_promises]. rewrite Hhas.
  cbn [network promises fetch with_network with_promises].
  rewrite length_app, <- !app_assoc. cbn [length app].
  rewrite Nat.add_1_r. split; reflexivity.
Qed.

Lemma two_preloads_two_fetches_witness :
  network (preloadCachingFetch people (preloadCachingFetch people initial_world))
  = [new_request people (PreloadContinuation 0);
     new_request people (PreloadContinuation 1)].
Proof.
  apply (two_preloads_two_fetches initial_world people). reflexivity.
Defined.

(** X12.  After [wipeCache()] every key is fetched anew: the next
    [preloadCachingFetch] and the next effect due call [fetch], whatever
    the cache held. *)
Theorem wiped_key_fetched_again (w : World) (c : nat) (h : Hook)
  (K : jsstring) :
  nth_error (hooks w) c = Some h ->
  mounted h = true ->
  effect_due h = true ->
  nth_error (network (run_effect c (wipeCache w))) (length (network w))
  = Some (new_request (hook_url h) (HookContinuation c true))
  /\ network (preloadCachingFetch K (wipeCache w))
     = network w ++ [new_request K (PreloadContinuation (length (promises w)))].
Proof.
  intros Hh Hm Hd. split.
  - destruct (run_effect_fetches c (wipeCache w) h Hh Hm Hd eq_refl)
      as (_ & H & _). exact H.
  - reflexivity.
Qed.

Lemma wiped_key_fetched_again_witness :
  network (preloadCachingFetch people
             (wipeCache (useCachingFetch 0 people people_world)))
  = [new_request people (PreloadContinuation 0)].
Proof.
  apply (wiped_key_fetched_again (useCachingFetch 0 people people_world) 0
           {| hook_url := people; state := initial_state;
              returned := [initial_state];
              effect_due := true; cleanup := None; mounted := true |} people);
    reflexivity.
Defined.

(* ================================================================== *)
(** ** Invariants of the components *)
(* ================================================================== *)

(** A property of one component that its creation and every change of
    its record keep holds of all components, whatever happens. *)
Lemma hooks_invariant_step (P : Hook -> Prop) :
  (forall url,
      P {| hook_url := url; state := initial_state;
           returned := [initial_state];
           effect_due := true; cleanup := None; mounted := true |}) ->
  (forall h url,
      P h ->
      P {| hook_url := url; state := state h;
           returned := returned h ++ [state h];
           effect_due := effect_due h || negb (jsstring_eqb (hook_url h) url);
           cleanup := cleanup h; mounted := true |}) ->
  (forall h d,
      P h ->
      P {| hook_url := hook_url h;
           state := {| isLoading := false; data := d; error := None |};
           returned := returned h
                       ++ [{| isLoading := false; data := d; error := None |}];
           effect_due := effect_due h; cleanup := cleanup h;
           mounted := mounted h |}) ->
  (forall h e,
      P h ->
      P {| hook_url := hook_url h;
           state := {| isLoading := false; data := VNull; error := Some e |};
           returned := returned h
                       ++ [{| isLoading := false; data := VNull;
                              error := Some e |}];
           effect_due := effect_due h; cleanup := cleanup h;
           mounted := mounted h |}) ->
  (forall h,
      P h ->
      P {| hook_url := hook_url h;
           state := {| isLoading := true; data := VNull; error := None |};
           returned := returned h
                       ++ [{| isLoading := true; data := VNull; error := None |}];
           effect_due := effect_due h; cleanup := cleanup h;
           mounted := mounted h |}) ->
  (forall h cl,
      P h ->
      P {| hook_url := hook_url h; state := state h; returned := returned h;
           effect_due := false; cleanup := cl; mounted := mounted h |}) ->
  (forall h,
      P h ->
      P {| hook_url := hook_url h; state := state h; returned := returned h;
           effect_due := false; cleanup := None; mounted := false |}) ->
  forall w e, Forall P (hooks w) -> Forall P (hooks (step w e)).
Proof.
  intros Hnew Hrender Hres Hfail Hload Hdone Hunm w e H.
  assert (Hset_res : forall c d w', Forall P (hooks w') ->
            Forall P (hooks (setState c
                               {| isLoading := false; data := d; error := None |}
                               w'))).
  { intros c d w' H'. unfold setState. cbn [hooks with_hooks].
    apply Forall_update_nth; [|exact H']. intros h. apply Hres. }
  assert (Hdone' : forall c cl w', Forall P (hooks w') ->
            Forall P (hooks (effect_done c cl w'))).
  { intros c cl w' H'. unfold effect_done. cbn [hooks with_hooks].
    apply Forall_update_nth; [|exact H']. intros h. apply Hdone. }
  assert (Hclean : forall cl, hooks (run_cleanup cl w) = hooks w)
    by (now intros [id|]).
  destruct e as [c url|c|c|id o|url|s|]; cbn [step].
  - unfold useCachingFetch. destruct (nth_error (hooks w) c) as [h|].
    + destruct (mounted h); [|exact H]. cbn [hooks with_hooks].
      apply Forall_update_nth; [|exact H]. intros h'. apply Hrender.
    + destruct (Nat.eqb c (length (hooks w))); [|exact H].
      cbn [hooks with_hooks]. apply Forall_app. split; [exact H|].
      constructor; [apply Hnew|constructor].
  - unfold run_effect. destruct (nth_error (hooks w) c) as [h|]; [|exact H].
    destruct (mounted h && effect_due h); [|exact H].
    unfold effect_body.
    destruct (cacheManager.has (cache (run_cleanup (cleanup h) w)) (hook_url h)).
    + apply Hdone', Hset_res. now rewrite Hclean.
    + apply Hdone'. unfold fetch, setState. cbn [hooks with_hooks with_network].
      apply Forall_update_nth; [|now rewrite Hclean]. intros h'. apply Hload.
  - unfold unmount. destruct (nth_error (hooks w) c) as [h|]; [|exact H].
    destruct (mounted h); [|exact H]. cbn [hooks with_hooks].
    apply Forall_update_nth; [|exact H]. intros h'. apply Hunm.
  - unfold settle. destruct (nth_error (network w) id) as [rq|]; [|exact H].
    destruct (settled rq); [exact H|].
    destruct (continuation rq) as [c isMounted|p].
    + unfold hook_callbacks.
      destruct (fetch_json o) as [d|e], isMounted; try exact H.
      * apply Hset_res. exact H.
      * unfold setState. cbn [hooks with_hooks with_network].
        apply Forall_update_nth; [|exact H]. intros h'. apply Hfail.
    + unfold preload_rest. destruct (fetch_json o); exact H.
  - unfold preloadCachingFetch.
    destruct (cacheManager.has (cache w) url); exact H.
  - unfold initializeCache.
    destruct (cacheManager.initialize (cache w) s); exact H.
  - exact H.
Qed.

Lemma hooks_invariant_run (P : Hook -> Prop) :
  (forall w e, Forall P (hooks w) -> Forall P (hooks (step w e))) ->
  forall events w, Forall P (hooks w) -> Forall P (hooks (run w events)).
Proof.
  intros Hstep events. induction events as [|e events IH]; intros w H;
    [exact H|]. apply IH, Hstep, H.
Qed.

Lemma Forall_app_one {A} (P : A -> Prop) l x :
  Forall P l -> P x -> Forall P (l ++ [x]).
Proof. intros Hl Hx. apply Forall_app. split; [exact Hl|now constructor]. Qed.

(** X13.  Whatever happens to the module, the first object the hook
    returns to a component is the loading state, and every object it
    returns with [isLoading: true] has [data] and [error] null. *)
Theorem loading_states_returned (events : list Event) (c : nat) (h : Hook) :
  nth_error (hooks (run initial_world events)) c = Some h ->
  hd_error (returned h) = Some initial_state
  /\ loading_carries_nothing (state h)
  /\ Forall loading_carries_nothing (returned h).
Proof.
  intros Hh.
  assert (H : Forall (fun h => hd_error (returned h) = Some initial_state
                               /\ loading_carries_nothing (state h)
                               /\ Forall loading_carries_nothing (returned h))
                     (hooks (run initial_world events))).
  { assert (Hload : loading_carries_nothing initial_state)
      by (intros _; split; reflexivity).
    assert (Hnot : forall d e,
               loading_carries_nothing
                 {| isLoading := false; data := d; error := e |})
      by (intros d e Hd; discriminate Hd).
    assert (Hhd : forall (l : list State) s,
               hd_error l = Some initial_state ->
               hd_error (l ++ [s]) = Some initial_state)
      by (intros [|x l] s Hl; [discriminate|exact Hl]).
    apply hooks_invariant_run; [|constructor].
    apply hooks_invariant_step.
    - intros url. cbn [returned state]. split; [reflexivity|].
      split; [exact Hload|]. constructor; [exact Hload|constructor].
    - intros h' url (H1 & H2 & H3). cbn [returned state].
      split; [now apply Hhd|]. split; [exact H2|now apply Forall_app_one].
    - intros h' d (H1 & H2 & H3). cbn [returned state].
      split; [now apply Hhd|]. split; [apply Hnot|].
      apply Forall_app_one; [exact H3|apply Hnot].
    - intros h' e (H1 & H2 & H3). cbn [returned state].
      split; [now apply Hhd|]. split; [apply Hnot|].
      apply Forall_app_one; [exact H3|apply Hnot].
    - intros h' (H1 & H2 & H3). cbn [returned state].
      split; [now apply Hhd|]. split; [exact Hload|].
      apply Forall_app_one; [exact H3|exact Hload].
    - intros h' cl H'. exact H'.
    - intros h' H'. exact H'. }
  rewrite Forall_forall in H. exact (H h (nth_error_In _ _ Hh)).
Qed.

Lemma loading_states_returned_witness :
  hd_error (returned fetching_hook) = Some initial_state.
Proof.
  apply (loading_states_returned [Render 0 people; RunEffect 0] 0 fetching_hook).
  vm_compute. reflexivity.
Defined.

(* ================================================================== *)
(** ** One live fetch per component *)
(* ================================================================== *)

Lemma owns_update hs c0 f c id :
  (forall h, mounted h = true ->
             mounted (f h) = true /\ cleanup (f h) = cleanup h) ->
  owns hs c id -> owns (update_nth c0 f hs) c id.
Proof.
  intros Hf (h & Hh & Hm & Hc). destruct (Nat.eq_dec c0 c) as [->|Hne].
  - exists (f h). rewrite (nth_error_update_nth_same c f hs h Hh).
    destruct (Hf h Hm) as [H1 H2]. now rewrite H1, H2.
  - exists h. now rewrite (nth_error_update_nth_other c0 c f hs Hne).
Qed.

Lemma owns_update_other hs c0 f c id :
  c <> c0 -> owns hs c id -> owns (update_nth c0 f hs) c id.
Proof.
  intros Hne (h & Hh & Hm & Hc). exists h.
  rewrite (nth_error_update_nth_other c0 c f hs); [now repeat split|congruence].
Qed.

Lemma clear_isMounted_not_live c rq : ~ is_live c (clear_isMounted rq).
Proof.
  unfold is_live, clear_isMounted. cbn [continuation].
  destruct (continuation rq); discriminate.
Qed.

(** After the cleanup function of component [c0] has run, a fetch that is
    still live was live before, and belongs to another component. *)
Lemma live_after_cleanup w c0 h0 id rq c :
  live_requests_owned w ->
  nth_error (hooks w) c0 = Some h0 ->
  nth_error (network (run_cleanup (cleanup h0) w)) id = Some rq ->
  is_live c rq ->
  c <> c0 /\ owns (hooks w) c id.
Proof.
  intros Hinv Hh0 Hrq Hlive.
  assert (Hold : nth_error (network w) id = Some rq
                 /\ cleanup h0 <> Some id).
  { destruct (cleanup h0) as [id0|]; [|split; [exact Hrq|discriminate]].
    cbn [run_cleanup network with_network] in Hrq.
    apply nth_error_update_nth_inv in Hrq. destruct Hrq as (x & Hx & ->).
    destruct (Nat.eqb_spec id id0) as [->|Hne].
    - exfalso. exact (clear_isMounted_not_live c x Hlive).
    - split; [exact Hx|congruence]. }
  destruct Hold as [Hrq' Hcl].
  pose proof (Hinv id rq c Hrq' Hlive) as Ho. split; [|exact Ho].
  intros ->. destruct Ho as (h & Hh & _ & Hc). congruence.
Qed.

Lemma live_requests_owned_step w e :
  live_requests_owned w -> live_requests_owned (step w e).
Proof.
  intros Hinv. destruct e as [c0 url|c0|c0|id0 o|url|s|]; cbn [step].
  - (* a render *)
    unfold useCachingFetch. destruct (nth_error (hooks w) c0) as [h0|] eqn:Hh0.
    + destruct (mounted h0) eqn:Hm0; [|exact Hinv].
      intros id rq c Hrq Hlive. cbn [hooks network with_hooks] in *.
      apply owns_update; [|now apply (Hinv id rq c)].
      intros h Hm. now split.
    + destruct (Nat.eqb c0 (length (hooks w))); [|exact Hinv].
      intros id rq c Hrq Hlive. cbn [hooks network with_hooks] in *.
      destruct (Hinv id rq c Hrq Hlive) as (h & Hh & Hm & Hc).
      exists h. split; [now apply nth_error_app_left|now split].
  - (* the effect *)
    unfold run_effect. destruct (nth_error (hooks w) c0) as [h0|] eqn:Hh0;
      [|exact Hinv].
    destruct (mounted h0) eqn:Hm0; [|exact Hinv].
    destruct (effect_due h0); [|exact Hinv]. cbn [andb].
    assert (Hhooks : hooks (run_cleanup (cleanup h0) w) = hooks w)
      by now destruct (cleanup h0).
    unfold effect_body.
    destruct (cacheManager.has (cache (run_cleanup (cleanup h0) w)) (hook_url h0)).
    + intros id rq c Hrq Hlive.
      cbn [hooks network effect_done setState with_hooks] in *.
      destruct (live_after_cleanup w c0 h0 id rq c Hinv Hh0 Hrq Hlive)
        as [Hne Ho].
      rewrite Hhooks. now apply owns_update_other, owns_update_other.
    + intros id rq c Hrq Hlive.
      cbn [hooks network effect_done setState fetch with_hooks with_network]
        in *.
      rewrite Hhooks.
      apply nth_error_snoc_inv in Hrq. destruct Hrq as [Hrq|[-> ->]].
      * destruct (live_after_cleanup w c0 h0 id rq c Hinv Hh0 Hrq Hlive)
          as [Hne Ho].
        now apply owns_update_other, owns_update_other.
      * injection Hlive as <-.
        eexists. split.
        { apply nth_error_update_nth_same, nth_error_update_nth_same.
          exact Hh0. }
        cbn [mounted cleanup]. now split.
  - (* the component is unmounted *)
    unfold unmount. destruct (nth_error (hooks w) c0) as [h0|] eqn:Hh0;
      [|exact Hinv].
    destruct (mounted h0); [|exact Hinv].
    intros id rq c Hrq Hlive. cbn [hooks network with_hooks] in *.
    destruct (live_after_cleanup w c0 h0 id rq c Hinv Hh0 Hrq Hlive)
      as [Hne Ho].
    now apply owns_update_other.
  - (* a fetch settles *)
    unfold settle. destruct (nth_error (network w) id0) as [rq0|] eqn:Hrq0;
      [|exact Hinv].
    destruct (settled rq0); [exact Hinv|].
    assert (Hold : forall id rq c,
               nth_error (update_nth id0 mark_settled (network w)) id = Some rq ->
               is_live c rq -> owns (hooks w) c id).
    { intros id rq c Hrq Hlive.
      apply nth_error_update_nth_inv in Hrq. destruct Hrq as (x & Hx & ->).
      apply (Hinv id x c Hx).
      now destruct (Nat.eqb id id0). }
    assert (Hset : forall c1 s1 w1,
               hooks w1 = hooks w ->
               network w1 = update_nth id0 mark_settled (network w) ->
               live_requests_owned (setState c1 s1 w1)).
    { intros c1 s1 w1 Hh1 Hn1 id rq c Hrq Hlive.
      cbn [hooks network setState with_hooks] in *. rewrite Hn1 in Hrq.
      rewrite Hh1. apply owns_update; [|now apply (Hold id rq c)].
      intros h Hm. now split. }
    destruct (continuation rq0) as [c1 isMounted|p].
    + unfold hook_callbacks.
      destruct (fetch_json o) as [d|e], isMounted;
        try (intros id rq c Hrq Hlive; now apply (Hold id rq c));
        now apply Hset.
    + unfold preload_rest.
      destruct (fetch_json o); intros id rq c Hrq Hlive;
        now apply (Hold id rq c).
  - (* a preload *)
    unfold preloadCachingFetch.
    destruct (cacheManager.has (cache w) url); [exact Hinv|].
    intros id rq c Hrq Hlive.
    cbn [hooks network fetch with_network with_promises] in *.
    apply nth_error_snoc_inv in Hrq. destruct Hrq as [Hrq|[-> ->]].
    + now apply (Hinv id rq c).
    + discriminate Hlive.
  - unfold initializeCache.
    destruct (cacheManager.initialize (cache w) s); exact Hinv.
  - exact Hinv.
Qed.

Lemma live_requests_owned_run events :
  forall w, live_requests_owned w -> live_requests_owned (run w events).
Proof.
  induction events as [|e events IH]; intros w H; [exact H|].
  apply IH, live_requests_owned_step, H.
Qed.

(** X14.  Whatever happens to the module, a component has at most one
    fetch whose callbacks can still change its state: two fetches of one
    component with [isMounted] true are the same fetch, the component is
    mounted, and the cleanup function it holds is the one of that fetch. *)
Theorem one_live_fetch_per_component (events : list Event) (c id1 id2 : nat)
  (rq1 rq2 : Request) :
  nth_error (network (run initial_world events)) id1 = Some rq1 ->
  nth_error (network (run initial_world events)) id2 = Some rq2 ->
  is_live c rq1 ->
  is_live c rq2 ->
  id1 = id2 /\ owns (hooks (run initial_world events)) c id1.
Proof.
  intros H1 H2 L1 L2.
  assert (Hinv : live_requests_owned (run initial_world events)).
  { apply live_requests_owned_run. intros id rq c' Hrq.
    destruct id; discriminate Hrq. }
  pose proof (Hinv id1 rq1 c H1 L1) as O1.
  pose proof (Hinv id2 rq2 c H2 L2) as O2.
  split; [|exact O1].
  destruct O1 as (h & Hh & _ & Hc), O2 as (h' & Hh' & _ & Hc'). congruence.
Qed.

Lemma one_live_fetch_per_component_witness :
  owns (hooks fetching_people) 0 0.
Proof.
  apply (one_live_fetch_per_component [Render 0 people; RunEffect 0] 0 0 0
           (new_request people (HookContinuation 0 true))
           (new_request people (HookContinuation 0 true)));
    reflexivity.
Defined.

(* ================================================================== *)
(** ** What the parser builds is JSON-representable *)
(* ================================================================== *)

Lemma digits_of_digit_cons c d :
  is_digit c = true -> digits_of_uint (digit_cons c d) = c :: digits_of_uint d.
Proof.
  unfold is_digit, digit_cons. intros H. apply andb_true_iff in H.
  destruct H as [H1 H2]. apply N.leb_le in H1. apply N.leb_le in H2.
  repeat match goal with
         | |- context [N.eqb c ?k] =>
             destruct (N.eqb_spec c k) as [->|?]; [reflexivity|]
         end.
  assert (c = 57) by lia. now subst.
Qed.

Lemma read_digits_all (s : jsstring) d :
  read_digits s = (d, []) -> s = digits_of_uint d.
Proof.
  revert d. induction s as [|c t IH]; simpl; intros d.
  - now intros [= <-].
  - destruct (is_digit c) eqn:Hc; [|discriminate].
    destruct (read_digits t) as [d' r] eqn:E. intros [= <- ->].
    now rewrite (digits_of_digit_cons c d' Hc), (IH d' eq_refl).
Qed.

(** An array index is the key that prints it. *)
Lemma array_index_to_string k n : array_index k = Some n -> k = N_to_string n.
Proof.
  unfold array_index, parse_nat.
  destruct (read_digits k) as [d r] eqn:E.
  assert (H : forall (b : bool) (x : option (N * jsstring)),
             (if b then x else None) = None -> True) by trivial.
  assert (Hd : Decimal.uint_beq (Decimal.unorm d) d = true ->
               r = [] -> k = N_to_string (N.of_uint d)).
  { intros Hb ->. apply Decimal.internal_uint_dec_bl in Hb.
    unfold N_to_string. rewrite DecimalN.Unsigned.to_of, Hb.
    now apply read_digits_all. }
  destruct d; try discriminate;
    (destruct (Decimal.uint_beq _ _) eqn:Hb; [|discriminate]);
    (destruct r; [|discriminate]);
    (destruct (_ <? _); [|discriminate]);
    intros [= <-]; now apply Hd.
Qed.

Lemma array_index_inj k k' n :
  array_index k = Some n -> array_index k' = Some n -> k = k'.
Proof.
  intros H H'. apply array_index_to_string in H, H'. congruence.
Qed.

Lemma obj_has_keys k o : obj_has k o = existsb (fun k' => jsstring_eqb k' k) (map fst o).
Proof. induction o as [|[k' v'] o IH]; simpl; [reflexivity|]. now rewrite IH. Qed.

Lemma obj_replace_keys k v o : map fst (obj_replace k v o) = map fst o.
Proof.
  induction o as [|[k' v'] o IH]; simpl; [reflexivity|].
  destruct (jsstring_eqb k' k); simpl; [reflexivity|]. now rewrite IH.
Qed.

Lemma obj_insert_index_forallb (P : jsstring -> bool) n k v o :
  forallb P (map fst (obj_insert_index n k v o))
  = P k && forallb P (map fst o).
Proof.
  induction o as [|[k' v'] o IH]; simpl; [reflexivity|].
  destruct (array_index k') as [n'|]; [|reflexivity].
  destruct (n' <? n); [|reflexivity].
  simpl. rewrite IH. now rewrite !andb_assoc, (andb_comm (P k')).
Qed.

Lemma key_before_trans_new k k' x n :
  array_index k = Some n ->
  jsstring_eqb k x = false ->
  key_before k k' = true -> key_before k' x = true -> key_before k x = true.
Proof.
  unfold key_before. intros Hn Hne H1 H2. rewrite Hne, Hn in *. simpl.
  apply andb_true_iff in H1, H2. destruct H1 as [_ H1], H2 as [_ H2].
  destruct (array_index k') as [n'|], (array_index x) as [n''|];
    try reflexivity; try discriminate.
  apply N.ltb_lt in H1, H2. apply N.ltb_lt. lia.
Qed.

Lemma obj_insert_index_ordered n k v o :
  array_index k = Some n ->
  obj_has k o = false ->
  keys_ordered (map fst o) = true ->
  keys_ordered (map fst (obj_insert_index n k v o)) = true.
Proof.
  intros Hn. induction o as [|[k' v'] o IH]; simpl; intros Hhas Hord;
    [reflexivity|].
  apply orb_false_iff in Hhas. destruct Hhas as [Hne Hhas].
  apply andb_true_iff in Hord. destruct Hord as [Hall Hord].
  assert (Hne' : jsstring_eqb k k' = false) by now rewrite jsstring_eqb_sym.
  assert (Hfirst : forall b, (match array_index k' with
                              | Some n' => n' <? n
                              | None => false
                              end) = false ->
                   b = key_before k k' -> b = true).
  { intros b Hcase ->. unfold key_before. rewrite Hne', Hn. simpl.
    destruct (array_index k') as [n'|] eqn:Hn'; [|reflexivity].
    apply N.ltb_ge in Hcase. apply N.ltb_lt.
    assert (n <> n').
    { intros <-. pose proof (array_index_inj k k' n Hn Hn') as E.
      subst. now rewrite jsstring_eqb_refl in Hne. }
    lia. }
  assert (Hput : (match array_index k' with
                  | Some n' => n' <? n
                  | None => false
                  end) = false ->
                 keys_ordered (k :: k' :: map fst o) = true).
  { intros Hcase. pose proof (Hfirst _ Hcase eq_refl) as Hkk'.
    cbn [keys_ordered forallb]. rewrite Hkk', Hall, Hord, !andb_true_r.
    simpl. apply forallb_forall. intros x Hx.
    apply (key_before_trans_new k k' x n Hn); [|exact Hkk'|].
    - rewrite obj_has_keys in Hhas.
      destruct (jsstring_eqb k x) eqn:E; [|reflexivity].
      destruct (jsstring_eqb_spec k x); [subst|discriminate].
      assert (existsb (fun k' => jsstring_eqb k' x) (map fst o) = true)
        by (apply existsb_exists; exists x; split;
            [exact Hx|apply jsstring_eqb_refl]).
      congruence.
    - rewrite forallb_forall in Hall. now apply Hall. }
  destruct (array_index k') as [n'|] eqn:Hn'.
  - destruct (n' <? n) eqn:Hlt; [|now apply Hput].
    cbn [map fst keys_ordered]. rewrite (IH Hhas Hord), andb_true_r.
    rewrite obj_insert_index_forallb, Hall, andb_true_r.
    unfold key_before. rewrite Hne, Hn', Hn. exact Hlt.
  - now apply Hput.
Qed.

Lemma keys_ordered_snoc ks k :
  keys_ordered ks = true ->
  forallb (fun k' => key_before k' k) ks = true ->
  keys_ordered (ks ++ [k]) = true.
Proof.
  induction ks as [|x ks IH]; simpl; intros Hord Hall; [reflexivity|].
  apply andb_true_iff in Hord, Hall.
  destruct Hord as [Hx Hord], Hall as [Hxk Hall].
  rewrite (IH Hord Hall), andb_true_r, forallb_app, Hx. simpl.
  now rewrite Hxk.
Qed.

Lemma CreateDataProperty_ordered o k v :
  keys_ordered (map fst o) = true ->
  keys_ordered (map fst (CreateDataProperty o k v)) = true.
Proof.
  intros Hord. unfold CreateDataProperty.
  destruct (obj_has k o) eqn:Hhas; [now rewrite obj_replace_keys|].
  destruct (array_index k) as [n|] eqn:Hn.
  - now apply obj_insert_index_ordered.
  - rewrite map_app. cbn [map fst]. apply keys_ordered_snoc; [exact Hord|].
    apply forallb_forall. intros x Hx. unfold key_before. rewrite Hn.
    rewrite obj_has_keys in Hhas.
    destruct (jsstring_eqb x k) eqn:E.
    + assert (existsb (fun k' => jsstring_eqb k' k) (map fst o) = true)
        by (apply existsb_exists; now exists x).
      congruence.
    + simpl. now destruct (array_index x).
Qed.

Lemma CreateDataProperty_values (P : value -> bool) o k v :
  forallb (fun p => P (snd p)) o = true -> P v = true ->
  forallb (fun p => P (snd p)) (CreateDataProperty o k v) = true.
Proof.
  intros Ho Hv. unfold CreateDataProperty.
  destruct (obj_has k o).
  - induction o as [|[k' v'] o IH]; simpl in *; [reflexivity|].
    apply andb_true_iff in Ho. destruct Ho as [H1 H2].
    destruct (jsstring_eqb k' k); simpl; [now rewrite Hv, H2|].
    now rewrite H1, IH.
  - destruct (array_index k) as [n|].
    + induction o as [|[k' v'] o IH]; simpl in *; [now rewrite Hv|].
      apply andb_true_iff in Ho. destruct Ho as [H1 H2].
      destruct (array_index k') as [n'|]; [destruct (n' <? n)|]; simpl;
        rewrite ?Hv, ?H1, ?H2, ?IH; auto.
    + rewrite forallb_app, Ho. simpl. now rewrite Hv.
Qed.

Lemma build_object_data members :
  forallb (fun p => is_data (snd p)) members = true ->
  is_data (VObj (build_object members)) = true.
Proof.
  intros H. unfold build_object. cbn [is_data].
  assert (G : forall acc,
             keys_ordered (map fst acc) = true ->
             forallb (fun p => is_data (snd p)) acc = true ->
             keys_ordered
               (map fst (fold_left
                           (fun o m => CreateDataProperty o (fst m) (snd m))
                           members acc))
             && forallb (fun p => is_data (snd p))
                  (fold_left (fun o m => CreateDataProperty o (fst m) (snd m))
                     members acc) = true).
  { induction members as [|[k v] ms IH]; intros acc Hk Hv; simpl.
    - now rewrite Hk, Hv.
    - simpl in H. apply andb_true_iff in H. destruct H as [Hjv Hms].
      apply (IH Hms).
      + now apply CreateDataProperty_ordered.
      + now apply CreateDataProperty_values. }
  now apply G.
Qed.

Lemma parse_member_data pv (s k : jsstring) v r :
  (forall t v' r', pv t = Some (v', r') -> is_data v' = true) ->
  parse_member pv s = Some (k, v, r) -> is_data v = true.
Proof.
  intros Hpv. unfold parse_member.
  destruct (skip_ws s) as [|c t]; [discriminate|].
  destruct (c =? 34); [|discriminate].
  destruct (parse_chars t) as [[k' r1]|]; [|discriminate].
  destruct (skip_ws r1) as [|c2 r2]; [discriminate|].
  destruct (c2 =? 58); [|discriminate].
  destruct (pv r2) as [[v' r3]|] eqn:Ev; [|discriminate].
  intros [= _ <- _]. now apply (Hpv r2 v' r3).
Qed.

Lemma parse_data f :
  (forall (s : jsstring) v r,
      parse_value f s = Some (v, r) -> is_data v = true)
  /\ (forall (s : jsstring) vs r,
        parse_elements f s = Some (vs, r) -> forallb is_data vs = true)
  /\ (forall (s : jsstring) ms r,
        parse_members f s = Some (ms, r) ->
        forallb (fun p => is_data (snd p)) ms = true).
Proof.
  induction f as [|f (IHv & IHe & IHm)]; [repeat split; discriminate|].
  split; [|split]; intros s x r.
  - rewrite parse_value_unfold.
    destruct (skip_ws s) as [|c t]; [discriminate|].
    destruct (c =? 91).
    { destruct (skip_ws t) as [|c' r0]; [discriminate|].
      destruct (c' =? 93); [now intros [= <- _]|].
      destruct (parse_value f t) as [[v r1]|] eqn:E1; [|discriminate].
      destruct (parse_elements f r1) as [[vs r2]|] eqn:E2; [|discriminate].
      intros [= <- _]. cbn [is_data forallb].
      now rewrite (IHv _ _ _ E1), (IHe _ _ _ E2). }
    destruct (c =? 123).
    { destruct (skip_ws t) as [|c' r0]; [discriminate|].
      destruct (c' =? 125); [now intros [= <- _]|].
      destruct (parse_member (parse_value f) t) as [[[k v] r1]|] eqn:E1;
        [|discriminate].
      destruct (parse_members f r1) as [[ms r2]|] eqn:E2; [|discriminate].
      intros [= <- _]. apply build_object_data. cbn [forallb snd].
      now rewrite (parse_member_data _ _ _ _ _ IHv E1), (IHm _ _ _ E2). }
    destruct (c =? 34).
    { destruct (parse_chars t) as [[str r1]|]; [|discriminate].
      now intros [= <- _]. }
    destruct (c =? 110).
    { destruct (strip_prefix _ t); [|discriminate]. now intros [= <- _]. }
    destruct (c =? 116).
    { destruct (strip_prefix _ t); [|discriminate]. now intros [= <- _]. }
    destruct (c =? 102).
    { destruct (strip_prefix _ t); [|discriminate]. now intros [= <- _]. }
    destruct (parse_number (c :: t)) as [[n r1]|] eqn:En; [|discriminate].
    intros [= <- _]. cbn [is_data]. now apply parse_number_double in En.
  - rewrite parse_elements_unfold.
    destruct (skip_ws s) as [|c t]; [discriminate|].
    destruct (c =? 93); [now intros [= <- _]|].
    destruct (c =? 44); [|discriminate].
    destruct (parse_value f t) as [[v r1]|] eqn:E1; [|discriminate].
    destruct (parse_elements f r1) as [[vs r2]|] eqn:E2; [|discriminate].
    intros [= <- _]. cbn [forallb].
    now rewrite (IHv _ _ _ E1), (IHe _ _ _ E2).
  - rewrite parse_members_unfold.
    destruct (skip_ws s) as [|c t]; [discriminate|].
    destruct (c =? 125); [now intros [= <- _]|].
    destruct (c =? 44); [|discriminate].
    destruct (parse_member (parse_value f) t) as [[[k v] r1]|] eqn:E1;
      [|discriminate].
    destruct (parse_members f r1) as [[ms r2]|] eqn:E2; [|discriminate].
    intros [= <- _]. cbn [forallb snd].
    now rewrite (parse_member_data _ _ _ _ _ IHv E1), (IHm _ _ _ E2).
Qed.

(** Every value [JSON.parse] gives is JSON-representable. *)
Lemma JSON_parse_data (s : jsstring) v : JSON_parse s = Some v -> is_data v = true.
Proof.
  unfold JSON_parse.
  destruct (parse_value (S (length s)) s) as [[v' r]|] eqn:E; [|discriminate].
  destruct (skip_ws r); [|discriminate]. intros [= <-].
  exact (proj1 (parse_data (S (length s))) s v' r E).
Qed.

(* ================================================================== *)
(** ** Transfer of any cache the module can hold *)
(* ================================================================== *)

Lemma data_or_undefined_null v :
  data_or_undefined v = true -> is_data (null_for_undefined v) = true.
Proof.
  unfold data_or_undefined, null_for_undefined.
  destruct (is_undefined v); [reflexivity|exact (fun H => H)].
Qed.

Lemma element_text_null v :
  (if is_undefined v then lit_null else SerializeJSONProperty v)
  = SerializeJSONProperty (null_for_undefined v).
Proof. unfold null_for_undefined. now destruct (is_undefined v). Qed.

(** [serialize] writes [undefined] keys and values as [null]. *)
Lemma serialize_null_for_undefined (cache : Map) :
  cacheManager.serialize cache
  = cacheManager.serialize
      (map (fun e => (null_for_undefined (fst e), null_for_undefined (snd e)))
           cache).
Proof.
  unfold cacheManager.serialize, Map_entries.
  cbn [SerializeJSONProperty]. do 3 f_equal.
  rewrite !map_map. apply map_ext. intros [k v].
  cbn [is_undefined fst snd SerializeJSONProperty map].
  rewrite !element_text_null.
  assert (Hn : forall x, null_for_undefined (null_for_undefined x)
                         = null_for_undefined x)
    by (intros x; now destruct x).
  now rewrite !Hn.
Qed.

Lemma serialize_parse_back (cache : Map) :
  forallb (fun e => is_data (fst e) && is_data (snd e)) cache = true ->
  JSON_parse (cacheManager.serialize cache)
  = Some (Map_entries (transferred cache)).
Proof.
  intros H. unfold cacheManager.serialize.
  rewrite (JSON_parse_stringify _ (Map_entries_data cache H)).
  now rewrite through_json_entries.
Qed.

Lemma SameValueZero_true a b c :
  SameValueZero a b = true -> SameValueZero a c = SameValueZero b c.
Proof.
  destruct a as [| |x|x|x|x|x], b as [| |y|y|y|y|y]; simpl; try discriminate;
    try reflexivity; intros H.
  - now rewrite (Bool.eqb_prop _ _ H).
  - destruct c; try reflexivity. simpl. now rewrite (number_eqb_eq _ _ H).
  - destruct (jsstring_eqb_spec x y); [now subst|discriminate].
Qed.

Lemma Map_get_set_string m k v K :
  Map_get (Map_set m k v) (VStr K)
  = if SameValueZero k (VStr K) then v else Map_get m (VStr K).
Proof.
  induction m as [|[k0 v0] m IH]; simpl.
  - now rewrite SameValueZero_canonical_l.
  - destruct (SameValueZero k0 k) eqn:E; simpl.
    + rewrite (SameValueZero_true k0 k (VStr K) E).
      now destruct (SameValueZero k (VStr K)).
    + rewrite IH. destruct (SameValueZero k (VStr K)) eqn:E1; [|reflexivity].
      destruct (SameValueZero k0 (VStr K)) eqn:E0; [|reflexivity].
      apply SameValueZero_string in E1, E0. subst. simpl in E.
      now rewrite jsstring_eqb_refl in E.
Qed.

Lemma SameValueZero_element_through_json k K :
  SameValueZero (element_through_json k) (VStr K) = SameValueZero k (VStr K).
Proof.
  destruct k as [| |x|x|x|x|x]; try reflexivity.
  unfold element_through_json, null_for_undefined.
  cbn [is_undefined through_json]. now destruct (is_finite x).
Qed.

Lemma Map_of_pairs_string (cache : Map) (K : jsstring) :
  Map_keys_distinct cache = true ->
  forall acc,
  let m := fold_left (fun m p => Map_set m (fst p) (snd p))
             (map (fun e => (element_through_json (fst e),
                             element_through_json (snd e))) cache) acc in
  Map_has m (VStr K) = Map_has cache (VStr K) || Map_has acc (VStr K)
  /\ Map_get m (VStr K)
     = if Map_has cache (VStr K)
       then element_through_json (Map_get cache (VStr K))
       else Map_get acc (VStr K).
Proof.
  induction cache as [|[k v] cache IH]; intros Hd acc; [now split|].
  cbn [Map_keys_distinct] in Hd. apply andb_true_iff in Hd.
  destruct Hd as [Hk Hd]. apply negb_true_iff in Hk.
  cbn [map fold_left fst snd Map_has Map_get].
  destruct (IH Hd (Map_set acc (element_through_json k) (element_through_json v)))
    as [Hhas Hget].
  cbn zeta in Hhas, Hget. rewrite Hhas, Hget.
  rewrite Map_has_set, Map_get_set_string, SameValueZero_element_through_json.
  destruct (SameValueZero k (VStr K)) eqn:E.
  - apply SameValueZero_string in E. subst k. rewrite Hk. cbn [orb].
    rewrite andb_true_r. split; [|reflexivity].
    change (element_through_json (VStr K)) with (VStr K).
    now destruct (Map_has acc (VStr K)).
  - rewrite andb_false_r, orb_false_r. now split.
Qed.

Lemma data_or_undefined_cache_null (cache : Map) :
  data_or_undefined_cache cache = true ->
  forallb (fun e => is_data (fst e) && is_data (snd e))
    (map (fun e => (null_for_undefined (fst e), null_for_undefined (snd e)))
         cache) = true.
Proof.
  unfold data_or_undefined_cache.
  induction cache as [|[k v] cache IH]; simpl; [reflexivity|]. intros H.
  apply andb_true_iff in H. destruct H as [Hkv Hc].
  apply andb_true_iff in Hkv. destruct Hkv as [Hk Hv].
  now rewrite (data_or_undefined_null k Hk), (data_or_undefined_null v Hv), IH.
Qed.

Lemma initialize_serialize_normalized (cache other : Map) :
  data_or_undefined_cache cache = true ->
  cacheManager.initialize other (cacheManager.serialize cache)
  = Normal (Map_of_pairs
              (map (fun e => (element_through_json (fst e),
                              element_through_json (snd e))) cache)).
Proof.
  intros Hj. unfold cacheManager.initialize.
  rewrite serialize_null_for_undefined.
  rewrite (serialize_parse_back _ (data_or_undefined_cache_null cache Hj)).
  unfold new_Map, Map_entries. rewrite Map_add_entries_pairs.
  unfold transferred, Map_of_pairs. now rewrite map_map.
Qed.

(** X15.  [initialize] accepts what [serialize] wrote for any cache whose
    keys and values are [undefined] or made of [null], booleans, numbers,
    strings, arrays and objects: it does not throw, the new cache has the
    same string keys, and [get] gives the value of the serialized cache
    as [JSON.parse] reads it back: [null] where it was [undefined] or a
    number that is not finite, [0] where it was a negative zero, and the
    value itself otherwise. *)
Theorem initialize_serialize_undefined (cache other : Map) :
  data_or_undefined_cache cache = true ->
  Map_keys_distinct cache = true ->
  exists m,
    cacheManager.initialize other (cacheManager.serialize cache) = Normal m
    /\ forall K : jsstring,
         cacheManager.has m K = cacheManager.has cache K
         /\ cacheManager.get m K
            = if cacheManager.has cache K
              then element_through_json (cacheManager.get cache K)
              else VUndefined.
Proof.
  intros Hj Hd. eexists. split.
  - now apply initialize_serialize_normalized.
  - intros K. unfold cacheManager.has, cacheManager.get, Map_of_pairs.
    destruct (Map_of_pairs_string cache K Hd []) as [Hhas Hget].
    cbn zeta in Hhas, Hget. rewrite Hhas, Hget.
    now rewrite orb_false_r.
Qed.

Lemma initialize_serialize_undefined_witness :
  exists m,
    cacheManager.initialize [] (cacheManager.serialize odd_cache) = Normal m
    /\ forall K : jsstring,
         cacheManager.has m K = cacheManager.has odd_cache K
         /\ cacheManager.get m K
            = if cacheManager.has odd_cache K
              then element_through_json (cacheManager.get odd_cache K)
              else VUndefined.
Proof.
  apply (initialize_serialize_undefined odd_cache []); reflexivity.
Defined.

(** What the transfer makes of [odd_cache]. *)
Example odd_cache_transferred :
  cacheManager.serialize odd_cache
  = jsq "[['/people',null],['/inf',null],['/z',[0,1.5]]]"
  /\ cacheManager.initialize [] (cacheManager.serialize odd_cache)
     = Normal [(VStr people, VNull); (VStr (js "/inf"), VNull);
               (VStr (js "/z"),
                VArr [VNum (Finite false 0 0); VNum (Finite false 3 (-1))])].
Proof. vm_compute. split; reflexivity. Qed.

Lemma Map_entries_inj (m1 m2 : Map) : Map_entries m1 = Map_entries m2 -> m1 = m2.
Proof.
  unfold Map_entries. intros [= H]. revert m2 H.
  induction m1 as [|[k v] m1 IH]; intros [|[k' v'] m2]; simpl; try discriminate;
    [reflexivity|].
  intros [= -> -> H]. now rewrite (IH m2 H).
Qed.

(** X16.  Two caches with JSON-representable keys and values, none of
    them holding a negative zero, that [serialize] writes as the same
    string are the same cache: the string determines every entry and the
    order of the entries. *)
Theorem serialize_injective (cache1 cache2 : Map) :
  json_cache cache1 = true ->
  json_cache cache2 = true ->
  holds_negative_zero cache1 = false ->
  holds_negative_zero cache2 = false ->
  cacheManager.serialize cache1 = cacheManager.serialize cache2 ->
  cache1 = cache2.
Proof.
  unfold json_cache. intros H1 H2 Z1 Z2 E.
  apply andb_true_iff in H1, H2. destruct H1 as [H1 _], H2 as [H2 _].
  apply Map_entries_inj.
  pose proof (serialize_parse_back cache1 (json_entries_data cache1 H1)) as P1.
  pose proof (serialize_parse_back cache2 (json_entries_data cache2 H2)) as P2.
  rewrite (transferred_plain cache1 H1 Z1) in P1.
  rewrite (transferred_plain cache2 H2 Z2) in P2.
  rewrite E in P1. congruence.
Qed.

Lemma serialize_injective_witness : measures_cache = measures_cache.
Proof.
  apply (serialize_injective measures_cache measures_cache); reflexivity.
Defined.

(** With a negative zero the string does not tell the caches apart. *)
Example serialize_zeros :
  cacheManager.serialize negative_zero_cache
  = cacheManager.serialize [(VStr (js "/z"), VNum (Finite false 0 0))].
Proof. vm_compute. reflexivity. Qed.

(* ------------------------------------------------------------------ *)
(** *** The caches the module can hold *)

Lemma canonical_key_data_or_undefined k :
  data_or_undefined k = true -> data_or_undefined (canonical_key k) = true.
Proof.
  destruct k as [| |x|x|x|x|x]; try easy. unfold data_or_undefined.
  cbn [is_undefined canonical_key is_data orb]. unfold positive_zero.
  now destruct (is_negative_zero x).
Qed.

Lemma Map_set_data_or_undefined m k v :
  data_or_undefined_cache m = true ->
  data_or_undefined k = true -> data_or_undefined v = true ->
  data_or_undefined_cache (Map_set m k v) = true.
Proof.
  unfold data_or_undefined_cache. intros Hm Hk Hv.
  induction m as [|[k0 v0] m IH]; simpl in *;
    [now rewrite (canonical_key_data_or_undefined k Hk), Hv|].
  apply andb_true_iff in Hm. destruct Hm as [H0 Hm].
  apply andb_true_iff in H0. destruct H0 as [Hk0 Hv0].
  destruct (SameValueZero k0 k); simpl.
  - now rewrite Hk0, Hv, Hm.
  - now rewrite Hk0, Hv0, (IH Hm).
Qed.

Lemma nth_data_or_undefined n l :
  forallb is_data l = true -> data_or_undefined (nth n l VUndefined) = true.
Proof.
  revert n. induction l as [|x l IH]; intros [|n]; simpl; try reflexivity;
    intros H; apply andb_true_iff in H; destruct H as [Hx Hl].
  - unfold data_or_undefined. now rewrite Hx, orb_true_r.
  - now apply IH.
Qed.

Lemma obj_get_data_or_undefined k props :
  forallb (fun p => is_data (snd p)) props = true ->
  data_or_undefined (obj_get k props) = true.
Proof.
  induction props as [|[k0 v0] props IH]; simpl; [reflexivity|]. intros H.
  apply andb_true_iff in H. destruct H as [Hv Hp].
  destruct (jsstring_eqb k0 k); [|now apply IH].
  unfold data_or_undefined. now rewrite Hv, orb_true_r.
Qed.

Lemma Map_add_entries_data_or_undefined items :
  forallb is_data items = true ->
  forall m m', data_or_undefined_cache m = true ->
  Map_add_entries m items = Normal m' -> data_or_undefined_cache m' = true.
Proof.
  induction items as [|item items IH]; simpl; intros Hj m m' Hm.
  - now intros [= <-].
  - apply andb_true_iff in Hj. destruct Hj as [Hi Hj].
    destruct item as [| |b|n|s|l|props]; simpl; try discriminate.
    + apply (IH Hj). cbn [is_data] in Hi.
      apply Map_set_data_or_undefined; [exact Hm| |];
        now apply nth_data_or_undefined.
    + apply (IH Hj). cbn [is_data] in Hi. apply andb_true_iff in Hi.
      destruct Hi as [_ Hi].
      apply Map_set_data_or_undefined; [exact Hm| |];
        now apply obj_get_data_or_undefined.
Qed.

Lemma initialize_data_or_undefined cache (s : jsstring) m :
  cacheManager.initialize cache s = Normal m ->
  data_or_undefined_cache m = true.
Proof.
  unfold cacheManager.initialize.
  destruct (JSON_parse s) as [v|] eqn:E; [|discriminate].
  apply JSON_parse_data in E.
  destruct v as [| |b|n|str|items|props]; simpl; try discriminate;
    try (now intros [= <-]).
  - destruct str; [now intros [= <-]|discriminate].
  - now apply (Map_add_entries_data_or_undefined items E []).
Qed.

Lemma fetch_json_data o d : fetch_json o = Normal d -> is_data d = true.
Proof.
  unfold fetch_json, json. destruct o as [response|]; [|discriminate].
  destruct (negb (ok response)); [discriminate|].
  destruct (JSON_parse (body response)) as [v|] eqn:E; [|discriminate].
  intros [= <-]. now apply (JSON_parse_data (body response)).
Qed.

Lemma set_data_or_undefined cache K d :
  data_or_undefined_cache cache = true -> is_data d = true ->
  data_or_undefined_cache (cacheManager.set cache K d) = true.
Proof.
  intros Hc Hd. apply Map_set_data_or_undefined; [exact Hc|reflexivity|].
  unfold data_or_undefined. now rewrite Hd, orb_true_r.
Qed.

Lemma step_data_or_undefined w e :
  data_or_undefined_cache (cache w) = true ->
  data_or_undefined_cache (cache (step w e)) = true.
Proof.
  intros H. destruct e as [c url|c|c|id o|url|s|]; cbn [step].
  - unfold useCachingFetch. destruct (nth_error (hooks w) c) as [h|].
    + now destruct (mounted h).
    + now destruct (Nat.eqb c (length (hooks w))).
  - unfold run_effect. destruct (nth_error (hooks w) c) as [h|]; [|exact H].
    destruct (mounted h && effect_due h); [|exact H].
    unfold effect_body.
    destruct (cacheManager.has (cache (run_cleanup (cleanup h) w)) (hook_url h));
      destruct (cleanup h); exact H.
  - unfold unmount. destruct (nth_error (hooks w) c) as [h|]; [|exact H].
    destruct (mounted h); [|exact H]. destruct (cleanup h); exact H.
  - unfold settle. destruct (nth_error (network w) id) as [rq|]; [|exact H].
    destruct (settled rq); [exact H|].
    destruct (continuation rq) as [c isMounted|p].
    + unfold hook_callbacks.
      destruct (fetch_json o) as [d|e] eqn:E, isMounted; try exact H.
      cbn. apply set_data_or_undefined; [exact H|].
      now apply (fetch_json_data o).
    + unfold preload_rest. destruct (fetch_json o) as [d|e] eqn:E; [|exact H].
      cbn. apply set_data_or_undefined; [exact H|].
      now apply (fetch_json_data o).
  - unfold preloadCachingFetch.
    destruct (cacheManager.has (cache w) url); exact H.
  - unfold initializeCache.
    destruct (cacheManager.initialize (cache w) s) as [m|e] eqn:E; [|exact H].
    cbn. now apply (initialize_data_or_undefined (cache w) s).
  - reflexivity.
Qed.

Lemma run_data_or_undefined events :
  forall w, data_or_undefined_cache (cache w) = true ->
            data_or_undefined_cache (cache (run w events)) = true.
Proof.
  induction events as [|e events IH]; intros w Hw; [exact Hw|].
  apply IH, step_data_or_undefined, Hw.
Qed.

(** X17.  Whatever has happened to the module, [initializeCache] accepts
    the string [serializeCache] returns: on any module it completes
    without throwing and replaces the cache by one that has the same
    string keys, [get] giving every value as [JSON.parse] reads it back:
    [null] where it was [undefined] or a number that is not finite (the
    [Infinity] a body such as [1e999] leaves in the cache), [0] where it
    was a negative zero, and the value itself otherwise. *)
Theorem serializeCache_always_accepted (events : list Event) (w' : World) :
  exists m,
    initializeCache (serializeCache (run initial_world events)) w'
    = (Normal tt, with_cache w' m)
    /\ forall K : jsstring,
         cacheManager.has m K
         = cacheManager.has (cache (run initial_world events)) K
         /\ cacheManager.get m K
            = if cacheManager.has (cache (run initial_world events)) K
              then element_through_json
                     (cacheManager.get (cache (run initial_world events)) K)
              else VUndefined.
Proof.
  assert (Hj : data_or_undefined_cache (cache (run initial_world events)) = true)
    by now apply run_data_or_undefined.
  assert (Hd : Map_keys_distinct (cache (run initial_world events)) = true)
    by now apply run_keys_distinct.
  eexists. split.
  - unfold initializeCache, serializeCache.
    now rewrite (initialize_serialize_normalized _ (cache w') Hj).
  - intros K. unfold cacheManager.has, cacheManager.get, Map_of_pairs.
    destruct (Map_of_pairs_string (cache (run initial_world events)) K Hd [])
      as [Hhas Hget].
    cbn zeta in Hhas, Hget. rewrite Hhas, Hget.
    now rewrite orb_false_r.
Qed.

(** A body that is read as [Infinity] is cached, written [null] by
    [serializeCache] and read back as [null]. *)
Example infinity_transferred :
  cache (run initial_world
           [Preload people;
            Settle 0 (Responds {| status := 200; body := js "1e999" |})])
  = [(VStr people, VNum (Infinity false))]
  /\ serializeCache
       (run initial_world
          [Preload people;
           Settle 0 (Responds {| status := 200; body := js "1e999" |})])
     = jsq "[['/people',null]]"
  /\ cacheManager.get
       (cache (snd (initializeCache (jsq "[['/people',null]]") initial_world)))
       people
     = VNull.
Proof. vm_compute. repeat split. Qed.

(* ================================================================== *)
(** ** Decoding pairs, retrying, and unmounted components *)
(* ================================================================== *)

Lemma fold_Map_set_string pairs (K : jsstring) :
  forall acc,
  Map_get (fold_left (fun m p => Map_set m (fst p) (snd p)) pairs acc) (VStr K)
  = fold_left (fun r p => if SameValueZero (fst p) (VStr K) then snd p else r)
              pairs (Map_get acc (VStr K))
  /\ Map_has (fold_left (fun m p => Map_set m (fst p) (snd p)) pairs acc) (VStr K)
     = Map_has acc (VStr K) || Map_has pairs (VStr K).
Proof.
  induction pairs as [|[k v] pairs IH]; intros acc; simpl.
  - now rewrite orb_false_r.
  - destruct (IH (Map_set acc k v)) as [Hg Hh]. rewrite Hg, Hh.
    rewrite Map_get_set_string, Map_has_set. split; [reflexivity|].
    destruct (SameValueZero k (VStr K)) eqn:E.
    + apply SameValueZero_string in E. subst k.
      now destruct (Map_has acc (VStr K)).
    + now rewrite andb_false_r, orb_false_r.
Qed.

(** X18.  When the string encodes a sequence of pairs in which a key
    occurs more than once, [initialize] keeps one entry for it, with the
    value of the last pair: [has(K)] tells whether some pair has the key
    [K], and [get(K)] is the value of the last such pair. *)
Theorem initialize_last_pair_wins (other : Map) (s : jsstring)
  (pairs : list (value * value)) :
  JSON_parse s = Some (Map_entries pairs) ->
  exists m,
    cacheManager.initialize other s = Normal m
    /\ Map_keys_distinct m = true
    /\ forall K : jsstring,
         cacheManager.has m K = Map_has pairs (VStr K)
         /\ cacheManager.get m K = last_value_for K pairs.
Proof.
  intros Hs. exists (Map_of_pairs pairs).
  assert (E : cacheManager.initialize other s = Normal (Map_of_pairs pairs)).
  { unfold cacheManager.initialize. rewrite Hs.
    unfold new_Map, Map_entries. apply Map_add_entries_pairs. }
  split; [exact E|]. split.
  - unfold cacheManager.initialize in E. rewrite Hs in E.
    now apply (new_Map_distinct (Map_entries pairs)).
  - intros K. unfold cacheManager.has, cacheManager.get, Map_of_pairs.
    destruct (fold_Map_set_string pairs K []) as [Hg Hh].
    now rewrite Hg, Hh.
Qed.

Lemma initialize_last_pair_wins_witness :
  exists m,
    cacheManager.initialize [] (jsq "[['/a',1],['/b',2],['/a',3]]") = Normal m
    /\ Map_keys_distinct m = true
    /\ forall K : jsstring,
         cacheManager.has m K
         = Map_has [(VStr (js "/a"), VNum (Finite false 1 0));
                    (VStr (js "/b"), VNum (Finite false 1 1));
                    (VStr (js "/a"), VNum (Finite false 3 0))] (VStr K)
         /\ cacheManager.get m K
            = last_value_for K
                [(VStr (js "/a"), VNum (Finite false 1 0));
                 (VStr (js "/b"), VNum (Finite false 1 1));
                 (VStr (js "/a"), VNum (Finite false 3 0))].
Proof.
  apply (initialize_last_pair_wins [] (jsq "[['/a',1],['/b',2],['/a',3]]")
           [(VStr (js "/a"), VNum (Finite false 1 0));
            (VStr (js "/b"), VNum (Finite false 1 1));
            (VStr (js "/a"), VNum (Finite false 3 0))]).
  vm_compute. reflexivity.
Defined.

(** X19.  A preload that fails is not remembered: whatever made the fetch
    fail, the promise is rejected with the error, the cache is unchanged,
    and the next [preloadCachingFetch] for the key calls [fetch] again. *)
Theorem failed_preload_retried (w : World) (K : jsstring) (o : Outcome)
  (e : Error) :
  cacheManager.has (cache w) K = false ->
  fetch_json o = Throw e ->
  promises (settle (length (network w)) o (preloadCachingFetch K w))
  = promises w ++ [Rejected e]
  /\ cache (settle (length (network w)) o (preloadCachingFetch K w)) = cache w
  /\ network (preloadCachingFetch K
                (settle (length (network w)) o (preloadCachingFetch K w)))
     = network w
       ++ [{| request_url := K;
              continuation := PreloadContinuation (length (promises w));
              settled := true |};
           new_request K (PreloadContinuation (S (length (promises w))))].
Proof.
  intros Hhas Ho.
  assert (Hw : settle (length (network w)) o (preloadCachingFetch K w)
               = {| cache := cache w;
                    network :=
                      network w
                      ++ [{| request_url := K;
                             continuation :=
                               PreloadContinuation (length (promises w));
                             settled := true |}];
                    hooks := hooks w;
                    promises := promises w ++ [Rejected e] |}).
  { unfold preloadCachingFetch. rewrite Hhas.
    unfold settle, fetch. cbn [network with_network with_promises].
    rewrite nth_error_snoc. cbn [settled continuation request_url].
    rewrite Ho. unfold preload_rest, settle_promise, with_promises, with_network.
    cbn [network promises cache hooks].
    now rewrite !update_nth_snoc. }
  rewrite Hw. cbn [promises cache]. split; [reflexivity|]. split; [reflexivity|].
  unfold preloadCachingFetch. cbn [cache]. rewrite Hhas.
  cbn [network promises fetch with_network with_promises].
  rewrite length_app, <- app_assoc. cbn [length app].
  now rewrite Nat.add_1_r.
Qed.

Lemma failed_preload_retried_witness :
  promises (settle 0 (Responds not_found)
              (preloadCachingFetch people initial_world))
  = [Rejected (http_error not_found)].
Proof.
  apply (failed_preload_retried initial_world people (Responds not_found)
           (http_error not_found)); reflexivity.
Defined.

(** X20.  The state of an unmounted component is never updated: whatever
    has happened to the module, no event changes the record of a
    component that has been unmounted. *)
Theorem unmounted_component_never_updated (events : list Event) (e : Event)
  (c : nat) (h : Hook) :
  nth_error (hooks (run initial_world events)) c = Some h ->
  mounted h = false ->
  nth_error (hooks (step (run initial_world events) e)) c = Some h.
Proof.
  intros Hh Hm.
  assert (Hinv : live_requests_owned (run initial_world events)).
  { apply live_requests_owned_run. intros id rq c' Hrq.
    destruct id; discriminate Hrq. }
  set (w := run initial_world events) in *.
  assert (Hother : forall c0 f (hs : list Hook),
             hs = hooks w -> (c0 = c -> False) ->
             nth_error (update_nth c0 f hs) c = Some h).
  { intros c0 f hs -> Hne.
    rewrite (nth_error_update_nth_other c0 c f (hooks w)); [exact Hh|].
    intros E. now apply Hne. }
  destruct e as [c0 url|c0|c0|id o|url|s|]; cbn [step].
  - unfold useCachingFetch.
    destruct (nth_error (hooks w) c0) as [h0|] eqn:Hh0.
    + destruct (mounted h0) eqn:Hm0; [|exact Hh].
      cbn [hooks with_hooks]. apply Hother; [reflexivity|].
      intros ->. congruence.
    + destruct (Nat.eqb c0 (length (hooks w))); [|exact Hh].
      cbn [hooks with_hooks]. now apply nth_error_app_left.
  - unfold run_effect.
    destruct (nth_error (hooks w) c0) as [h0|] eqn:Hh0; [|exact Hh].
    destruct (mounted h0) eqn:Hm0; [|exact Hh].
    destruct (effect_due h0); [|exact Hh]. cbn [andb].
    assert (Hne : c0 = c -> False) by (intros ->; congruence).
    assert (Hhooks : hooks (run_cleanup (cleanup h0) w) = hooks w)
      by now destruct (cleanup h0).
    unfold effect_body.
    destruct (cacheManager.has (cache (run_cleanup (cleanup h0) w)) (hook_url h0));
      cbn [hooks effect_done setState fetch with_hooks with_network];
      rewrite Hhooks;
      (rewrite (nth_error_update_nth_other c0 c); [|intros E; now apply Hne]);
      now apply Hother.
  - unfold unmount.
    destruct (nth_error (hooks w) c0) as [h0|] eqn:Hh0; [|exact Hh].
    destruct (mounted h0) eqn:Hm0; [|exact Hh].
    cbn [hooks with_hooks]. apply Hother; [reflexivity|].
    intros ->. congruence.
  - unfold settle. destruct (nth_error (network w) id) as [rq|] eqn:Hrq;
      [|exact Hh].
    destruct (settled rq); [exact Hh|].
    destruct (continuation rq) as [c1 isMounted|p] eqn:Hk.
    + unfold hook_callbacks.
      destruct isMounted;
        [|destruct (fetch_json o); exact Hh].
      destruct (Hinv id rq c1 Hrq Hk) as (h1 & Hh1 & Hm1 & _).
      assert (Hne : c1 = c -> False) by (intros ->; congruence).
      destruct (fetch_json o);
        cbn [hooks setState with_hooks with_cache with_network];
        now apply Hother.
    + unfold preload_rest. destruct (fetch_json o); exact Hh.
  - unfold preloadCachingFetch.
    destruct (cacheManager.has (cache w) url); exact Hh.
  - unfold initializeCache.
    destruct (cacheManager.initialize (cache w) s); exact Hh.
  - exact Hh.
Qed.

Lemma unmounted_component_never_updated_witness :
  nth_error
    (hooks (step (run initial_world [Render 0 people; RunEffect 0; Unmount 0])
              (Settle 0 people_response))) 0
  = Some {| hook_url := people; state := initial_state;
            returned := [initial_state; initial_state];
            effect_due := false; cleanup := None; mounted := false |}.
Proof.
  apply (unmounted_component_never_updated
           [Render 0 people; RunEffect 0; Unmount 0]
           (Settle 0 people_response) 0
           {| hook_url := people; state := initial_state;
              returned := [initial_state; initial_state];
              effect_due := false; cleanup := None; mounted := false |});
    reflexivity.
Defined.

(* ================================================================== *)
(** ** Numbers in JSON texts: examples *)
(* ================================================================== *)

(** Literals with a fraction or an exponent are read, to the nearest
    double: [2^53 + 1] is read as [2^53], and a literal from [2^1024] on
    as [Infinity]. *)
Example JSON_parse_numbers :
  JSON_parse (js "1.5") = Some (VNum (Finite false 3 (-1)))
  /\ JSON_parse (js "1e2") = Some (VNum (Finite false 25 2))
  /\ JSON_parse (js "1.0") = Some (VNum (Finite false 1 0))
  /\ JSON_parse (js "-0") = Some (VNum (Finite true 0 0))
  /\ JSON_parse (js "0.1") = Some (VNum (Finite false 3602879701896397 (-55)))
  /\ JSON_parse (js "9007199254740993") = Some (VNum (Finite false 1 53))
  /\ JSON_parse (js "1e999") = Some (VNum (Infinity false))
  /\ JSON_parse (js "-1e999") = Some (VNum (Infinity true))
  /\ JSON_parse (js "1e-999") = Some (VNum (Finite false 0 0))
  /\ JSON_parse (jsq "{'height':1.75}")
     = Some (VObj [(js "height", VNum (Finite false 7 (-2)))]).
Proof. vm_compute. repeat split. Qed.

(** What is not a JSON number is refused. *)
Example JSON_parse_not_numbers :
  JSON_parse (js "01") = None
  /\ JSON_parse (js "1.") = None
  /\ JSON_parse (js ".5") = None
  /\ JSON_parse (js "1e") = None
  /\ JSON_parse (js "1e+") = None
  /\ JSON_parse (js "+1") = None
  /\ JSON_parse (js "-") = None
  /\ JSON_parse (js "0x10") = None
  /\ JSON_parse (js "Infinity") = None
  /\ JSON_parse (js "NaN") = None.
Proof. vm_compute. repeat split. Qed.

(** [JSON.stringify] writes a finite number with the digits of
    [Number::toString], in exponent form from [10^21] on and below
    [10^-6], and [null] for the other numbers. *)
Example JSON_stringify_numbers :
  SerializeJSONProperty (VNum (Finite false 3 (-1))) = js "1.5"
  /\ SerializeJSONProperty (VNum (Finite true 7 (-2))) = js "-1.75"
  /\ SerializeJSONProperty (VNum (Finite false 3602879701896397 (-55)))
     = js "0.1"
  /\ SerializeJSONProperty (VNum (Finite false 1 53)) = js "9007199254740992"
  /\ SerializeJSONProperty (VNum (Finite false 152587890625 26))
     = js "10240000000000000000"
  /\ SerializeJSONProperty (VNum (Finite false 476837158203125 21))
     = js "1e+21"
  /\ SerializeJSONProperty (VNum (Finite false 4722366482869645 (-72)))
     = js "0.000001"
  /\ SerializeJSONProperty (VNum (Finite false 944473296573929 (-73)))
     = js "1e-7"
  /\ SerializeJSONProperty (VNum (Finite false 1 (-1074))) = js "5e-324"
  /\ SerializeJSONProperty (VNum (Finite false 9007199254740991 971))
     = js "1.7976931348623157e+308"
  /\ SerializeJSONProperty (VNum (Finite true 0 0)) = js "0"
  /\ SerializeJSONProperty (VNum (Infinity false)) = js "null"
  /\ SerializeJSONProperty (VNum NaN) = js "null".
Proof. vm_compute. repeat split. Qed.

(** A body whose numbers have a fraction is data like any other: the hook
    returns it, and the preloader sets it in the cache and fulfils its
    promise. *)
Example fraction_body_fetched :
  fetch_json (Responds {| status := 200; body := jsq "{'height':1.75}" |})
  = Normal (VObj [(js "height", VNum (Finite false 7 (-2)))])
  /\ hook_state 0
       (settle 0 (Responds {| status := 200; body := jsq "{'height':1.75}" |})
          fetching_people)
     = Some {| isLoading := false;
               data := VObj [(js "height", VNum (Finite false 7 (-2)))];
               error := None |}
  /\ cache (run initial_world
              [Preload people;
               Settle 0 (Responds {| status := 200;
                                     body := jsq "{'height':1.75}" |})])
     = [(VStr people, VObj [(js "height", VNum (Finite false 7 (-2)))])]
  /\ promises (run initial_world
                 [Preload people;
                  Settle 0 (Responds {| status := 200;
                                        body := jsq "{'height':1.75}" |})])
     = [Fulfilled].
Proof. vm_compute. repeat split. Qed.

